(** * Guitar-Pro tab player: the time-to-score synchronisation engine

    A shallow embedding of the marker handling, the position resolver and
    the transport control of [editor.js] (class [SyncEditor]) and
    [sync-player.js] (class [SyncedPlayer]), with the properties of the
    synchronisation engine proved about them; and, around the engine, of
    the page the editor exports, of the project library and of the text
    and binary helpers of the two scripts. *)

From Stdlib Require Import QArith Qabs Qround Qminmax ZArith List Bool Lia Lqa.
From Stdlib Require Import Ascii.
From stdpp Require Import gmap strings pretty.
Import ListNotations.

Local Open Scope Z_scope.

(** ** JavaScript numbers

    The scripts compute with IEEE doubles.  Rounding is not modelled: a
    finite number is a rational.  The three non-finite values are kept,
    because a division whose divisor is zero produces them and they then
    flow through [Math.min], [Math.max] and the comparisons in their own
    way.  Signed zeros are not distinguished (a zero divisor counts as +0). *)
Module Js.

Inductive jsnum : Type :=
| Num (q : Q)
| PInf
| NInf
| NaN.

Definition neg (x : jsnum) : jsnum :=
  match x with
  | Num q => Num (- q)
  | PInf => NInf
  | NInf => PInf
  | NaN => NaN
  end.

(** [x + y] *)
Definition add (x y : jsnum) : jsnum :=
  match x, y with
  | Num a, Num b => Num (a + b)
  | NaN, _ | _, NaN => NaN
  | PInf, NInf | NInf, PInf => NaN
  | PInf, _ | _, PInf => PInf
  | NInf, _ | _, NInf => NInf
  end.

(** [x - y] *)
Definition sub (x y : jsnum) : jsnum := add x (neg y).

(** An infinity scaled by the sign of a finite factor. *)
Definition scale_inf (inf : jsnum) (a : Q) : jsnum :=
  match a ?= 0 with
  | Eq => NaN
  | Gt => inf
  | Lt => neg inf
  end%Q.

(** [x * y] *)
Definition mul (x y : jsnum) : jsnum :=
  match x, y with
  | Num a, Num b => Num (a * b)
  | NaN, _ | _, NaN => NaN
  | Num a, inf => scale_inf inf a
  | inf, Num b => scale_inf inf b
  | PInf, PInf | NInf, NInf => PInf
  | PInf, NInf | NInf, PInf => NInf
  end.

(** [x / y]: dividing by zero gives an infinity, or NaN for 0/0. *)
Definition div (x y : jsnum) : jsnum :=
  match x, y with
  | Num a, Num b =>
      if Qeq_bool b 0 then
        match a ?= 0 with
        | Eq => NaN
        | Gt => PInf
        | Lt => NInf
        end%Q
      else Num (a / b)
  | NaN, _ | _, NaN => NaN
  | Num _, _ => Num 0
  | inf, Num b => match b ?= 0 with Lt => neg inf | _ => inf end%Q
  | _, _ => NaN
  end.

(** [x <= y] and [x < y]; every comparison with NaN is false. *)
Definition le (x y : jsnum) : bool :=
  match x, y with
  | Num a, Num b => Qle_bool a b
  | NaN, _ | _, NaN => false
  | NInf, _ | _, PInf => true
  | _, _ => false
  end.

Definition lt (x y : jsnum) : bool :=
  match x, y with
  | Num a, Num b => negb (Qle_bool b a)
  | NaN, _ | _, NaN => false
  | PInf, _ | _, NInf => false
  | _, _ => true
  end.

(** [x >= y] and [x > y] *)
Definition ge (x y : jsnum) : bool := le y x.
Definition gt (x y : jsnum) : bool := lt y x.

(** [Math.max(x, y)] and [Math.min(x, y)]: NaN if either argument is. *)
Definition Math_max (x y : jsnum) : jsnum :=
  match x, y with
  | NaN, _ | _, NaN => NaN
  | _, _ => if le x y then y else x
  end.

Definition Math_min (x y : jsnum) : jsnum :=
  match x, y with
  | NaN, _ | _, NaN => NaN
  | _, _ => if le x y then x else y
  end.

(** [Math.floor(x)] *)
Definition Math_floor (x : jsnum) : jsnum :=
  match x with
  | Num q => Num (inject_Z (Qfloor q))
  | _ => x
  end.

(** [Math.abs(x)] *)
Definition Math_abs (x : jsnum) : jsnum :=
  match x with
  | Num q => Num (Qabs q)
  | NInf => PInf
  | _ => x
  end.

(** Truthiness of a number: [0] and [NaN] are falsy. *)
Definition truthy (x : jsnum) : bool :=
  match x with
  | Num q => negb (Qeq_bool q 0)
  | NaN => false
  | _ => true
  end.

(** Two numbers denote the same value. *)
Definition same (x y : jsnum) : Prop :=
  match x, y with
  | Num a, Num b => (a == b)%Q
  | PInf, PInf | NInf, NInf | NaN, NaN => True
  | _, _ => False
  end.

(** A finite number inside the closed unit interval. *)
Definition in_unit_interval (x : jsnum) : Prop :=
  match x with
  | Num q => (0 <= q /\ q <= 1)%Q
  | _ => False
  end.

(** The integer [z] as a number. *)
Definition of_Z (z : Z) : jsnum := Num (inject_Z z).

End Js.

Import Js.

(** ** Data model *)

(** A beat marker [{ bar: number, time: number (in seconds) }]. *)
Record marker : Type := Marker { bar : Z; time : Q }.

(** An entry [{ start, end }] of the bar tick map, in renderer ticks. *)
Record tick_range : Type := TickRange { start : Z; end_ : Z }.

(** [Math.floor(barTicks.start + (barTicks.end - barTicks.start) * progress)],
    the interpolated cursor position both front ends compute. *)
Definition interpolate_tick (barTicks : tick_range) (progress : jsnum) : jsnum :=
  Math_floor
    (add (of_Z (start barTicks))
         (mul (sub (of_Z (end_ barTicks)) (of_Z (start barTicks))) progress)).

(** [Math.min(1, Math.max(0, timeInBar / barDuration))] *)
Definition clamp_progress (timeInBar barDuration : jsnum) : jsnum :=
  Math_min (Num 1) (Math_max (Num 0) (div timeInBar barDuration)).

(** The tick map both classes build from [tickCache.masterBars]:
    entry [index + 1] holds the range of the bar at [index]. *)
Fixpoint tick_map_from (index : Z) (masterBars : list tick_range)
  : gmap Z tick_range :=
  match masterBars with
  | [] => ∅
  | barInfo :: rest =>
      <[index + 1 := TickRange (start barInfo) (end_ barInfo)]>
        (tick_map_from (index + 1) rest)
  end.

(** ** The sync editor ([editor.js], class [SyncEditor])

    The state keeps the fields the marker operations and the position
    resolver read or write.  The waveform engine is [None] while
    [this.wavesurfer] is [null]; otherwise it carries the playback rate last
    handed to [setPlaybackRate].  [tickPosition] is the cursor of the
    notation renderer ([this.alphaTab.tickPosition]).  Updates of the page
    (labels, timeline, buttons) are not part of the state. *)
Module Editor.

Record state : Type := State {
  wavesurfer : option Q;
  score : bool;
  alphaTab : bool;
  beatMarkers : list marker;
  currentBarToMark : Z;
  totalBars : Z;
  barTickMap : gmap Z tick_range;
  playbackSpeed : Q;
  lastSyncedBar : Z;
  lastTick : jsnum;
  tickPosition : jsnum;
  autoSaveTimeout : bool
}.

(** The fields as the constructor leaves them, with the waveform engine
    created by [init] (rate 1) and no score loaded yet. *)
Definition new_SyncEditor : state :=
  {| wavesurfer := Some 1%Q; score := false; alphaTab := false;
     beatMarkers := []; currentBarToMark := 1; totalBars := 0;
     barTickMap := ∅; playbackSpeed := 1%Q;
     lastSyncedBar := 0; lastTick := Num 0; tickPosition := Num 0;
     autoSaveTimeout := false |}.

Definition set_wavesurfer (v : option Q) (s : state) : state :=
  State v (score s) (alphaTab s) (beatMarkers s) (currentBarToMark s)
    (totalBars s) (barTickMap s) (playbackSpeed s) (lastSyncedBar s)
    (lastTick s) (tickPosition s) (autoSaveTimeout s).

Definition set_score (v : bool) (s : state) : state :=
  State (wavesurfer s) v (alphaTab s) (beatMarkers s) (currentBarToMark s)
    (totalBars s) (barTickMap s) (playbackSpeed s) (lastSyncedBar s)
    (lastTick s) (tickPosition s) (autoSaveTimeout s).

Definition set_alphaTab (v : bool) (s : state) : state :=
  State (wavesurfer s) (score s) v (beatMarkers s) (currentBarToMark s)
    (totalBars s) (barTickMap s) (playbackSpeed s) (lastSyncedBar s)
    (lastTick s) (tickPosition s) (autoSaveTimeout s).

Definition set_totalBars (v : Z) (s : state) : state :=
  State (wavesurfer s) (score s) (alphaTab s) (beatMarkers s)
    (currentBarToMark s) v (barTickMap s) (playbackSpeed s) (lastSyncedBar s)
    (lastTick s) (tickPosition s) (autoSaveTimeout s).

Definition set_beatMarkers (v : list marker) (s : state) : state :=
  State (wavesurfer s) (score s) (alphaTab s) v (currentBarToMark s)
    (totalBars s) (barTickMap s) (playbackSpeed s) (lastSyncedBar s)
    (lastTick s) (tickPosition s) (autoSaveTimeout s).

Definition set_currentBarToMark (v : Z) (s : state) : state :=
  State (wavesurfer s) (score s) (alphaTab s) (beatMarkers s) v
    (totalBars s) (barTickMap s) (playbackSpeed s) (lastSyncedBar s)
    (lastTick s) (tickPosition s) (autoSaveTimeout s).

Definition set_playbackSpeed (v : Q) (s : state) : state :=
  State (wavesurfer s) (score s) (alphaTab s) (beatMarkers s)
    (currentBarToMark s) (totalBars s) (barTickMap s) v (lastSyncedBar s)
    (lastTick s) (tickPosition s) (autoSaveTimeout s).

Definition set_lastSyncedBar (v : Z) (s : state) : state :=
  State (wavesurfer s) (score s) (alphaTab s) (beatMarkers s)
    (currentBarToMark s) (totalBars s) (barTickMap s) (playbackSpeed s) v
    (lastTick s) (tickPosition s) (autoSaveTimeout s).

Definition set_lastTick (v : jsnum) (s : state) : state :=
  State (wavesurfer s) (score s) (alphaTab s) (beatMarkers s)
    (currentBarToMark s) (totalBars s) (barTickMap s) (playbackSpeed s)
    (lastSyncedBar s) v (tickPosition s) (autoSaveTimeout s).

Definition set_tickPosition (v : jsnum) (s : state) : state :=
  State (wavesurfer s) (score s) (alphaTab s) (beatMarkers s)
    (currentBarToMark s) (totalBars s) (barTickMap s) (playbackSpeed s)
    (lastSyncedBar s) (lastTick s) v (autoSaveTimeout s).

Definition set_autoSaveTimeout (v : bool) (s : state) : state :=
  State (wavesurfer s) (score s) (alphaTab s) (beatMarkers s)
    (currentBarToMark s) (totalBars s) (barTickMap s) (playbackSpeed s)
    (lastSyncedBar s) (lastTick s) (tickPosition s) v.

(** [buildBarTickMap()] from the renderer's [tickCache.masterBars]. *)
Definition buildBarTickMap (masterBars : list tick_range) (s : state) : state :=
  State (wavesurfer s) (score s) (alphaTab s) (beatMarkers s)
    (currentBarToMark s) (totalBars s) (tick_map_from 0 masterBars)
    (playbackSpeed s) (lastSyncedBar s) (lastTick s) (tickPosition s)
    (autoSaveTimeout s).

(** [initAlphaTab()]: the renderer exists from here on. *)
Definition initAlphaTab (s : state) : state := set_alphaTab true s.

(** [applySyncData(syncData)]; [markers] is [None] when [syncData.markers]
    is missing or not an array. *)
Definition applySyncData (markers : option (list marker)) (s : state) : state :=
  match markers with
  | Some ms =>
      let s1 := set_beatMarkers ms s in
      set_currentBarToMark (Z.of_nat (length (beatMarkers s1)) + 1) s1
  | None => s
  end.

(** [onScoreLoaded(score)]; [masterBars] is [score.masterBars.length]. *)
Definition onScoreLoaded (masterBars : nat) (s : state) : state :=
  let s1 := set_score true s in
  let s2 := set_totalBars (Z.of_nat masterBars) s1 in
  if (length (beatMarkers s2) =? 0)%nat
     || (totalBars s2 <? Z.of_nat (length (beatMarkers s2)))
  then set_currentBarToMark 1 (set_beatMarkers [] s2)
  else s2.

(** [scrollToBar(barNumber)] *)
Definition scrollToBar (barNumber : Z) (s : state) : state :=
  if negb (alphaTab s) then s
  else match barTickMap s !! barNumber with
       | None => s
       | Some barTicks => set_tickPosition (of_Z (start barTicks)) s
       end.

(** [scheduleAutoSave()]: arms the debounce timer when there is
    something to save. *)
Definition scheduleAutoSave (s : state) : state :=
  if negb (score s) || negb (bool_decide (is_Some (wavesurfer s)))
     || (length (beatMarkers s) =? 0)%nat
  then s
  else set_autoSaveTimeout true s.

(** [recordBeatMarker()], the tap.  [currentTime] is what
    [this.wavesurfer.getCurrentTime()] returns at the tap.  The calls that
    only redraw the page ([updateAllDisplays], [flashTapButton]) are left
    out, here and in the next two operations. *)
Definition recordBeatMarker (currentTime : Q) (s : state) : state :=
  if negb (bool_decide (is_Some (wavesurfer s))) || negb (score s) then s
  else if totalBars s <? currentBarToMark s then s
  else
    let s1 :=
      set_beatMarkers
        (beatMarkers s ++ [Marker (currentBarToMark s) currentTime]) s in
    let s2 := set_currentBarToMark (currentBarToMark s1 + 1) s1 in
    let s3 := scrollToBar (currentBarToMark s2) s2 in
    scheduleAutoSave s3.

(** [undoLastMarker()] *)
Definition undoLastMarker (s : state) : state :=
  if (length (beatMarkers s) =? 0)%nat then s
  else
    let s1 := set_beatMarkers (removelast (beatMarkers s)) s in
    let s2 := set_currentBarToMark (currentBarToMark s1 - 1) s1 in
    scheduleAutoSave s2.

(** [clearAllMarkers()]; [confirmed] is the answer to the [confirm]
    dialog. *)
Definition clearAllMarkers (confirmed : bool) (s : state) : state :=
  if (length (beatMarkers s) =? 0)%nat then s
  else if negb confirmed then s
  else
    let s1 := set_beatMarkers [] s in
    let s2 := set_currentBarToMark 1 s1 in
    scheduleAutoSave s2.

(** The three locals of the marker scan in [highlightCurrentBar].
    [nextBarTime] is [None] for JavaScript's [null]. *)
Record scan : Type := Scan {
  currentBar : Z;
  currentBarTime : Q;
  nextBarTime : option Q
}.

(** [this.beatMarkers[i + 1]?.time || null], with [rest] the markers
    after index [i]: a missing marker and a time of [0] both give [null]. *)
Definition next_time_or_null (rest : list marker) : option Q :=
  match rest with
  | [] => None
  | m :: _ => if Qeq_bool (time m) 0 then None else Some (time m)
  end.

(** The [for] loop of [highlightCurrentBar]: it runs over the markers in
    order and leaves at the first marker that lies after [currentTime]. *)
Fixpoint scan_markers (currentTime : Q) (markers : list marker) (acc : scan)
  : scan :=
  match markers with
  | [] => acc
  | m :: rest =>
      if Qle_bool (time m) currentTime then
        scan_markers currentTime rest
          (Scan (bar m) (time m) (next_time_or_null rest))
      else acc
  end.

Definition find_bar (currentTime : Q) (markers : list marker) : scan :=
  scan_markers currentTime markers (Scan 0 0%Q None).

(** The progress within the bar, [0] unless a later end time is known. *)
Definition bar_progress (currentTime : Q) (sc : scan) : jsnum :=
  match nextBarTime sc with
  | Some next =>
      if gt (Num next) (Num (currentBarTime sc)) then
        let barDuration := sub (Num next) (Num (currentBarTime sc)) in
        let timeInBar := sub (Num currentTime) (Num (currentBarTime sc)) in
        clamp_progress timeInBar barDuration
      else Num 0
  | None => Num 0
  end.

(** The progress [highlightCurrentBar] computes at [currentTime]. *)
Definition progress_at (currentTime : Q) (markers : list marker) : jsnum :=
  bar_progress currentTime (find_bar currentTime markers).

(** [highlightCurrentBar(currentTime)] *)
Definition highlightCurrentBar (currentTime : Q) (s : state) : state :=
  let sc := find_bar currentTime (beatMarkers s) in
  let s1 :=
    if (0 <? currentBar sc) && negb (currentBar sc =? lastSyncedBar s)
    then scrollToBar (currentBar sc) (set_lastSyncedBar (currentBar sc) s)
    else s in
  if 0 <? currentBar sc then
    match barTickMap s1 !! currentBar sc with
    | None => s1
    | Some barTicks =>
        let tick := interpolate_tick barTicks (bar_progress currentTime sc) in
        if negb (truthy (lastTick s1))
           || gt (Math_abs (sub tick (lastTick s1))) (Num 100)
        then
          let s2 := set_lastTick tick s1 in
          if alphaTab s2 then set_tickPosition tick s2 else s2
        else s1
    end
  else s1.

(** The [input] handler of the speed slider; [value] is
    [parseInt(e.target.value)]. *)
Definition speedSliderInput (value : Z) (s : state) : state :=
  let s1 := set_playbackSpeed (inject_Z value / 100)%Q s in
  match wavesurfer s1 with
  | Some _ => set_wavesurfer (Some (playbackSpeed s1)) s1
  | None => s1
  end.

(** The operations of a recording session. *)
Inductive op : Type :=
| Tap (currentTime : Q)
| Undo
| Clear (confirmed : bool).

Definition step (s : state) (o : op) : state :=
  match o with
  | Tap currentTime => recordBeatMarker currentTime s
  | Undo => undoLastMarker s
  | Clear confirmed => clearAllMarkers confirmed s
  end.

Definition run (ops : list op) (s : state) : state := fold_left step ops s.

(** [n] taps in a row, at the times [times]. *)
Definition taps (times : list Q) (s : state) : state :=
  run (map Tap times) s.

(** The [seeking] handler [initWavesurfer()] installs; [currentTime] is
    what [this.wavesurfer.getCurrentTime()] returns after the seek. *)
Definition onSeeking (currentTime : Q) (s : state) : state :=
  highlightCurrentBar currentTime (set_lastSyncedBar 0 s).

(** [updateSyncStats()]: the width of the sync progress bar, in percent. *)
Definition syncPercent (s : state) : jsnum :=
  if 0 <? totalBars s
  then mul (div (of_Z (Z.of_nat (length (beatMarkers s)))) (of_Z (totalBars s)))
           (Num 100)
  else Num 0.

(** [checkForOpenProject()], as far as the markers go; [markers] is
    [project.markers], [None] when the project has none. *)
Definition openProject (markers : option (list marker)) (s : state) : state :=
  let s1 :=
    set_beatMarkers (match markers with Some ms => ms | None => [] end) s in
  set_currentBarToMark (Z.of_nat (length (beatMarkers s1)) + 1) s1.

(** [rewind()] and [forward()]: the fraction of the audio handed to
    [this.wavesurfer.seekTo], [None] when there is no waveform engine.
    [currentTime] and [duration] are what [getCurrentTime()] and
    [getDuration()] return. *)
Definition rewind (currentTime duration : Q) (s : state) : option jsnum :=
  match wavesurfer s with
  | None => None
  | Some _ =>
      let newTime := Math_max (Num 0) (sub (Num currentTime) (Num 5)) in
      Some (div newTime (Num duration))
  end.

Definition forward (currentTime duration : Q) (s : state) : option jsnum :=
  match wavesurfer s with
  | None => None
  | Some _ =>
      let newTime := Math_min (Num duration) (add (Num currentTime) (Num 5)) in
      Some (div newTime (Num duration))
  end.

(** The marker the timeline shows for bar [i]:
    [this.beatMarkers.find(m => m.bar === i)]. *)
Definition timelineMarker (i : Z) (s : state) : option marker :=
  List.find (fun m => bar m =? i) (beatMarkers s).

(** The [click] handler of the timeline entry of bar [i]: the fraction
    [marker.time / duration] it hands to [this.wavesurfer.seekTo], [None]
    when it does not seek, and the state after its [scrollToBar].
    [duration] is what [getDuration()] returns.  What the waveform engine
    makes of the fraction comes back through the [seeking] handler, with
    the time the engine reports then. *)
Definition timelineClick (i : Z) (duration : Q) (s : state)
  : option jsnum * state :=
  match timelineMarker i s with
  | None => (None, s)
  | Some marker =>
      match wavesurfer s with
      | None => (None, s)
      | Some _ =>
          (Some (div (Num (time marker)) (Num duration)),
           scrollToBar (bar marker) s)
      end
  end.

(** What can happen to the markers of an editor: the operations of a
    recording session, a sync file or a library project being loaded, and a
    score being loaded. *)
Inductive action : Type :=
| Record (o : op)
| LoadSync (markers : option (list marker))
| OpenProject (markers : option (list marker))
| ScoreLoaded (masterBars : nat).

Definition act (s : state) (a : action) : state :=
  match a with
  | Record o => step s o
  | LoadSync markers => applySyncData markers s
  | OpenProject markers => openProject markers s
  | ScoreLoaded masterBars => onScoreLoaded masterBars s
  end.

Definition act_all (actions : list action) (s : state) : state :=
  fold_left act actions s.

End Editor.

(** ** The project library ([sync-player.js], [window.TabLibrary] and
    class [TabLibrary])

    The object store [projects] of the database is a finite map from
    project ids to projects (its key path is [id]).  Identifiers and
    timestamps are strings; the fresh identifier and the current time a
    function reads are handed to it.  A failing database request is not
    modelled. *)
Module Library.

Record project : Type := Project {
  id : string;
  title : string;
  artist : string;
  gpFileName : option string;
  audioFileName : option string;
  gpFileData : option string;
  audioFileData : option string;
  markers : list marker;
  totalBars : Z;
  audioDuration : jsnum;
  createdAt : string;
  updatedAt : string
}.

(** The [projectData] object handed to [saveToLibrary]: [None] stands for
    a property that is missing or [null]. *)
Record projectData : Type := ProjectData {
  data_id : option string;
  data_title : option string;
  data_artist : option string;
  data_gpFileName : option string;
  data_audioFileName : option string;
  data_gpFileData : option string;
  data_audioFileData : option string;
  data_markers : option (list marker);
  data_totalBars : option Z;
  data_audioDuration : option jsnum;
  data_createdAt : option string
}.

(** [x || d] on strings: a missing and an empty string both give [d]. *)
Definition string_or (x : option string) (d : string) : string :=
  match x with
  | Some s => if String.eqb s EmptyString then d else s
  | None => d
  end.

(** [x || 0] on numbers. *)
Definition number_or_zero (x : option jsnum) : jsnum :=
  match x with
  | Some n => if truthy n then n else Num 0
  | None => Num 0
  end.

(** [window.TabLibrary.saveToLibrary(projectData)]: the new object store
    and the project the promise resolves to.  [freshId] is the identifier
    made from the clock and [Math.random()]; [createdNow] and [updatedNow]
    are the two readings of the clock. *)
Definition saveToLibrary (freshId createdNow updatedNow : string)
    (d : projectData) (db : gmap string project)
  : gmap string project * project :=
  let p :=
    {| id := string_or (data_id d) freshId;
       title := string_or (data_title d) "Untitled";
       artist := string_or (data_artist d) "Unknown Artist";
       gpFileName := data_gpFileName d;
       audioFileName := data_audioFileName d;
       gpFileData := data_gpFileData d;
       audioFileData := data_audioFileData d;
       markers := match data_markers d with Some ms => ms | None => [] end;
       totalBars := match data_totalBars d with Some n => n | None => 0 end;
       audioDuration := number_or_zero (data_audioDuration d);
       createdAt := string_or (data_createdAt d) createdNow;
       updatedAt := updatedNow |} in
  (<[id p := p]> db, p).

(** [window.TabLibrary.loadProject(id)] *)
Definition loadProject (projectId : string) (db : gmap string project)
  : option project :=
  db !! projectId.

(** The library page: the object store and the list the page shows. *)
Record state : Type := State {
  db : gmap string project;
  projects : list project
}.

Definition set_updatedAt (v : string) (p : project) : project :=
  Project (id p) (title p) (artist p) (gpFileName p) (audioFileName p)
    (gpFileData p) (audioFileData p) (markers p) (totalBars p)
    (audioDuration p) (createdAt p) v.

(** [saveProject(project)]: the new state and the project with its new
    timestamp, which is the object the caller handed in. *)
Definition saveProject (now : string) (p : project) (s : state)
  : state * project :=
  let p1 := set_updatedAt now p in
  (State (<[id p1 := p1]> (db s)) (projects s), p1).

(** [getProject(id)] *)
Definition getProject (projectId : string) (s : state) : option project :=
  db s !! projectId.

(** [deleteProject(id)] *)
Definition deleteProject (projectId : string) (s : state) : state :=
  State (delete projectId (db s))
    (List.filter (fun p => negb (String.eqb (id p) projectId)) (projects s)).

(** [duplicateProject(id)]; [freshId] is what [generateId()] returns,
    [createdNow], [updatedNow] and [savedNow] are the three readings of the
    clock. *)
Definition duplicateProject (freshId createdNow updatedNow savedNow : string)
    (projectId : string) (s : state) : state :=
  match getProject projectId s with
  | None => s
  | Some p =>
      let duplicate :=
        Project freshId (title p ++ " (Copy)") (artist p) (gpFileName p)
          (audioFileName p) (gpFileData p) (audioFileData p) (markers p)
          (totalBars p) (audioDuration p) createdNow updatedNow in
      let '(s1, saved) := saveProject savedNow duplicate s in
      State (db s1) (projects s1 ++ [saved])
  end.

(** [updateStats()]: the number of projects shown. *)
Definition totalProjects (s : state) : nat := length (projects s).

End Library.

(** ** The editor and the library ([editor.js], the methods of
    [SyncEditor] that save to and open from the library)

    A session is the editor together with the fields the saving methods
    keep.  [files] holds what a save reads from the page and from the
    loaded files: title and artist after their defaults, the file names
    after theirs, and the two files in base64 after the conversions the
    method awaits ([None] when there is nothing to convert). *)
Module EditorLibrary.

Record session : Type := Session {
  core : Editor.state;
  projectId : option string;
  projectSaved : bool;
  isSaving : bool
}.

(** The fields as the constructor leaves them. *)
Definition new_session : session :=
  Session Editor.new_SyncEditor None false false.

Record files : Type := Files {
  title : string;
  artist : string;
  gpFileName : string;
  audioFileName : string;
  gpBase64 : option string;
  audioBase64 : option string;
  audioDuration : Q
}.

(** The [projectData] literal of [saveToLibrary()] and [autoSave()]; it
    has no [createdAt]. *)
Definition projectData_of (f : files) (s : session) : Library.projectData :=
  {| Library.data_id := projectId s;
     Library.data_title := Some (title f);
     Library.data_artist := Some (artist f);
     Library.data_gpFileName := Some (gpFileName f);
     Library.data_audioFileName := Some (audioFileName f);
     Library.data_gpFileData := gpBase64 f;
     Library.data_audioFileData := audioBase64 f;
     Library.data_markers := Some (Editor.beatMarkers (core s));
     Library.data_totalBars := Some (Editor.totalBars (core s));
     Library.data_audioDuration := Some (Num (audioDuration f));
     Library.data_createdAt := None |}.

(** Truthiness of a string that may be missing. *)
Definition has_data (x : option string) : bool :=
  match x with
  | Some d => negb (String.eqb d EmptyString)
  | None => false
  end.

(** [saveToLibrary()] of the editor. *)
Definition saveToLibrary (freshId createdNow updatedNow : string) (f : files)
    (db : gmap string Library.project) (s : session)
  : gmap string Library.project * session :=
  if negb (Editor.score (core s))
     || negb (bool_decide (is_Some (Editor.wavesurfer (core s))))
  then (db, s)
  else if (length (Editor.beatMarkers (core s)) =? 0)%nat then (db, s)
  else
    let core1 :=
      if Editor.autoSaveTimeout (core s)
      then Editor.set_autoSaveTimeout false (core s)
      else core s in
    let s1 := Session core1 (projectId s) (projectSaved s) true in
    let '(db1, saved) :=
      Library.saveToLibrary freshId createdNow updatedNow
        (projectData_of f s1) db in
    (db1, Session core1 (Some (Library.id saved)) true false).

(** [autoSave()] *)
Definition autoSave (freshId createdNow updatedNow : string) (f : files)
    (db : gmap string Library.project) (s : session)
  : gmap string Library.project * session :=
  if isSaving s
     || negb (Editor.score (core s))
     || negb (bool_decide (is_Some (Editor.wavesurfer (core s))))
     || (length (Editor.beatMarkers (core s)) =? 0)%nat
  then (db, s)
  else if negb (has_data (gpBase64 f)) || negb (has_data (audioBase64 f))
  then (db, Session (core s) (projectId s) (projectSaved s) false)
  else
    let '(db1, saved) :=
      Library.saveToLibrary freshId createdNow updatedNow
        (projectData_of f s) db in
    (db1, Session (core s) (Some (Library.id saved)) true false).

(** [checkForOpenProject()]; [urlProject] is the [project] parameter of
    the page's address.  The score and the audio arrive later, through
    their own handlers. *)
Definition checkForOpenProject (urlProject : option string)
    (db : gmap string Library.project) (s : session) : session :=
  if negb (has_data urlProject) then s
  else
    match Library.loadProject (default EmptyString urlProject) db with
    | None => s
    | Some project =>
        let core1 :=
          Editor.openProject (Some (Library.markers project)) (core s) in
        let core2 :=
          if has_data (Library.gpFileData project)
             && negb (Editor.alphaTab core1)
          then Editor.initAlphaTab core1
          else core1 in
        let core3 :=
          if has_data (Library.audioFileData project)
          then match Editor.wavesurfer core2 with
               | Some _ => core2
               | None => Editor.set_wavesurfer (Some 1%Q) core2
               end
          else core2 in
        Session core3 (Some (Library.id project)) (projectSaved s) (isSaving s)
    end.

End EditorLibrary.

(** ** The synced player ([sync-player.js], class [SyncedPlayer])

    [syncData] is [None] while [this.syncData] or its [markers] is missing.
    [audioSource] is [None] for [null], otherwise it carries
    [audioSource.playbackRate.value].  [currentBarText] is the text of the
    bar indicator, [tickPosition] the renderer cursor.  The clock of the
    audio context, [this.audioContext.currentTime], is an input ([now]) of
    every operation that reads it. *)
Module Player.

Record state : Type := State {
  syncData : option (list marker);
  audioBuffer : bool;
  audioSource : option Q;
  isPlaying : bool;
  isLooping : bool;
  currentTime : jsnum;
  duration : Q;
  playbackRate : Q;
  startedAt : jsnum;
  pausedAt : jsnum;
  animationFrame : bool;
  currentBar : Z;
  barTickMap : gmap Z tick_range;
  notationOffset : Q;
  currentBarText : Z;
  tickPosition : jsnum
}.

(** The fields as the constructor leaves them. *)
Definition new_SyncedPlayer : state :=
  {| syncData := None; audioBuffer := false; audioSource := None;
     isPlaying := false; isLooping := false; currentTime := Num 0;
     duration := 0%Q; playbackRate := 1%Q; startedAt := Num 0;
     pausedAt := Num 0; animationFrame := false; currentBar := 0;
     barTickMap := ∅; notationOffset := (- (15 # 100))%Q;
     currentBarText := 0; tickPosition := Num 0 |}.

Definition set_syncData (v : option (list marker)) (s : state) : state :=
  State v (audioBuffer s) (audioSource s) (isPlaying s) (isLooping s)
    (currentTime s) (duration s) (playbackRate s) (startedAt s) (pausedAt s)
    (animationFrame s) (currentBar s) (barTickMap s) (notationOffset s)
    (currentBarText s) (tickPosition s).

Definition set_audioBuffer (v : bool) (s : state) : state :=
  State (syncData s) v (audioSource s) (isPlaying s) (isLooping s)
    (currentTime s) (duration s) (playbackRate s) (startedAt s) (pausedAt s)
    (animationFrame s) (currentBar s) (barTickMap s) (notationOffset s)
    (currentBarText s) (tickPosition s).

Definition set_duration (v : Q) (s : state) : state :=
  State (syncData s) (audioBuffer s) (audioSource s) (isPlaying s)
    (isLooping s) (currentTime s) v (playbackRate s) (startedAt s) (pausedAt s)
    (animationFrame s) (currentBar s) (barTickMap s) (notationOffset s)
    (currentBarText s) (tickPosition s).

Definition set_audioSource (v : option Q) (s : state) : state :=
  State (syncData s) (audioBuffer s) v (isPlaying s) (isLooping s)
    (currentTime s) (duration s) (playbackRate s) (startedAt s) (pausedAt s)
    (animationFrame s) (currentBar s) (barTickMap s) (notationOffset s)
    (currentBarText s) (tickPosition s).

Definition set_isPlaying (v : bool) (s : state) : state :=
  State (syncData s) (audioBuffer s) (audioSource s) v (isLooping s)
    (currentTime s) (duration s) (playbackRate s) (startedAt s) (pausedAt s)
    (animationFrame s) (currentBar s) (barTickMap s) (notationOffset s)
    (currentBarText s) (tickPosition s).

Definition set_isLooping (v : bool) (s : state) : state :=
  State (syncData s) (audioBuffer s) (audioSource s) (isPlaying s) v
    (currentTime s) (duration s) (playbackRate s) (startedAt s) (pausedAt s)
    (animationFrame s) (currentBar s) (barTickMap s) (notationOffset s)
    (currentBarText s) (tickPosition s).

Definition set_currentTime (v : jsnum) (s : state) : state :=
  State (syncData s) (audioBuffer s) (audioSource s) (isPlaying s)
    (isLooping s) v (duration s) (playbackRate s) (startedAt s) (pausedAt s)
    (animationFrame s) (currentBar s) (barTickMap s) (notationOffset s)
    (currentBarText s) (tickPosition s).

Definition set_playbackRate (v : Q) (s : state) : state :=
  State (syncData s) (audioBuffer s) (audioSource s) (isPlaying s)
    (isLooping s) (currentTime s) (duration s) v (startedAt s) (pausedAt s)
    (animationFrame s) (currentBar s) (barTickMap s) (notationOffset s)
    (currentBarText s) (tickPosition s).

Definition set_startedAt (v : jsnum) (s : state) : state :=
  State (syncData s) (audioBuffer s) (audioSource s) (isPlaying s)
    (isLooping s) (currentTime s) (duration s) (playbackRate s) v (pausedAt s)
    (animationFrame s) (currentBar s) (barTickMap s) (notationOffset s)
    (currentBarText s) (tickPosition s).

Definition set_pausedAt (v : jsnum) (s : state) : state :=
  State (syncData s) (audioBuffer s) (audioSource s) (isPlaying s)
    (isLooping s) (currentTime s) (duration s) (playbackRate s) (startedAt s)
    v (animationFrame s) (currentBar s) (barTickMap s) (notationOffset s)
    (currentBarText s) (tickPosition s).

Definition set_animationFrame (v : bool) (s : state) : state :=
  State (syncData s) (audioBuffer s) (audioSource s) (isPlaying s)
    (isLooping s) (currentTime s) (duration s) (playbackRate s) (startedAt s)
    (pausedAt s) v (currentBar s) (barTickMap s) (notationOffset s)
    (currentBarText s) (tickPosition s).

Definition set_currentBar (v : Z) (s : state) : state :=
  State (syncData s) (audioBuffer s) (audioSource s) (isPlaying s)
    (isLooping s) (currentTime s) (duration s) (playbackRate s) (startedAt s)
    (pausedAt s) (animationFrame s) v (barTickMap s) (notationOffset s)
    (currentBarText s) (tickPosition s).

Definition set_currentBarText (v : Z) (s : state) : state :=
  State (syncData s) (audioBuffer s) (audioSource s) (isPlaying s)
    (isLooping s) (currentTime s) (duration s) (playbackRate s) (startedAt s)
    (pausedAt s) (animationFrame s) (currentBar s) (barTickMap s)
    (notationOffset s) v (tickPosition s).

Definition set_tickPosition (v : jsnum) (s : state) : state :=
  State (syncData s) (audioBuffer s) (audioSource s) (isPlaying s)
    (isLooping s) (currentTime s) (duration s) (playbackRate s) (startedAt s)
    (pausedAt s) (animationFrame s) (currentBar s) (barTickMap s)
    (notationOffset s) (currentBarText s) v.

(** [buildBarTickMap()] from the renderer's [tickCache.masterBars]. *)
Definition buildBarTickMap (masterBars : list tick_range) (s : state) : state :=
  State (syncData s) (audioBuffer s) (audioSource s) (isPlaying s)
    (isLooping s) (currentTime s) (duration s) (playbackRate s) (startedAt s)
    (pausedAt s) (animationFrame s) (currentBar s)
    (tick_map_from 0 masterBars) (notationOffset s) (currentBarText s)
    (tickPosition s).

(** The [onload] handler of [loadSyncFile(file)]; [markers] is the
    [markers] array of the parsed file, [None] when it has none. *)
Definition loadSyncFile (markers : option (list marker)) (s : state) : state :=
  set_syncData markers s.

(** The success callback of [decodeAudioData] in [startPlayback()];
    [duration] is [buffer.duration]. *)
Definition onAudioDecoded (duration : Q) (s : state) : state :=
  set_duration duration (set_audioBuffer true s).

(** The three locals of the marker scan in [updateCursor]. *)
Record scan : Type := Scan {
  currentBarIndex : nat;
  currentBarTime : Q;
  nextBarTime : Q
}.

(** The [for] loop of [updateCursor] from index [i] on, [markers] being
    the markers from [i] to the end: it leaves at the first marker that
    lies after [adjustedTime]. *)
Fixpoint scan_markers (adjustedTime : jsnum) (duration : Q) (i : nat)
    (markers : list marker) (acc : scan) : scan :=
  match markers with
  | [] => acc
  | m :: rest =>
      if ge adjustedTime (Num (time m)) then
        scan_markers adjustedTime duration (S i) rest
          (Scan i (time m)
             match rest with
             | next :: _ => time next
             | [] => duration
             end)
      else acc
  end.

Definition find_bar (adjustedTime : jsnum) (duration : Q)
    (markers : list marker) : scan :=
  scan_markers adjustedTime duration 0 markers (Scan 0 0%Q duration).

(** [barDuration > 0 ? Math.min(1, Math.max(0, timeInBar / barDuration)) : 0] *)
Definition bar_progress (adjustedTime : jsnum) (sc : scan) : jsnum :=
  let barDuration := sub (Num (nextBarTime sc)) (Num (currentBarTime sc)) in
  let timeInBar := sub adjustedTime (Num (currentBarTime sc)) in
  if gt barDuration (Num 0) then clamp_progress timeInBar barDuration
  else Num 0.

(** The progress [updateCursor] computes at [adjustedTime]. *)
Definition progress_at (adjustedTime : jsnum) (duration : Q)
    (markers : list marker) : jsnum :=
  bar_progress adjustedTime (find_bar adjustedTime duration markers).

(** [updateCursor()] *)
Definition updateCursor (s : state) : state :=
  match syncData s with
  | None => s
  | Some markers =>
      let adjustedTime := add (currentTime s) (Num (notationOffset s)) in
      let sc := find_bar adjustedTime (duration s) markers in
      match nth_error markers (currentBarIndex sc) with
      | None => s
      | Some currentMarker =>
          let barNumber := bar currentMarker in
          let s1 :=
            if negb (barNumber =? currentBar s)
            then set_currentBarText barNumber (set_currentBar barNumber s)
            else s in
          if bool_decide (barTickMap s1 = ∅) then s1
          else match barTickMap s1 !! barNumber with
               | None => s1
               | Some barTicks =>
                   let barProgress := bar_progress adjustedTime sc in
                   set_tickPosition (interpolate_tick barTicks barProgress) s1
               end
      end
  end.

(** [play()] *)
Definition play (now : Q) (s : state) : state :=
  if negb (audioBuffer s) then s
  else
    let s1 := set_audioSource (Some (playbackRate s)) s in
    let offset := pausedAt s1 in
    let s2 :=
      set_startedAt (sub (Num now) (div offset (Num (playbackRate s1)))) s1 in
    let s3 := set_isPlaying true s2 in
    set_animationFrame true s3.

(** [pause()] *)
Definition pause (now : Q) (s : state) : state :=
  if negb (isPlaying s) then s
  else
    let s1 :=
      set_pausedAt
        (mul (sub (Num now) (startedAt s)) (Num (playbackRate s))) s in
    let s2 :=
      match audioSource s1 with
      | Some _ => set_audioSource None s1
      | None => s1
      end in
    let s3 := set_isPlaying false s2 in
    set_animationFrame false s3.

(** [stop()] *)
Definition stop (now : Q) (s : state) : state :=
  let s1 := pause now s in
  let s2 := set_pausedAt (Num 0) s1 in
  let s3 := set_currentTime (Num 0) s2 in
  let s4 := set_currentBar 0 s3 in
  let s5 := updateCursor s4 in
  set_currentBarText 1 s5.

(** [seekTo(time)] *)
Definition seekTo (now : Q) (time : jsnum) (s : state) : state :=
  let wasPlaying := isPlaying s in
  let s1 := if wasPlaying then pause now s else s in
  let s2 :=
    set_pausedAt (Math_max (Num 0) (Math_min time (Num (duration s1)))) s1 in
  let s3 := set_currentTime (pausedAt s2) s2 in
  let s4 := updateCursor s3 in
  if wasPlaying then play now s4 else s4.

(** [toggleLoop()] *)
Definition toggleLoop (s : state) : state :=
  set_isLooping (negb (isLooping s)) s.

(** The [onended] handler [play()] installs on the audio source. *)
Definition onended (now : Q) (s : state) : state :=
  if isPlaying s then
    if isLooping s then play now (seekTo now (Num 0) s)
    else stop now s
  else s.

(** One run of the [update] callback of [startUpdateLoop()]. *)
Definition update (now : Q) (s : state) : state :=
  if negb (isPlaying s) then s
  else
    let s1 :=
      set_currentTime
        (mul (sub (Num now) (startedAt s)) (Num (playbackRate s))) s in
    let s2 :=
      if ge (currentTime s1) (Num (duration s1))
      then set_currentTime (Num (duration s1)) s1
      else s1 in
    let s3 := updateCursor s2 in
    set_animationFrame true s3.

(** The position the audio plays at when the context clock shows
    [now], as [update] and [pause] compute it. *)
Definition playbackPosition (now : Q) (s : state) : jsnum :=
  mul (sub (Num now) (startedAt s)) (Num (playbackRate s)).

(** The [input] handler of the tempo slider; [value] is
    [parseInt(e.target.value)]. *)
Definition tempoSliderInput (value : Z) (s : state) : state :=
  let s1 := set_playbackRate (inject_Z value / 100)%Q s in
  match audioSource s1 with
  | Some _ => set_audioSource (Some (playbackRate s1)) s1
  | None => s1
  end.

(** [togglePlayPause()] *)
Definition togglePlayPause (now : Q) (s : state) : state :=
  if isPlaying s then pause now s else play now s.

(** [previousBar()]: the markers are searched from the last one down for
    one that lies more than a tenth of a second before the time shown; the
    target is time [0] when there is none. *)
Definition previousBar (now : Q) (s : state) : state :=
  match syncData s with
  | None => s
  | Some markers =>
      let targetTime :=
        match
          List.find
            (fun m => lt (Num (time m)) (sub (currentTime s) (Num (1 # 10))))
            (rev markers)
        with
        | Some m => time m
        | None => 0%Q
        end in
      seekTo now (Num targetTime) s
  end.

(** [nextBar()]: seeks to the first marker, in list order, that lies more
    than a tenth of a second after the time shown, if there is one. *)
Definition nextBar (now : Q) (s : state) : state :=
  match syncData s with
  | None => s
  | Some markers =>
      match
        List.find
          (fun m => gt (Num (time m)) (add (currentTime s) (Num (1 # 10))))
          markers
      with
      | Some marker => seekTo now (Num (time marker)) s
      | None => s
      end
  end.

(** [checkForLibraryProject()], as far as the sync data goes;
    [urlProject] is the [project] parameter of the page's address. *)
Definition checkForLibraryProject (urlProject : option string)
    (db : gmap string Library.project) (s : state) : state :=
  if negb (EditorLibrary.has_data urlProject) then s
  else
    match Library.loadProject (default EmptyString urlProject) db with
    | None => s
    | Some project => set_syncData (Some (Library.markers project)) s
    end.

(** [updateProgress()]: the width of the progress fill and the place of
    the progress cursor, in percent. *)
Definition progressPercent (s : state) : jsnum :=
  if gt (Num (duration s)) (Num 0)
  then mul (div (currentTime s) (Num (duration s))) (Num 100)
  else Num 0.

(** The [click] handler of the progress bar; [percent] is
    [(e.clientX - rect.left) / rect.width]. *)
Definition progressBarClick (now : Q) (percent : jsnum) (s : state) : state :=
  if Qeq_bool (duration s) 0 then s
  else seekTo now (mul percent (Num (duration s))) s.

(** What can happen to a loaded player: the buttons and keys of the
    transport, a click on the progress bar, the tempo slider, a frame of
    the update loop and the end of the audio source, each at the context
    time it happens at. *)
Inductive event : Type :=
| TogglePlayPause (now : Q)
| Stop (now : Q)
| Seek (now : Q) (time : Q)
| ProgressClick (now : Q) (percent : Q)
| PreviousBar (now : Q)
| NextBar (now : Q)
| ToggleLoop
| Tempo (value : Z)
| Frame (now : Q)
| Ended (now : Q).

Definition handle (s : state) (e : event) : state :=
  match e with
  | TogglePlayPause now => togglePlayPause now s
  | Stop now => stop now s
  | Seek now time => seekTo now (Num time) s
  | ProgressClick now percent => progressBarClick now (Num percent) s
  | PreviousBar now => previousBar now s
  | NextBar now => nextBar now s
  | ToggleLoop => toggleLoop s
  | Tempo value => tempoSliderInput value s
  | Frame now => update now s
  | Ended now => onended now s
  end.

Definition handle_all (events : list event) (s : state) : state :=
  fold_left handle events s.

(** The calls a transport operation makes on the audio graph:
    [createBufferSource()] with [start(0, offset)] on the new source, which
    plays at [rate]; and [stop()] on the source the field [audioSource]
    holds. *)
Inductive audio_call : Type :=
| StartSource (offset : jsnum) (rate : Q)
| StopSource.

(** [play()], with the calls it makes. *)
Definition play_traced (now : Q) (s : state) : list audio_call * state :=
  (if negb (audioBuffer s) then []
   else [StartSource (pausedAt s) (playbackRate s)],
   play now s).

(** [pause()], with the calls it makes. *)
Definition pause_traced (now : Q) (s : state) : list audio_call * state :=
  (if negb (isPlaying s) then []
   else match audioSource s with
        | Some _ => [StopSource]
        | None => []
        end,
   pause now s).

(** [stop()], with the calls it makes: those of its [pause()]. *)
Definition stop_traced (now : Q) (s : state) : list audio_call * state :=
  (fst (pause_traced now s), stop now s).

(** [seekTo(time)], with the calls it makes. *)
Definition seekTo_traced (now : Q) (time : jsnum) (s : state)
  : list audio_call * state :=
  let wasPlaying := isPlaying s in
  let paused := if wasPlaying then pause_traced now s else ([], s) in
  let s1 := snd paused in
  let s2 :=
    set_pausedAt (Math_max (Num 0) (Math_min time (Num (duration s1)))) s1 in
  let s3 := set_currentTime (pausedAt s2) s2 in
  let s4 := updateCursor s3 in
  let resumed := if wasPlaying then play_traced now s4 else ([], s4) in
  (fst paused ++ fst resumed, snd resumed).

(** The [onended] handler, with the calls it makes. *)
Definition onended_traced (now : Q) (s : state) : list audio_call * state :=
  if isPlaying s then
    if isLooping s then
      let sought := seekTo_traced now (Num 0) s in
      let played := play_traced now (snd sought) in
      (fst sought ++ fst played, snd played)
    else stop_traced now s
  else ([], s).

End Player.

(** ** The exported page ([editor.js], the script
    [buildStandalonePlayerHTML] writes into the standalone player)

    The page keeps its state in the script's variables.  [markers] is
    [syncData.markers], the markers of the editor at the time of the
    export; [barTickMap] is an array with the range of bar [i + 1] at
    index [i]; [source] tells whether a buffer source has been created;
    [progressFill] is the width of the progress fill in percent and
    [tickPosition] the cursor of the notation renderer. *)
Module Standalone.

Record state : Type := State {
  markers : list marker;
  barTickMap : list tick_range;
  source : bool;
  isPlaying : bool;
  startedAt : jsnum;
  pausedAt : jsnum;
  duration : Q;
  progressFill : jsnum;
  tickPosition : jsnum
}.

(** The variables as the script declares them, for a page exported with
    [markers]. *)
Definition new_page (markers : list marker) : state :=
  {| markers := markers; barTickMap := []; source := false;
     isPlaying := false; startedAt := Num 0; pausedAt := Num 0;
     duration := 0; progressFill := Num 0; tickPosition := Num 0 |}.

Definition set_barTickMap (v : list tick_range) (s : state) : state :=
  State (markers s) v (source s) (isPlaying s) (startedAt s) (pausedAt s)
    (duration s) (progressFill s) (tickPosition s).

Definition set_source (v : bool) (s : state) : state :=
  State (markers s) (barTickMap s) v (isPlaying s) (startedAt s) (pausedAt s)
    (duration s) (progressFill s) (tickPosition s).

Definition set_isPlaying (v : bool) (s : state) : state :=
  State (markers s) (barTickMap s) (source s) v (startedAt s) (pausedAt s)
    (duration s) (progressFill s) (tickPosition s).

Definition set_startedAt (v : jsnum) (s : state) : state :=
  State (markers s) (barTickMap s) (source s) (isPlaying s) v (pausedAt s)
    (duration s) (progressFill s) (tickPosition s).

Definition set_pausedAt (v : jsnum) (s : state) : state :=
  State (markers s) (barTickMap s) (source s) (isPlaying s) (startedAt s) v
    (duration s) (progressFill s) (tickPosition s).

Definition set_duration (v : Q) (s : state) : state :=
  State (markers s) (barTickMap s) (source s) (isPlaying s) (startedAt s)
    (pausedAt s) v (progressFill s) (tickPosition s).

Definition set_progressFill (v : jsnum) (s : state) : state :=
  State (markers s) (barTickMap s) (source s) (isPlaying s) (startedAt s)
    (pausedAt s) (duration s) v (tickPosition s).

Definition set_tickPosition (v : jsnum) (s : state) : state :=
  State (markers s) (barTickMap s) (source s) (isPlaying s) (startedAt s)
    (pausedAt s) (duration s) (progressFill s) v.

(** The [renderFinished] handler of [init()]. *)
Definition onRenderFinished (masterBars : list tick_range) (s : state) : state :=
  set_barTickMap (map (fun b => TickRange (start b) (end_ b)) masterBars) s.

(** [init()] once the audio is decoded; [duration] is
    [audioBuffer.duration]. *)
Definition onAudioDecoded (duration : Q) (s : state) : state :=
  set_duration duration s.

(** The [for] loop of [updateCursor(time)]: it runs over all the markers
    and keeps the bar of the last one that [time] has reached. *)
Fixpoint scan_bars (time : jsnum) (markers : list marker) (bar : Z) : Z :=
  match markers with
  | [] => bar
  | Marker markerBar markerTime :: rest =>
      scan_bars time rest (if ge time (Num markerTime) then markerBar else bar)
  end.

(** [updateCursor(time)] *)
Definition updateCursor (time : jsnum) (s : state) : state :=
  let bar := scan_bars time (markers s) 0 in
  if 0 <? bar then
    match nth_error (barTickMap s) (Z.to_nat (bar - 1)) with
    | Some barTicks => set_tickPosition (of_Z (start barTicks)) s
    | None => s
    end
  else s.

(** [pause()]; the stopped source stays in its variable. *)
Definition pause (now : Q) (s : state) : state :=
  let s1 := set_pausedAt (sub (Num now) (startedAt s)) s in
  set_isPlaying false s1.

(** [update()], one frame at context time [now]. *)
Definition update (now : Q) (s : state) : state :=
  if negb (isPlaying s) then s
  else
    let currentTime := sub (Num now) (startedAt s) in
    if ge currentTime (Num (duration s))
    then set_pausedAt (Num 0) (pause now s)
    else
      let s1 :=
        set_progressFill
          (mul (div currentTime (Num (duration s))) (Num 100)) s in
      updateCursor currentTime s1.

(** [play()]; it ends with a first call of [update()]. *)
Definition play (now : Q) (s : state) : state :=
  let s1 := set_source true s in
  let s2 := set_startedAt (sub (Num now) (pausedAt s1)) s1 in
  let s3 := set_isPlaying true s2 in
  update now s3.

(** [togglePlay()] *)
Definition togglePlay (now : Q) (s : state) : state :=
  if isPlaying s then pause now s else play now s.

(** [seekTo(time)] *)
Definition seekTo (now : Q) (time : jsnum) (s : state) : state :=
  let wasPlaying := isPlaying s in
  let s1 := if isPlaying s then set_isPlaying false s else s in
  let s2 := set_pausedAt time s1 in
  let s3 := if wasPlaying then play now s2 else s2 in
  updateCursor time s3.

(** The [onclick] handler of the progress bar; [fraction] is
    [(e.clientX - rect.left) / rect.width]. *)
Definition progressBarClick (now : Q) (fraction : jsnum) (s : state) : state :=
  seekTo now (mul fraction (Num (duration s))) s.

End Standalone.

(** ** Text ([editor.js] and [sync-player.js], the string expressions of
    the export)

    A string is the sequence of its code units; the ones modelled are
    those below 256. *)
Module Text.

(** The double quote. *)
Definition quote : ascii := "034"%char.

(** [str.replace(/c/g, replacement)] for a single character [c]. *)
Fixpoint replace_all (c : ascii) (replacement : string) (str : string)
  : string :=
  match str with
  | EmptyString => EmptyString
  | String x rest =>
      if Ascii.eqb x c
      then (replacement ++ replace_all c replacement rest)%string
      else String x (replace_all c replacement rest)
  end.

(** [escapeHtml(str)] of the editor; [None] is a missing string. *)
Definition escapeHtml (str : option string) : string :=
  match str with
  | None => EmptyString
  | Some s =>
      replace_all quote "&quot;"
        (replace_all ">" "&gt;"
           (replace_all "<" "&lt;" (replace_all "&" "&amp;" s)))
  end.

(** The character class [[a-z0-9]] under the flag [i]. *)
Definition is_alphanumeric (c : ascii) : bool :=
  let n := nat_of_ascii c in
  ((48 <=? n) && (n <=? 57) || (65 <=? n) && (n <=? 90)
   || (97 <=? n) && (n <=? 122))%nat.

(** [title.replace(/[^a-z0-9]/gi, '_')], the stem of the file names
    [generateStandalonePlayer()] and [exportProject(id)] download under. *)
Fixpoint fileStem (title : string) : string :=
  match title with
  | EmptyString => EmptyString
  | String x rest =>
      String (if is_alphanumeric x then x else "_"%char) (fileStem rest)
  end.

End Text.

(** ** Binary data ([editor.js], [arrayBufferToBase64] and
    [base64ToArrayBuffer])

    A byte and the character with its code are the same 8-bit value.
    [btoa] and [atob] are the browser's. *)
Module Binary.

Section Platform.

Variables btoa atob : string -> string.

(** [chunkSize] *)
Definition chunkSize : nat := Z.to_nat 8192.

(** [bytes.subarray(from, to)] *)
Definition subarray (bytes : list ascii) (from to : nat) : list ascii :=
  firstn (to - from) (skipn from bytes).

(** The [for] loop of [arrayBufferToBase64] from the index [i] on;
    [fuel] bounds the number of rounds. *)
Fixpoint chunk_loop (fuel i : nat) (bytes : list ascii) (binary : string)
  : string :=
  match fuel with
  | O => binary
  | S fuel' =>
      if (i <? length bytes)%nat then
        let chunk :=
          subarray bytes i (Nat.min (i + chunkSize) (length bytes)) in
        chunk_loop fuel' (i + chunkSize) bytes
          (binary ++ String.string_of_list_ascii chunk)%string
      else binary
  end.

(** [arrayBufferToBase64(buffer)]; the loop advances by at least one byte
    a round, so as many rounds as there are bytes are enough. *)
Definition arrayBufferToBase64 (bytes : list ascii) : string :=
  btoa (chunk_loop (length bytes) 0 bytes EmptyString).

(** [base64ToArrayBuffer(base64)] *)
Definition base64ToArrayBuffer (base64 : string) : list ascii :=
  String.list_ascii_of_string (atob base64).

End Platform.

End Binary.

(** ** Times as text ([formatTime] and [formatTimeShort] of the editor,
    [formatTime] of the player, [formatDuration] of the library) *)
Module Format.

(** The integer part of a finite number, towards zero. *)
Definition truncate (q : Q) : Z :=
  if Qle_bool 0 q then Qfloor q else Qceiling q.

(** [x % y] on finite numbers, [y] not 0: what is left of [x] after the
    whole multiples of [y], with the sign of [x]. *)
Definition remainder (x y : Q) : Q :=
  x - y * inject_Z (truncate (x / y)).

(** [n.toString()] for an integer [n]. *)
Definition toString (n : Z) : string := pretty n.

(** [s.padStart(targetLength, '0')] *)
Definition padStart (targetLength : nat) (s : string) : string :=
  (String.concat EmptyString
     (repeat "0"%string (targetLength - String.length s)) ++ s)%string.

(** [formatTimeShort(seconds)] of the editor, the player's
    [formatTime(seconds)] and the library's [formatDuration(seconds)]. *)
Definition formatTimeShort (seconds : Q) : string :=
  let mins := Qfloor (seconds / 60) in
  let secs := Qfloor (remainder seconds 60) in
  (toString mins ++ ":" ++ padStart 2 (toString secs))%string.

(** [formatTime(seconds)] of the editor. *)
Definition formatTime (seconds : Q) : string :=
  let mins := Qfloor (seconds / 60) in
  let secs := Qfloor (remainder seconds 60) in
  let ms := Qfloor (remainder seconds 1 * 1000) in
  (toString mins ++ ":" ++ padStart 2 (toString secs) ++ "."
   ++ padStart 3 (toString ms))%string.

End Format.


(** ** Notions the properties are stated with *)

(** The value of [clamp_progress] on a finite quotient [x]. *)
Definition clamp01 (x : Q) : Q :=
  let m := if Qle_bool 0 x then x else 0%Q in
  if Qle_bool 1 m then 1%Q else m.

(** Marker times never go down along the list (insertion order). *)
Fixpoint times_nondecreasing (markers : list marker) : Prop :=
  match markers with
  | [] => True
  | m :: rest =>
      match rest with
      | [] => True
      | next :: _ => (time m <= time next)%Q
      end /\ times_nondecreasing rest
  end.

(** Bar numbers go strictly up along the list. *)
Fixpoint bars_increasing (markers : list marker) : Prop :=
  match markers with
  | [] => True
  | m :: rest =>
      match rest with
      | [] => True
      | next :: _ => bar m < bar next
      end /\ bars_increasing rest
  end.

(** The value [Math.max(0, Math.min(time, duration))] of [seekTo] on finite
    arguments. *)
Definition clamp_seek (time duration : Q) : Q :=
  let m := if Qle_bool time duration then time else duration in
  if Qle_bool 0 m then m else 0%Q.

(** The symbolic position the player shows: the current bar, the text of
    the bar indicator and the renderer cursor. *)
Definition cursor_of (s : Player.state) : Z * Z * jsnum :=
  (Player.currentBar s, Player.currentBarText s, Player.tickPosition s).

(** The markers are numbered 1, 2, ... in insertion order and the next bar
    to mark is the one after the last. *)
Definition numbered_from_one (s : Editor.state) : Prop :=
  map bar (Editor.beatMarkers s) =
    map Z.of_nat (seq 1 (length (Editor.beatMarkers s))) /\
  Editor.currentBarToMark s = Z.of_nat (length (Editor.beatMarkers s)) + 1.

(** A score of four bars of 3840 ticks each, as the renderer lays it out. *)
Definition four_bar_ticks : list tick_range :=
  [TickRange 0 3840; TickRange 3840 7680; TickRange 7680 11520;
   TickRange 11520 15360].

(** The markers of the four-bar scenario: taps at 0.0, 2.0, 4.1 and 6.0. *)
Definition four_bars : list marker :=
  [Marker 1 0; Marker 2 2; Marker 3 (41 # 10); Marker 4 6].

(** A song whose first bar starts five seconds into the recording. *)
Definition late_start : list marker := [Marker 1 5; Marker 2 7].

(** A player that has loaded [markers], a four-bar score and [duration]
    seconds of audio, with the time shown at [currentTime]. *)
Definition loaded_player (markers : list marker) (duration currentTime : Q)
  : Player.state :=
  Player.set_currentTime (Num currentTime)
    (Player.buildBarTickMap four_bar_ticks
       (Player.onAudioDecoded duration
          (Player.loadSyncFile (Some markers) Player.new_SyncedPlayer))).

(** The same player while it plays, started at context time [startedAt]. *)
Definition playing_player (markers : list marker) (duration startedAt : Q)
  : Player.state :=
  Player.play startedAt (loaded_player markers duration 0).

(** An editor that has loaded [markers], audio and a four-bar score. *)
Definition loaded_editor (markers : list marker) : Editor.state :=
  Editor.buildBarTickMap four_bar_ticks
    (Editor.onScoreLoaded 4
       (Editor.initAlphaTab
          (Editor.applySyncData (Some markers) Editor.new_SyncEditor))).

(** The player states the transport properties are about: the audio has a
    length, the tempo is positive, the notation runs behind the audio, and
    nothing plays without a decoded buffer.  The constructor establishes
    this and every transport operation keeps it; the tempo slider keeps it
    as long as its value is positive. *)
Definition transport_ok (s : Player.state) : Prop :=
  (0 <= Player.duration s)%Q /\
  (0 < Player.playbackRate s)%Q /\
  (Player.notationOffset s < 0)%Q /\
  (Player.isPlaying s = true -> Player.audioBuffer s = true).

(** The update loop is scheduled exactly while the player plays, and the
    field [audioSource] holds a source exactly while it plays.  This is
    about the field: a source the field no longer holds may still sound. *)
Definition transport_consistent (s : Player.state) : Prop :=
  Player.animationFrame s = Player.isPlaying s /\
  match Player.audioSource s with
  | Some _ => Player.isPlaying s = true
  | None => Player.isPlaying s = false
  end.

(** A tempo event carries a positive slider value. *)
Definition positive_tempo (e : Player.event) : Prop :=
  match e with
  | Player.Tempo value => 0 < value
  | _ => True
  end.




(** The next bar to mark is the one after as many bars as there are
    markers. *)
Definition counter_follows_markers (s : Editor.state) : Prop :=
  Editor.currentBarToMark s = Z.of_nat (length (Editor.beatMarkers s)) + 1.

(** The list the library page shows mirrors the object store: every
    project of the store is listed once, under its own id, and nothing
    else is listed. *)
Definition mirrors (s : Library.state) : Prop :=
  NoDup (map Library.id (Library.projects s)) /\
  (forall k p,
     Library.db s !! k = Some p <->
     In p (Library.projects s) /\ Library.id p = k).

(** What the library page does to its projects. *)
Inductive library_action : Type :=
| Delete (projectId : string)
| Duplicate (freshId createdNow updatedNow savedNow projectId : string).

Definition library_step (s : Library.state) (a : library_action)
  : Library.state :=
  match a with
  | Delete projectId => Library.deleteProject projectId s
  | Duplicate freshId createdNow updatedNow savedNow projectId =>
      Library.duplicateProject freshId createdNow updatedNow savedNow
        projectId s
  end.

(** The identifiers [generateId()] returns are new to the store at the
    time they are made. *)
Fixpoint fresh_ids (s : Library.state) (actions : list library_action)
  : Prop :=
  match actions with
  | [] => True
  | a :: rest =>
      match a with
      | Delete _ => True
      | Duplicate freshId _ _ _ _ => Library.db s !! freshId = None
      end /\ fresh_ids (library_step s a) rest
  end.

(** A session that has tapped the four bars of the four-bar scenario. *)
Definition four_bar_session : EditorLibrary.session :=
  EditorLibrary.Session (loaded_editor four_bars) None false false.

(** The files of the four-bar scenario. *)
Definition four_bar_files : EditorLibrary.files :=
  EditorLibrary.Files "Song" "Band" "song.gp" "song.mp3"
    (Some "R1A=") (Some "SUQz") 8.

(** The library page after it has loaded a store that holds the project
    [p] alone. *)
Definition library_with (p : Library.project) : Library.state :=
  Library.State (<[Library.id p := p]> ∅) [p].

(** The project the four-bar session saves. *)
Definition four_bar_project : Library.project :=
  snd (Library.saveToLibrary "k1" "2024-01-01" "2024-01-01"
         (EditorLibrary.projectData_of four_bar_files four_bar_session) ∅).

(** The text a character stands for after all four passes of
    [escapeHtml]. *)
Definition escaped_char (c : ascii) : string :=
  if Ascii.eqb c "&" then "&amp;"
  else if Ascii.eqb c "<" then "&lt;"
  else if Ascii.eqb c ">" then "&gt;"
  else if Ascii.eqb c Text.quote then "&quot;"
  else String c EmptyString.

(** Every character replaced by its text, in one pass. *)
Fixpoint escaped_in_one_pass (s : string) : string :=
  match s with
  | EmptyString => EmptyString
  | String c rest => (escaped_char c ++ escaped_in_one_pass rest)%string
  end.

(** [c] occurs in [s]. *)
Fixpoint occurs (c : ascii) (s : string) : Prop :=
  match s with
  | EmptyString => False
  | String x rest => x = c \/ occurs c rest
  end.

(** * Properties *)

(** ** Arithmetic of the clamped progress *)

Lemma Qle_bool_false (x y : Q) : Qle_bool x y = false <-> (y < x)%Q.
Proof.
  split; intros H.
  - apply Qnot_le_lt. intros Hle. apply Qle_bool_iff in Hle. congruence.
  - destruct (Qle_bool x y) eqn:E; [| reflexivity].
    apply Qle_bool_iff in E. exfalso. lra.
Qed.

Lemma Qeq_bool_false (x y : Q) : ~ (x == y)%Q -> Qeq_bool x y = false.
Proof.
  intros H. destruct (Qeq_bool x y) eqn:E; [| reflexivity].
  apply Qeq_bool_iff in E. contradiction.
Qed.

Lemma clamp01_bounds (x : Q) : (0 <= clamp01 x /\ clamp01 x <= 1)%Q.
Proof.
  unfold clamp01.
  destruct (Qle_bool 0 x) eqn:E0.
  - apply Qle_bool_iff in E0.
    destruct (Qle_bool 1 x) eqn:E1; [lra |].
    apply Qle_bool_false in E1. lra.
  - destruct (Qle_bool 1 0) eqn:E1; lra.
Qed.

Lemma clamp01_mono (x y : Q) : (x <= y)%Q -> (clamp01 x <= clamp01 y)%Q.
Proof.
  intros Hxy. unfold clamp01.
  destruct (Qle_bool 0 x) eqn:Ex, (Qle_bool 0 y) eqn:Ey;
    repeat match goal with
      | H : Qle_bool _ _ = true |- _ => apply Qle_bool_iff in H
      | H : Qle_bool _ _ = false |- _ => apply Qle_bool_false in H
      | |- context [Qle_bool ?a ?b] => destruct (Qle_bool a b) eqn:?
      end; lra.
Qed.

Lemma clamp01_one (x : Q) : (1 <= x)%Q -> clamp01 x = 1%Q.
Proof.
  intros Hx. unfold clamp01.
  assert (E0 : Qle_bool 0 x = true) by (apply Qle_bool_iff; lra).
  assert (E1 : Qle_bool 1 x = true) by (apply Qle_bool_iff; lra).
  now rewrite E0, E1.
Qed.

Lemma clamp01_zero (x : Q) : (x <= 0)%Q -> (clamp01 x == 0)%Q.
Proof.
  intros Hx. unfold clamp01.
  destruct (Qle_bool 0 x) eqn:E0.
  - apply Qle_bool_iff in E0.
    destruct (Qle_bool 1 x) eqn:E1; [apply Qle_bool_iff in E1; lra | lra].
  - reflexivity.
Qed.


(** With a non-zero finite divisor the clamp is a finite number. *)
Lemma clamp_progress_Num (a b : Q) :
  ~ (b == 0)%Q -> clamp_progress (Num a) (Num b) = Num (clamp01 (a / b)).
Proof.
  intros Hb. unfold clamp_progress, div, clamp01.
  rewrite (Qeq_bool_false _ _ Hb). cbn.
  destruct (Qle_bool 0 (a / b)); cbn; destruct (Qle_bool 1 _); reflexivity.
Qed.

Lemma in_unit_interval_clamp01 (x : Q) : in_unit_interval (Num (clamp01 x)).
Proof. exact (clamp01_bounds x). Qed.

(** ** Sorted marker lists *)

Lemma times_nondecreasing_tail (m : marker) (rest : list marker) :
  times_nondecreasing (m :: rest) -> times_nondecreasing rest.
Proof. cbn. tauto. Qed.

Lemma times_nondecreasing_suffix (before rest : list marker) :
  times_nondecreasing (before ++ rest) -> times_nondecreasing rest.
Proof.
  induction before as [| b before IH]; [trivial |].
  intros H. apply IH. exact (times_nondecreasing_tail _ _ H).
Qed.

(** Every marker after the head is at least as late as the head. *)
Lemma times_nondecreasing_head (m : marker) (rest : list marker) :
  times_nondecreasing (m :: rest) -> Forall (fun x => (time m <= time x)%Q) rest.
Proof.
  revert m. induction rest as [| r rest IH]; intros m H; [constructor |].
  destruct H as [Hmr Hrest]. constructor; [exact Hmr |].
  eapply Forall_impl; [exact (IH r Hrest) |].
  cbn. intros x Hx. lra.
Qed.

(** Every marker before [m] is at most as late as [m]. *)
Lemma times_nondecreasing_before (before : list marker) (m : marker)
    (rest : list marker) :
  times_nondecreasing (before ++ m :: rest) ->
  Forall (fun x => (time x <= time m)%Q) before.
Proof.
  induction before as [| b before IH]; intros H; [constructor |].
  constructor.
  - pose proof (times_nondecreasing_head _ _ H) as Hall.
    rewrite Forall_app in Hall. destruct Hall as [_ Hall].
    now inversion Hall.
  - apply IH. exact (times_nondecreasing_tail _ _ H).
Qed.

(** ** The marker scans *)

Lemma sub_Num (a b : Q) : sub (Num a) (Num b) = Num (a - b).
Proof. reflexivity. Qed.

Lemma ge_Num (a b : Q) : ge (Num a) (Num b) = Qle_bool b a.
Proof. reflexivity. Qed.

Lemma gt_Num (a b : Q) : gt (Num a) (Num b) = negb (Qle_bool a b).
Proof. reflexivity. Qed.

(** The editor's scan runs through every marker that has been reached. *)
Lemma editor_scan_reached (t : Q) (before : list marker) (m : marker)
    (rest : list marker) (acc : Editor.scan) :
  Forall (fun x => (time x <= t)%Q) before -> (time m <= t)%Q ->
  Editor.scan_markers t (before ++ m :: rest) acc =
  Editor.scan_markers t rest
    (Editor.Scan (bar m) (time m) (Editor.next_time_or_null rest)).
Proof.
  intros Hbefore Hm. revert acc.
  induction Hbefore as [| b before Hb _ IH]; intros acc; cbn.
  - apply Qle_bool_iff in Hm. now rewrite Hm.
  - apply Qle_bool_iff in Hb. rewrite Hb. apply IH.
Qed.

(** It leaves at the first marker that lies ahead. *)
Lemma editor_scan_stops (t : Q) (m : marker) (rest : list marker)
    (acc : Editor.scan) :
  (t < time m)%Q -> Editor.scan_markers t (m :: rest) acc = acc.
Proof.
  intros Hm. cbn. apply Qle_bool_false in Hm. now rewrite Hm.
Qed.

(** The player's scan, likewise, with the index it keeps. *)
Lemma player_scan_reached (t duration : Q) (before : list marker) (m : marker)
    (rest : list marker) (i : nat) (acc : Player.scan) :
  Forall (fun x => (time x <= t)%Q) before -> (time m <= t)%Q ->
  Player.scan_markers (Num t) duration i (before ++ m :: rest) acc =
  Player.scan_markers (Num t) duration (S (i + length before)) rest
    (Player.Scan (i + length before) (time m)
       match rest with
       | next :: _ => time next
       | [] => duration
       end).
Proof.
  intros Hbefore Hm. revert i acc.
  induction Hbefore as [| b before Hb _ IH]; intros i acc; cbn.
  - apply Qle_bool_iff in Hm. rewrite Hm. now rewrite Nat.add_0_r.
  - apply Qle_bool_iff in Hb. rewrite Hb. rewrite IH.
    now replace (S i + length before)%nat with (i + S (length before))%nat by lia.
Qed.

Lemma player_scan_stops (t duration : Q) (m : marker) (rest : list marker)
    (i : nat) (acc : Player.scan) :
  (t < time m)%Q -> Player.scan_markers (Num t) duration i (m :: rest) acc = acc.
Proof.
  intros Hm. cbn. apply Qle_bool_false in Hm. now rewrite Hm.
Qed.

(** The scans between two consecutive markers of a sorted list. *)
Lemma editor_find_bar_between (before after : list marker)
    (earlier later : marker) (t : Q) :
  times_nondecreasing (before ++ earlier :: later :: after) ->
  (time earlier <= t)%Q -> (t < time later)%Q ->
  Editor.find_bar t (before ++ earlier :: later :: after) =
  Editor.Scan (bar earlier) (time earlier)
    (Editor.next_time_or_null (later :: after)).
Proof.
  intros Hsorted Hlo Hhi. unfold Editor.find_bar.
  rewrite editor_scan_reached; [now apply editor_scan_stops | | exact Hlo].
  eapply Forall_impl; [exact (times_nondecreasing_before _ _ _ Hsorted) |].
  cbn. intros x Hx. lra.
Qed.

Lemma player_find_bar_between (before after : list marker)
    (earlier later : marker) (t duration : Q) :
  times_nondecreasing (before ++ earlier :: later :: after) ->
  (time earlier <= t)%Q -> (t < time later)%Q ->
  Player.find_bar (Num t) duration (before ++ earlier :: later :: after) =
  Player.Scan (length before) (time earlier) (time later).
Proof.
  intros Hsorted Hlo Hhi. unfold Player.find_bar.
  rewrite player_scan_reached; [now apply player_scan_stops | | exact Hlo].
  eapply Forall_impl; [exact (times_nondecreasing_before _ _ _ Hsorted) |].
  cbn. intros x Hx. lra.
Qed.

(** ** Progress within the bar *)

Lemma editor_bar_progress_unit (t : Q) (sc : Editor.scan) :
  in_unit_interval (Editor.bar_progress t sc).
Proof.
  unfold Editor.bar_progress.
  destruct (Editor.nextBarTime sc) as [next |]; [| cbn; lra].
  rewrite gt_Num.
  destruct (Qle_bool next (Editor.currentBarTime sc)) eqn:E; cbn [negb];
    [cbn; lra |].
  apply Qle_bool_false in E. rewrite !sub_Num, clamp_progress_Num by lra.
  apply in_unit_interval_clamp01.
Qed.

Lemma player_bar_progress_unit (t : Q) (sc : Player.scan) :
  in_unit_interval (Player.bar_progress (Num t) sc).
Proof.
  unfold Player.bar_progress. rewrite !sub_Num, gt_Num.
  destruct (Qle_bool _ 0) eqn:E; cbn [negb]; [cbn; lra |].
  apply Qle_bool_false in E. rewrite clamp_progress_Num by lra.
  apply in_unit_interval_clamp01.
Qed.

(** A bar that does not end after it starts has progress [0]. *)
Lemma editor_bar_progress_degenerate (t : Q) (sc : Editor.scan) :
  match Editor.nextBarTime sc with
  | Some next => (next - Editor.currentBarTime sc <= 0)%Q
  | None => True
  end ->
  Editor.bar_progress t sc = Num 0.
Proof.
  unfold Editor.bar_progress.
  destruct (Editor.nextBarTime sc) as [next |]; [| reflexivity].
  intros H. rewrite gt_Num.
  assert (E : Qle_bool next (Editor.currentBarTime sc) = true)
    by (apply Qle_bool_iff; lra).
  now rewrite E.
Qed.

Lemma player_bar_progress_degenerate (x : jsnum) (sc : Player.scan) :
  (Player.nextBarTime sc - Player.currentBarTime sc <= 0)%Q ->
  Player.bar_progress x sc = Num 0.
Proof.
  intros H. unfold Player.bar_progress. rewrite sub_Num, gt_Num.
  assert (E : Qle_bool (Player.nextBarTime sc - Player.currentBarTime sc) 0
              = true) by (apply Qle_bool_iff; lra).
  now rewrite E.
Qed.

(** ** What the resolvers write *)

(** Reads the fields of a constructed player state. *)
Ltac player_fields :=
  cbn [Player.syncData Player.audioBuffer Player.audioSource Player.isPlaying
       Player.isLooping Player.currentTime Player.duration
       Player.playbackRate Player.startedAt Player.pausedAt
       Player.animationFrame Player.currentBar Player.barTickMap
       Player.notationOffset Player.currentBarText Player.tickPosition
       Player.set_audioSource Player.set_isPlaying Player.set_isLooping
       Player.set_currentTime Player.set_playbackRate Player.set_startedAt
       Player.set_pausedAt Player.set_animationFrame Player.set_currentBar
       Player.set_currentBarText Player.set_tickPosition negb andb orb] in *.

(** [updateCursor] touches the bar, its indicator and the renderer cursor,
    and nothing else. *)
Lemma updateCursor_frame (s : Player.state) :
  exists b text tick,
    Player.updateCursor s =
    Player.State (Player.syncData s) (Player.audioBuffer s)
      (Player.audioSource s) (Player.isPlaying s) (Player.isLooping s)
      (Player.currentTime s) (Player.duration s) (Player.playbackRate s)
      (Player.startedAt s) (Player.pausedAt s) (Player.animationFrame s)
      b (Player.barTickMap s) (Player.notationOffset s) text tick.
Proof.
  destruct s as [sd ab src pl lp ct du pr st pa af cb tm no tx tp].
  unfold Player.updateCursor; cbn.
  destruct sd as [markers |]; [| now eauto].
  destruct (nth_error markers _) as [m |]; [| now eauto].
  destruct (negb (bar m =? cb)); cbn;
    destruct (bool_decide (tm = ∅)); cbn; try (now eauto);
    destruct (tm !! bar m); cbn; now eauto.
Qed.

(** With a marker selected, [updateCursor] shows that marker's bar and,
    once the tick map knows the bar, moves the cursor to the interpolated
    tick. *)
Lemma updateCursor_selected (s : Player.state) (markers : list marker)
    (m : marker) :
  let adjustedTime := add (Player.currentTime s) (Num (Player.notationOffset s)) in
  let sc := Player.find_bar adjustedTime (Player.duration s) markers in
  Player.syncData s = Some markers ->
  nth_error markers (Player.currentBarIndex sc) = Some m ->
  Player.currentBar (Player.updateCursor s) = bar m /\
  Player.currentBarText (Player.updateCursor s) =
    (if bar m =? Player.currentBar s then Player.currentBarText s else bar m) /\
  Player.tickPosition (Player.updateCursor s) =
    match Player.barTickMap s !! bar m with
    | Some barTicks =>
        interpolate_tick barTicks (Player.bar_progress adjustedTime sc)
    | None => Player.tickPosition s
    end.
Proof.
  intros adjustedTime sc Hsync Hnth.
  unfold Player.updateCursor. rewrite Hsync. fold adjustedTime. fold sc.
  rewrite Hnth.
  destruct (bar m =? Player.currentBar s) eqn:Ebar; cbn [negb].
  - apply Z.eqb_eq in Ebar.
    destruct (bool_decide (Player.barTickMap s = ∅)) eqn:Eempty.
    + apply bool_decide_eq_true in Eempty. rewrite Eempty, lookup_empty.
      now rewrite Ebar.
    + destruct (Player.barTickMap s !! bar m); cbn; now rewrite Ebar.
  - destruct s as [sd ab src pl lp ct du pr st pa af cb tm no tx tp]; cbn in *.
    destruct (bool_decide (tm = ∅)) eqn:Eempty.
    + apply bool_decide_eq_true in Eempty. subst tm. now rewrite lookup_empty.
    + destruct (tm !! bar m); cbn; now auto.
Qed.

(** [highlightCurrentBar] records every positive bar it finds. *)
Lemma highlightCurrentBar_lastSyncedBar (t : Q) (s : Editor.state) :
  0 < Editor.currentBar (Editor.find_bar t (Editor.beatMarkers s)) ->
  Editor.lastSyncedBar (Editor.highlightCurrentBar t s) =
  Editor.currentBar (Editor.find_bar t (Editor.beatMarkers s)).
Proof.
  intros Hpos. unfold Editor.highlightCurrentBar.
  generalize dependent (Editor.find_bar t (Editor.beatMarkers s)).
  intros sc Hpos. apply Z.ltb_lt in Hpos. rewrite Hpos. cbn [andb].
  destruct s as [ws sco at_ ms cbm tb tm ps lsb lt_ tp ast].
  unfold Editor.scrollToBar. cbn.
  destruct (Editor.currentBar sc =? lsb) eqn:Ebar; cbn.
  - apply Z.eqb_eq in Ebar.
    destruct (tm !! Editor.currentBar sc); cbn; [| congruence].
    destruct (negb (truthy lt_) || _); cbn; [| congruence].
    destruct at_; cbn; congruence.
  - repeat match goal with
           | |- context [match ?x with _ => _ end] => destruct x; cbn
           end; reflexivity.
Qed.

(** ** The position resolver *)

(** C4: for every marker list, sorted or not, and every time, the progress
    either resolver computes is a finite number in [0,1] (never NaN, never
    an infinity), and it is [0] whenever the active bar does not end after
    it starts.  The editor resolves at the time it is given, the player at
    the time plus its notation offset. *)
Theorem progress_in_unit_interval
    (markers : list marker) (t offset duration : Q) :
  let adjustedTime := add (Num t) (Num offset) in
  let editor_bar := Editor.find_bar t markers in
  let player_bar := Player.find_bar adjustedTime duration markers in
  in_unit_interval (Editor.progress_at t markers) /\
  in_unit_interval (Player.progress_at adjustedTime duration markers) /\
  (match Editor.nextBarTime editor_bar with
   | Some barEndTime =>
       (barEndTime - Editor.currentBarTime editor_bar <= 0)%Q
   | None => True
   end ->
   Editor.progress_at t markers = Num 0) /\
  ((Player.nextBarTime player_bar - Player.currentBarTime player_bar <= 0)%Q ->
   Player.progress_at adjustedTime duration markers = Num 0).
Proof.
  intros adjustedTime editor_bar player_bar. repeat split.
  - apply editor_bar_progress_unit.
  - apply player_bar_progress_unit.
  - apply editor_bar_progress_degenerate.
  - apply player_bar_progress_degenerate.
Qed.

(** With a progress in [0,1] the interpolated tick is an integer inside
    the tick range of the bar. *)
Lemma interpolate_tick_in_range (barTicks : tick_range) (progress : jsnum) :
  in_unit_interval progress -> start barTicks <= end_ barTicks ->
  exists tick : Z,
    interpolate_tick barTicks progress = of_Z tick /\
    start barTicks <= tick <= end_ barTicks.
Proof.
  destruct progress as [q | | |]; cbn [in_unit_interval]; try contradiction.
  intros [Hq0 Hq1] Hrange.
  set (span := (inject_Z (end_ barTicks) - inject_Z (start barTicks))%Q).
  assert (Hspan : (0 <= span)%Q).
  { unfold span. rewrite Zle_Qle in Hrange. lra. }
  exists (Qfloor (inject_Z (start barTicks) + span * q)).
  split; [reflexivity |]. split.
  - apply Z.le_trans with (Qfloor (inject_Z (start barTicks)));
      [rewrite Qfloor_Z; lia |].
    apply Qfloor_resp_le.
    pose proof (Qmult_le_0_compat _ _ Hspan Hq0). lra.
  - apply Z.le_trans with (Qfloor (inject_Z (end_ barTicks)));
      [| rewrite Qfloor_Z; lia].
    apply Qfloor_resp_le.
    assert (span * q <= span * 1)%Q
      by (rewrite !(Qmult_comm span); apply Qmult_le_compat_r; assumption).
    unfold span in *. lra.
Qed.

(** The four-bar scenario at three seconds: bar 2, progress 1/2.1. *)
Example four_bar_editor_progress :
  Editor.currentBar (Editor.find_bar 3 four_bars) = 2 /\
  same (Editor.progress_at 3 four_bars) (Num (10 # 21)).
Proof. split; reflexivity. Qed.

(** Equal times and a later marker with an earlier time: the scan walks
    on to the last marker reached, and the progress stays in range. *)
Example unsorted_markers_progress :
  let markers := [Marker 1 5; Marker 2 5; Marker 3 1] in
  same (Player.progress_at (Num 5) 10 markers) (Num (4 # 9)) /\
  Editor.progress_at 5 markers = Num 0.
Proof. split; reflexivity. Qed.

(** A last bar that starts where the audio ends has no length. *)
Example empty_last_bar_progress :
  Player.progress_at (Num 6) 5 [Marker 1 5] = Num 0.
Proof. reflexivity. Qed.

(** Between two markers both resolvers interpolate linearly. *)
Lemma editor_progress_between (before after : list marker)
    (earlier later : marker) (t : Q) :
  times_nondecreasing (before ++ earlier :: later :: after) ->
  (time earlier <= t)%Q -> (t < time later)%Q -> ~ (time later == 0)%Q ->
  Editor.progress_at t (before ++ earlier :: later :: after) =
  Num (clamp01 ((t - time earlier) / (time later - time earlier))).
Proof.
  intros Hsorted Hlo Hhi Hnz. unfold Editor.progress_at.
  rewrite editor_find_bar_between by assumption.
  unfold Editor.bar_progress, Editor.next_time_or_null; cbn.
  rewrite (Qeq_bool_false _ _ Hnz).
  assert (E : Qle_bool (time later) (time earlier) = false)
    by (apply Qle_bool_false; lra).
  rewrite E; cbn [negb]. apply clamp_progress_Num. lra.
Qed.

Lemma player_progress_between (before after : list marker)
    (earlier later : marker) (t duration : Q) :
  times_nondecreasing (before ++ earlier :: later :: after) ->
  (time earlier <= t)%Q -> (t < time later)%Q ->
  Player.progress_at (Num t) duration (before ++ earlier :: later :: after) =
  Num (clamp01 ((t - time earlier) / (time later - time earlier))).
Proof.
  intros Hsorted Hlo Hhi. unfold Player.progress_at.
  rewrite player_find_bar_between by assumption.
  unfold Player.bar_progress; cbn.
  assert (E : Qle_bool (time later + - time earlier) 0 = false)
    by (apply Qle_bool_false; lra).
  rewrite E; cbn [negb]. apply clamp_progress_Num. lra.
Qed.

Lemma quotient_mono (a b d : Q) : (0 < d)%Q -> (a <= b)%Q -> (a / d <= b / d)%Q.
Proof.
  intros Hd Hab. unfold Qdiv. apply Qmult_le_compat_r; [exact Hab |].
  apply Qlt_le_weak, Qinv_lt_0_compat, Hd.
Qed.

(** C1: in a marker list with non-decreasing times, at every time [t]
    that lies between the times of two consecutive markers (from the
    earlier one's time up to, not including, the later one's), both
    resolvers select the earlier marker, which is the last marker whose
    time is at most [t]; the editor's scan yields its bar and records it
    (bars are positive), the player's [updateCursor], whose
    offset-adjusted time is [t], shows its bar; and the progress within
    the bar does not go down as [t] goes up.  (Bar numbers need not be
    increasing for this to hold.) *)
Theorem resolver_between_markers
    (before after : list marker) (earlier later : marker)
    (t1 t2 duration : Q) :
  let markers := before ++ earlier :: later :: after in
  times_nondecreasing markers ->
  (time earlier <= t1)%Q -> (t1 <= t2)%Q -> (t2 < time later)%Q ->
  Forall
    (fun t =>
       (Forall (fun m => (time m <= t)%Q) (before ++ [earlier]) /\
        Forall (fun m => (t < time m)%Q) (later :: after)) /\
       (Editor.currentBar (Editor.find_bar t markers) = bar earlier /\
        forall s, Editor.beatMarkers s = markers -> 0 < bar earlier ->
          Editor.lastSyncedBar (Editor.highlightCurrentBar t s) = bar earlier) /\
       (nth_error markers
          (Player.currentBarIndex (Player.find_bar (Num t) duration markers))
        = Some earlier /\
        forall s, Player.syncData s = Some markers ->
          add (Player.currentTime s) (Num (Player.notationOffset s)) = Num t ->
          Player.currentBar (Player.updateCursor s) = bar earlier))
    [t1; t2] /\
  le (Editor.progress_at t1 markers) (Editor.progress_at t2 markers) = true /\
  le (Player.progress_at (Num t1) duration markers)
     (Player.progress_at (Num t2) duration markers) = true.
Proof.
  intros markers Hsorted H1 H12 H2.
  assert (Hsel : forall t d, (time earlier <= t)%Q -> (t < time later)%Q ->
            Editor.find_bar t markers =
              Editor.Scan (bar earlier) (time earlier)
                (Editor.next_time_or_null (later :: after)) /\
            Player.find_bar (Num t) d markers =
              Player.Scan (length before) (time earlier) (time later)).
  { intros t d Hlo Hhi. split.
    - now apply editor_find_bar_between.
    - now apply player_find_bar_between. }
  assert (Hnth : nth_error markers (length before) = Some earlier).
  { unfold markers. rewrite nth_error_app2 by lia.
    now rewrite Nat.sub_diag. }
  assert (Hone : forall t, (time earlier <= t)%Q -> (t < time later)%Q ->
    (Forall (fun m => (time m <= t)%Q) (before ++ [earlier]) /\
     Forall (fun m => (t < time m)%Q) (later :: after)) /\
    (Editor.currentBar (Editor.find_bar t markers) = bar earlier /\
     forall s, Editor.beatMarkers s = markers -> 0 < bar earlier ->
       Editor.lastSyncedBar (Editor.highlightCurrentBar t s) = bar earlier) /\
    (nth_error markers
       (Player.currentBarIndex (Player.find_bar (Num t) duration markers))
     = Some earlier /\
     forall s, Player.syncData s = Some markers ->
       add (Player.currentTime s) (Num (Player.notationOffset s)) = Num t ->
       Player.currentBar (Player.updateCursor s) = bar earlier)).
  { intros t Hlo Hhi. split; [| split].
    - split.
      + rewrite Forall_app. split.
        * eapply Forall_impl;
            [exact (times_nondecreasing_before _ _ _ Hsorted) |].
          cbn. intros x Hx. lra.
        * constructor; [exact Hlo | constructor].
      + constructor; [exact Hhi |].
        pose proof (times_nondecreasing_suffix (before ++ [earlier])
                      (later :: after)) as Hsuf.
        rewrite <- app_assoc in Hsuf. specialize (Hsuf Hsorted).
        eapply Forall_impl; [exact (times_nondecreasing_head _ _ Hsuf) |].
        cbn. intros x Hx. lra.
    - destruct (Hsel t duration Hlo Hhi) as [He _]. rewrite He. split.
      + reflexivity.
      + intros s Hs Hpos.
        rewrite highlightCurrentBar_lastSyncedBar; rewrite Hs, He; cbn;
          [reflexivity | exact Hpos].
    - destruct (Hsel t duration Hlo Hhi) as [_ Hp]. rewrite Hp. split.
      + exact Hnth.
      + intros s Hs Ht.
        apply (updateCursor_selected s markers earlier Hs).
        rewrite Ht. destruct (Hsel t (Player.duration s) Hlo Hhi) as [_ Hp'].
        rewrite Hp'. exact Hnth. }
  split; [| split].
  - constructor; [apply Hone; lra |].
    constructor; [apply Hone; lra | constructor].
  - destruct (Qeq_bool (time later) 0) eqn:Ez.
    + unfold Editor.progress_at.
      destruct (Hsel t1 duration) as [E1 _]; [lra | lra |].
      destruct (Hsel t2 duration) as [E2 _]; [lra | lra |].
      rewrite E1, E2.
      unfold Editor.bar_progress, Editor.next_time_or_null.
      cbn [Editor.nextBarTime]. now rewrite Ez.
    + apply Qeq_bool_neq in Ez. unfold markers.
      rewrite !editor_progress_between by (assumption || lra). cbn.
      apply Qle_bool_iff, clamp01_mono, quotient_mono; lra.
  - unfold markers.
    rewrite !player_progress_between by (assumption || lra). cbn.
    apply Qle_bool_iff, clamp01_mono, quotient_mono; lra.
Qed.

Lemma resolver_between_markers_witness :
  times_nondecreasing four_bars /\
  Editor.currentBar (Editor.find_bar 3 four_bars) = 2 /\
  Player.currentBar
    (Player.updateCursor (loaded_player four_bars 8 (315 # 100))) = 2 /\
  le (Editor.progress_at (5 # 2) four_bars) (Editor.progress_at 3 four_bars)
    = true /\
  le (Player.progress_at (Num (5 # 2)) 8 four_bars)
     (Player.progress_at (Num ((315 # 100) + - (15 # 100))) 8 four_bars) = true.
Proof.
  assert (Hsorted : times_nondecreasing four_bars) by (cbn; lra).
  split; [exact Hsorted |].
  destruct (resolver_between_markers [Marker 1 0] [Marker 4 6]
              (Marker 2 2) (Marker 3 (41 # 10))
              (5 # 2) ((315 # 100) + - (15 # 100)) 8 Hsorted)
    as (Hsel & Hed & Hpl); cbn; try lra.
  apply Forall_cons in Hsel as [_ Hsel]. apply Forall_cons in Hsel as [Hsel _].
  destruct Hsel as (_ & [Hbar _] & [_ Hshow]).
  split; [exact Hbar | split; [| split]].
  - exact (Hshow (loaded_player four_bars 8 (315 # 100)) eq_refl eq_refl).
  - exact Hed.
  - exact Hpl.
Defined.

(** The player resolves at the time shown plus its notation offset of
    -0.15 seconds: a tenth of a second after the second marker it still
    shows bar 1, and bar 2 from 2.15 seconds on. *)
Example notation_runs_behind_audio :
  Player.currentBar
    (Player.updateCursor (loaded_player four_bars 8 (21 # 10))) = 1 /\
  Player.currentBar
    (Player.updateCursor (loaded_player four_bars 8 (215 # 100))) = 2.
Proof. split; vm_compute; reflexivity. Qed.

(** ** Before the first marker *)

Lemma editor_find_bar_before_first (t : Q) (markers : list marker) :
  match markers with
  | [] => True
  | first :: _ => (t < time first)%Q
  end ->
  Editor.find_bar t markers = Editor.Scan 0 0%Q None.
Proof.
  destruct markers as [| first rest]; [reflexivity |].
  intros Hfirst. now apply editor_scan_stops.
Qed.

(** The editor leaves its whole state alone before the first marker: no
    bar is recorded and the renderer cursor stays where it is. *)
Lemma editor_before_first_marker (t : Q) (s : Editor.state) :
  Forall (fun m => (t < time m)%Q) (Editor.beatMarkers s) ->
  Editor.highlightCurrentBar t s = s.
Proof.
  intros Hall. unfold Editor.highlightCurrentBar.
  rewrite editor_find_bar_before_first; [reflexivity |].
  destruct Hall; [exact I | assumption].
Qed.

Lemma player_find_bar_before_first (t duration : Q) (markers : list marker) :
  match markers with
  | [] => True
  | first :: _ => (t < time first)%Q
  end ->
  Player.find_bar (Num t) duration markers = Player.Scan 0 0%Q duration.
Proof.
  destruct markers as [| first rest]; [reflexivity |].
  intros Hfirst. now apply player_scan_stops.
Qed.

(** The player's scan starts out at index 0, so before the first marker
    [updateCursor] still finds a marker, the first one, and shows its bar. *)
Lemma player_before_first_marker (s : Player.state) (first : marker)
    (rest : list marker) (c : Q) :
  Player.syncData s = Some (first :: rest) ->
  Player.currentTime s = Num c ->
  (c + Player.notationOffset s < time first)%Q ->
  Player.currentBar (Player.updateCursor s) = bar first.
Proof.
  intros Hsync Htime Hfirst.
  apply (updateCursor_selected s (first :: rest) first Hsync).
  rewrite Htime. cbn [add].
  now rewrite player_find_bar_before_first.
Qed.

(** C2, on the code: two seconds into a recording whose first marker is at
    five seconds, the editor produces no position (its state is unchanged),
    while the player shows the first marker's bar and moves the renderer
    cursor a fifth of the way into that bar (tick 768 of 3840, the audio
    being ten seconds long). *)
Theorem player_resolves_before_first_marker :
  let editor := loaded_editor late_start in
  let player := loaded_player late_start 10 (215 # 100) in
  Forall (fun m => ((215 # 100) + Player.notationOffset player < time m)%Q)
    late_start /\
  Editor.highlightCurrentBar 2 editor = editor /\
  cursor_of player = (0, 0, Num 0) /\
  Player.currentBar (Player.updateCursor player) = 1 /\
  Player.currentBarText (Player.updateCursor player) = 1 /\
  same (Player.tickPosition (Player.updateCursor player)) (of_Z 768).
Proof.
  cbn zeta. split; [| split; [| split; [| split; [| split]]]].
  - repeat constructor.
  - apply editor_before_first_marker. repeat constructor.
  - reflexivity.
  - apply (player_before_first_marker _ (Marker 1 5) [Marker 2 7] (215 # 100));
      reflexivity.
  - vm_compute. reflexivity.
  - vm_compute. reflexivity.
Qed.

(** ** At and beyond the last marker *)



(** In a list with non-decreasing times, a time at or beyond the last
    marker's is at or beyond every marker's. *)
Lemma reached_last_reached_all (before : list marker) (lastm : marker) (t : Q) :
  times_nondecreasing (before ++ [lastm]) -> (time lastm <= t)%Q ->
  Forall (fun m => (time m <= t)%Q) (before ++ [lastm]).
Proof.
  intros Hsorted Hlast. apply Forall_app. split.
  - eapply Forall_impl; [exact (times_nondecreasing_before _ _ _ Hsorted) |].
    cbn. intros x Hx. lra.
  - constructor; [exact Hlast | constructor].
Qed.




(** ** Transport *)

Lemma div_Num (a b : Q) : ~ (b == 0)%Q -> div (Num a) (Num b) = Num (a / b).
Proof. intros Hb. unfold div. now rewrite (Qeq_bool_false _ _ Hb). Qed.

Lemma seek_clamp_Num (time duration : Q) :
  Math_max (Num 0) (Math_min (Num time) (Num duration)) =
  Num (clamp_seek time duration).
Proof.
  unfold clamp_seek, Math_min, Math_max, le.
  destruct (Qle_bool time duration); destruct (Qle_bool 0 _); reflexivity.
Qed.


Lemma clamp_seek_inside (time duration : Q) :
  (0 <= time)%Q -> (time <= duration)%Q -> clamp_seek time duration = time.
Proof.
  intros H0 H1. unfold clamp_seek.
  apply Qle_bool_iff in H0, H1. now rewrite H1, H0.
Qed.

Lemma clamp_seek_below (time duration : Q) :
  (time < 0)%Q -> (0 <= duration)%Q -> clamp_seek time duration = 0%Q.
Proof.
  intros H0 Hd. unfold clamp_seek.
  assert (E1 : Qle_bool time duration = true) by (apply Qle_bool_iff; lra).
  apply Qle_bool_false in H0. now rewrite E1, H0.
Qed.


Lemma clamp_seek_zero (duration : Q) :
  (0 <= duration)%Q -> clamp_seek 0 duration = 0%Q.
Proof. intros Hd. apply clamp_seek_inside; lra. Qed.

(** What [updateCursor] shows depends on the markers, the tick map, the
    time, the offset, the duration and the cursor it starts from, and on
    nothing else of the state. *)
Lemma updateCursor_cursor_ext (s s' : Player.state) :
  Player.syncData s = Player.syncData s' ->
  Player.currentTime s = Player.currentTime s' ->
  Player.notationOffset s = Player.notationOffset s' ->
  Player.duration s = Player.duration s' ->
  Player.barTickMap s = Player.barTickMap s' ->
  cursor_of s = cursor_of s' ->
  cursor_of (Player.updateCursor s) = cursor_of (Player.updateCursor s').
Proof.
  destruct s as [sd ab src pl lp ct du pr st pa af cb tm no tx tp].
  destruct s' as [sd' ab' src' pl' lp' ct' du' pr' st' pa' af' cb' tm' no' tx' tp'].
  unfold cursor_of; cbn. intros -> -> -> -> -> [= -> -> ->].
  unfold Player.updateCursor; player_fields.
  destruct sd' as [markers |]; [| reflexivity].
  destruct (nth_error markers _) as [m |]; [| reflexivity].
  destruct (negb (bar m =? cb')); player_fields;
    (destruct (bool_decide (tm' = ∅)); [reflexivity |]);
    destruct (tm' !! bar m); reflexivity.
Qed.

(** Every transport operation keeps a reachable state reachable. *)
Lemma updateCursor_transport_ok (s : Player.state) :
  transport_ok s -> transport_ok (Player.updateCursor s).
Proof.
  destruct (updateCursor_frame s) as (b & text & tick & ->).
  unfold transport_ok; cbn. tauto.
Qed.

Lemma play_transport_ok (now : Q) (s : Player.state) :
  transport_ok s -> transport_ok (Player.play now s).
Proof.
  intros Hok. unfold Player.play.
  destruct (Player.audioBuffer s) eqn:E; cbn [negb]; [| exact Hok].
  destruct Hok as (? & ? & ? & ?). unfold transport_ok; cbn. auto.
Qed.

Lemma pause_transport_ok (now : Q) (s : Player.state) :
  transport_ok s -> transport_ok (Player.pause now s).
Proof.
  intros Hok. unfold Player.pause.
  destruct (Player.isPlaying s) eqn:E; cbn [negb]; [| exact Hok].
  destruct Hok as (? & ? & ? & ?).
  unfold transport_ok; cbn. destruct (Player.audioSource s); cbn;
    repeat split; auto; discriminate.
Qed.

Lemma seekTo_transport_ok (now : Q) (time : jsnum) (s : Player.state) :
  transport_ok s -> transport_ok (Player.seekTo now time s).
Proof.
  intros Hok. unfold Player.seekTo.
  assert (Hmid : forall s1 v,
            transport_ok s1 ->
            transport_ok
              (Player.updateCursor
                 (Player.set_currentTime (Player.pausedAt (Player.set_pausedAt v s1))
                    (Player.set_pausedAt v s1)))).
  { intros s1 v H1. apply updateCursor_transport_ok.
    unfold transport_ok in *; cbn. exact H1. }
  destruct (Player.isPlaying s).
  - apply play_transport_ok, Hmid, pause_transport_ok, Hok.
  - apply Hmid, Hok.
Qed.

Lemma stop_transport_ok (now : Q) (s : Player.state) :
  transport_ok s -> transport_ok (Player.stop now s).
Proof.
  intros Hok. unfold Player.stop.
  apply pause_transport_ok with (now := now) in Hok.
  set (s4 := Player.set_currentBar _ _).
  assert (H4 : transport_ok s4) by (unfold transport_ok in *; cbn; exact Hok).
  apply updateCursor_transport_ok in H4.
  unfold transport_ok in *; cbn. exact H4.
Qed.

Lemma onended_transport_ok (now : Q) (s : Player.state) :
  transport_ok s -> transport_ok (Player.onended now s).
Proof.
  intros Hok. unfold Player.onended.
  destruct (Player.isPlaying s); [| exact Hok].
  destruct (Player.isLooping s).
  - apply play_transport_ok, seekTo_transport_ok, Hok.
  - apply stop_transport_ok, Hok.
Qed.

Lemma update_transport_ok (now : Q) (s : Player.state) :
  transport_ok s -> transport_ok (Player.update now s).
Proof.
  intros Hok. unfold Player.update.
  destruct (Player.isPlaying s) eqn:E; cbn [negb]; [| exact Hok].
  set (s2 := if ge _ _ then _ else _).
  assert (H2 : transport_ok s2).
  { unfold s2. destruct (ge _ _); unfold transport_ok in *; cbn; exact Hok. }
  apply updateCursor_transport_ok in H2.
  unfold transport_ok in *; cbn. exact H2.
Qed.

Lemma toggleLoop_transport_ok (s : Player.state) :
  transport_ok s -> transport_ok (Player.toggleLoop s).
Proof. unfold transport_ok; cbn. tauto. Qed.

Lemma tempoSliderInput_transport_ok (value : Z) (s : Player.state) :
  0 < value -> transport_ok s -> transport_ok (Player.tempoSliderInput value s).
Proof.
  intros Hv (Hd & _ & Ho & Hb). unfold Player.tempoSliderInput.
  assert (Hr : (0 < inject_Z value / 100)%Q).
  { apply Qlt_shift_div_l; [reflexivity |].
    rewrite Qmult_0_l. replace 0%Q with (inject_Z 0) by reflexivity.
    now rewrite <- Zlt_Qlt. }
  cbn. destruct (Player.audioSource s); unfold transport_ok; cbn; auto.
Qed.

Lemma play_cursor (now : Q) (s : Player.state) :
  cursor_of (Player.play now s) = cursor_of s.
Proof. unfold Player.play. now destruct (Player.audioBuffer s). Qed.

(** With a decoded buffer [play] starts a source at the current rate and
    keeps the stored position and the time shown. *)
Lemma play_started (now : Q) (s : Player.state) :
  Player.audioBuffer s = true ->
  Player.isPlaying (Player.play now s) = true /\
  Player.audioSource (Player.play now s) = Some (Player.playbackRate s) /\
  Player.animationFrame (Player.play now s) = true /\
  Player.pausedAt (Player.play now s) = Player.pausedAt s /\
  Player.currentTime (Player.play now s) = Player.currentTime s /\
  Player.isLooping (Player.play now s) = Player.isLooping s.
Proof.
  intros Hbuf. unfold Player.play. rewrite Hbuf. cbn. repeat split.
Qed.

(** The position of a source started by [play] runs on from the stored
    position at the playback rate. *)
Lemma play_position (now later : Q) (s : Player.state) (offset : Q) :
  Player.audioBuffer s = true -> (0 < Player.playbackRate s)%Q ->
  Player.pausedAt s = Num offset ->
  same (Player.playbackPosition later (Player.play now s))
       (Num (offset + (later - now) * Player.playbackRate s)).
Proof.
  intros Hbuf Hrate Hoff. unfold Player.play, Player.playbackPosition.
  rewrite Hbuf. player_fields. rewrite Hoff, div_Num by lra. cbn.
  field. lra.
Qed.

(** The transport fields [updateCursor] leaves as they are. *)
Lemma updateCursor_keeps (s : Player.state) :
  let s' := Player.updateCursor s in
  Player.audioBuffer s' = Player.audioBuffer s /\
  Player.audioSource s' = Player.audioSource s /\
  Player.isPlaying s' = Player.isPlaying s /\
  Player.isLooping s' = Player.isLooping s /\
  Player.currentTime s' = Player.currentTime s /\
  Player.playbackRate s' = Player.playbackRate s /\
  Player.pausedAt s' = Player.pausedAt s /\
  Player.animationFrame s' = Player.animationFrame s.
Proof.
  destruct (updateCursor_frame s) as (b & text & tick & Hupd).
  cbn zeta. rewrite Hupd. cbn. repeat split.
Qed.

(** What [pause] does to a playing state, and what it keeps. *)
Lemma pause_playing (now : Q) (s : Player.state) :
  Player.isPlaying s = true ->
  let s' := Player.pause now s in
  Player.isPlaying s' = false /\
  Player.audioSource s' = None /\
  Player.animationFrame s' = false /\
  Player.pausedAt s' = Player.playbackPosition now s /\
  Player.audioBuffer s' = Player.audioBuffer s /\
  Player.isLooping s' = Player.isLooping s /\
  Player.duration s' = Player.duration s /\
  Player.playbackRate s' = Player.playbackRate s /\
  Player.syncData s' = Player.syncData s /\
  Player.notationOffset s' = Player.notationOffset s /\
  Player.barTickMap s' = Player.barTickMap s /\
  cursor_of s' = cursor_of s.
Proof.
  intros Hplay. cbn zeta. unfold Player.pause. rewrite Hplay. player_fields.
  destruct (Player.audioSource s) eqn:Esrc; cbn; repeat split; exact Esrc.
Qed.

(** [seekTo] while the player plays: pause, reposition, resume. *)
Lemma seekTo_playing (s : Player.state) (now time : Q) :
  transport_ok s -> Player.isPlaying s = true ->
  let target := clamp_seek time (Player.duration s) in
  let s' := Player.seekTo now (Num time) s in
  Player.pausedAt s' = Num target /\
  Player.currentTime s' = Num target /\
  Player.isPlaying s' = true /\
  Player.audioSource s' = Some (Player.playbackRate s) /\
  Player.animationFrame s' = true /\
  (forall later,
     same (Player.playbackPosition later s')
          (Num (target + (later - now) * Player.playbackRate s))) /\
  cursor_of s' =
    cursor_of (Player.updateCursor (Player.set_currentTime (Num target) s)) /\
  Player.audioBuffer s' = true /\
  Player.isLooping s' = Player.isLooping s /\
  Player.playbackRate s' = Player.playbackRate s.
Proof.
  intros (Hdur & Hrate & Hoff & Hbuf) Eplay target s'.
  subst s'. unfold Player.seekTo. rewrite Eplay.
  specialize (Hbuf Eplay).
  destruct (pause_playing now s Eplay)
    as (_ & _ & _ & _ & Hb1 & Hlp1 & Hd1 & Hr1 & Hsd1 & Hno1 & Htm1 & Hcur1).
  set (s1 := Player.pause now s) in *.
  rewrite Hd1, seek_clamp_Num. fold target. player_fields.
  set (s3 := Player.set_currentTime (Num target)
               (Player.set_pausedAt (Num target) s1)).
  destruct (updateCursor_keeps s3)
    as (Hb4 & _ & _ & Hlp4 & Hct4 & Hr4 & Hpa4 & _).
  set (s4 := Player.updateCursor s3) in *.
  assert (Hbuf4 : Player.audioBuffer s4 = true)
    by (rewrite Hb4; cbn; rewrite Hb1; exact Hbuf).
  assert (Hrate4 : Player.playbackRate s4 = Player.playbackRate s)
    by (rewrite Hr4; exact Hr1).
  destruct (play_started now s4 Hbuf4)
    as (Hpl & Hsrc & Haf & Hpa & Hct & Hlp).
  split; [rewrite Hpa, Hpa4; reflexivity |].
  split; [rewrite Hct, Hct4; reflexivity |].
  split; [exact Hpl |].
  split; [rewrite Hsrc, Hrate4; reflexivity |].
  split; [exact Haf |].
  split.
  { intros later. rewrite <- Hrate4. apply play_position.
    - exact Hbuf4.
    - rewrite Hrate4. exact Hrate.
    - rewrite Hpa4. reflexivity. }
  split.
  { rewrite play_cursor. apply updateCursor_cursor_ext; cbn; auto. }
  split; [| split].
  - unfold Player.play. rewrite Hbuf4. exact Hbuf4.
  - rewrite Hlp, Hlp4. exact Hlp1.
  - unfold Player.play. rewrite Hbuf4. exact Hrate4.
Qed.

(** [seekTo] while nothing plays: reposition only. *)
Lemma seekTo_idle (s : Player.state) (now time : Q) :
  Player.isPlaying s = false ->
  let target := clamp_seek time (Player.duration s) in
  let s' := Player.seekTo now (Num time) s in
  Player.pausedAt s' = Num target /\
  Player.currentTime s' = Num target /\
  Player.isPlaying s' = false /\
  cursor_of s' =
    cursor_of (Player.updateCursor (Player.set_currentTime (Num target) s)).
Proof.
  intros Eplay target s'. subst s'. unfold Player.seekTo. rewrite Eplay.
  rewrite seek_clamp_Num. fold target. player_fields.
  set (s3 := Player.set_currentTime (Num target)
               (Player.set_pausedAt (Num target) s)).
  destruct (updateCursor_keeps s3) as (_ & _ & Hpl4 & _ & Hct4 & _ & Hpa4 & _).
  split; [rewrite Hpa4; reflexivity |].
  split; [rewrite Hct4; reflexivity |].
  split; [rewrite Hpl4; exact Eplay |].
  apply updateCursor_cursor_ext; reflexivity.
Qed.

Lemma same_Num_trans (x : jsnum) (a b : Q) :
  same x (Num a) -> (a == b)%Q -> same x (Num b).
Proof.
  destruct x; cbn; try contradiction. intros H1 H2. now rewrite H1.
Qed.



(** [play] keeps the stored position and the time shown, with or without
    a buffer. *)
Lemma play_keeps (now : Q) (s : Player.state) :
  Player.pausedAt (Player.play now s) = Player.pausedAt s /\
  Player.currentTime (Player.play now s) = Player.currentTime s.
Proof. unfold Player.play. destruct (Player.audioBuffer s); split; reflexivity. Qed.

(** Without a buffer [play] does nothing. *)
Lemma play_without_buffer (now : Q) (s : Player.state) :
  Player.audioBuffer s = false -> Player.play now s = s.
Proof. intros Hbuf. unfold Player.play. now rewrite Hbuf. Qed.


(** The state [seekTo] leaves is the one of its run with the calls. *)
Lemma seekTo_traced_state (now : Q) (time : jsnum) (s : Player.state) :
  snd (Player.seekTo_traced now time s) = Player.seekTo now time s.
Proof.
  unfold Player.seekTo_traced, Player.seekTo.
  destruct (Player.isPlaying s); reflexivity.
Qed.

(** The steps of [seekTo] while the player plays, and its calls. *)
Lemma seekTo_steps_playing (s : Player.state) (now time : Q) :
  Player.isPlaying s = true ->
  let target := clamp_seek time (Player.duration s) in
  let paused := Player.pause now s in
  let moved :=
    Player.updateCursor
      (Player.set_currentTime (Num target)
         (Player.set_pausedAt (Num target) paused)) in
  Player.seekTo now (Num time) s = Player.play now moved /\
  fst (Player.seekTo_traced now (Num time) s) =
    match Player.audioSource s with
    | Some _ => [Player.StopSource]
    | None => []
    end ++
    (if Player.audioBuffer s
     then [Player.StartSource (Num target) (Player.playbackRate s)]
     else []) /\
  Player.audioBuffer moved = Player.audioBuffer s /\
  Player.playbackRate moved = Player.playbackRate s /\
  Player.pausedAt moved = Num target /\
  Player.currentTime moved = Num target /\
  Player.isPlaying moved = false /\
  Player.audioSource moved = None /\
  Player.animationFrame moved = false.
Proof.
  intros Eplay target paused moved.
  destruct (pause_playing now s Eplay)
    as (Hpl1 & Hsrc1 & Haf1 & _ & Hb1 & _ & Hd1 & Hr1 & _).
  fold paused in Hpl1, Hsrc1, Haf1, Hb1, Hd1, Hr1.
  destruct (updateCursor_keeps
              (Player.set_currentTime (Num target)
                 (Player.set_pausedAt (Num target) paused)))
    as (Hb4 & Hsrc4 & Hpl4 & _ & Hct4 & Hr4 & Hpa4 & Haf4).
  fold moved in Hb4, Hsrc4, Hpl4, Hct4, Hr4, Hpa4, Haf4.
  player_fields.
  assert (Hbuf : Player.audioBuffer moved = Player.audioBuffer s)
    by (now rewrite Hb4).
  assert (Hrate : Player.playbackRate moved = Player.playbackRate s)
    by (now rewrite Hr4).
  split.
  { unfold Player.seekTo. rewrite Eplay. fold paused.
    rewrite Hd1, seek_clamp_Num. reflexivity. }
  split.
  { unfold Player.seekTo_traced. rewrite Eplay.
    cbn [snd fst Player.pause_traced]. fold paused.
    rewrite Hd1, seek_clamp_Num. fold target. player_fields. fold moved.
    unfold Player.play_traced. cbn [fst]. rewrite Eplay. cbn [negb].
    rewrite Hbuf, Hrate, Hpa4.
    destruct (Player.audioBuffer s); reflexivity. }
  repeat (split; [congruence |]). congruence.
Qed.




(** ** End of media *)

Lemma clamp01_negative (x : Q) : (x < 0)%Q -> clamp01 x = 0%Q.
Proof.
  intros Hx. unfold clamp01. apply Qle_bool_false in Hx. now rewrite Hx.
Qed.

(** At progress [0] the cursor sits on the first tick of the bar. *)
Lemma interpolate_tick_start (barTicks : tick_range) :
  interpolate_tick barTicks (Num 0) = of_Z (start barTicks).
Proof.
  unfold interpolate_tick, of_Z, sub, neg, mul, add, Math_floor.
  do 2 f_equal.
  transitivity (Qfloor (inject_Z (start barTicks))); [| apply Qfloor_Z].
  apply Qfloor_comp. ring.
Qed.

(** Before time [0] the bar the scan starts out with has progress [0]. *)
Lemma player_bar_progress_before_start (t duration : Q) :
  (t < 0)%Q ->
  Player.bar_progress (Num t) (Player.Scan 0 0%Q duration) = Num 0.
Proof.
  intros Ht. unfold Player.bar_progress. player_fields.
  cbn [Player.nextBarTime Player.currentBarTime].
  rewrite !sub_Num, gt_Num.
  destruct (Qle_bool (duration - 0) 0) eqn:E; cbn [negb]; [reflexivity |].
  apply Qle_bool_false in E. rewrite clamp_progress_Num by lra.
  f_equal. apply clamp01_negative. apply Qlt_shift_div_r; lra.
Qed.

(** [stop()] from a playing state. *)
Lemma stop_playing (s : Player.state) (now : Q) :
  transport_ok s -> Player.isPlaying s = true ->
  let s' := Player.stop now s in
  Player.isPlaying s' = false /\
  Player.audioSource s' = None /\
  Player.animationFrame s' = false /\
  Player.pausedAt s' = Num 0 /\
  Player.currentTime s' = Num 0 /\
  Player.currentBarText s' = 1 /\
  forall first rest,
    Player.syncData s = Some (first :: rest) -> (0 <= time first)%Q ->
    Player.currentBar s' = bar first /\
    forall barTicks,
      Player.barTickMap s !! bar first = Some barTicks ->
      Player.tickPosition s' = of_Z (start barTicks).
Proof.
  intros (Hdur & Hrate & Hoff & Hbuf) Eplay s'. subst s'.
  unfold Player.stop.
  destruct (pause_playing now s Eplay)
    as (Hpl1 & Hsrc1 & Haf1 & _ & _ & _ & Hd1 & _ & Hsd1 & Hno1 & Htm1 & _).
  set (s1 := Player.pause now s) in *.
  set (s4 := Player.set_currentBar 0
               (Player.set_currentTime (Num 0)
                  (Player.set_pausedAt (Num 0) s1))).
  destruct (updateCursor_keeps s4)
    as (_ & Hsrc5 & Hpl5 & _ & Hct5 & _ & Hpa5 & Haf5).
  player_fields.
  split; [rewrite Hpl5; exact Hpl1 |].
  split; [rewrite Hsrc5; exact Hsrc1 |].
  split; [rewrite Haf5; exact Haf1 |].
  split; [rewrite Hpa5; reflexivity |].
  split; [rewrite Hct5; reflexivity |].
  split; [reflexivity |].
  intros first rest Hsync Hfirst.
  assert (Hbefore : (0 + Player.notationOffset s1 < time first)%Q)
    by (rewrite Hno1; lra).
  assert (Hscan : Player.find_bar
                    (add (Player.currentTime s4) (Num (Player.notationOffset s4)))
                    (Player.duration s4) (first :: rest) =
                  Player.Scan 0 0%Q (Player.duration s1)).
  { cbn [s4 Player.currentTime Player.notationOffset Player.duration
         Player.set_currentBar Player.set_currentTime Player.set_pausedAt add].
    now rewrite player_find_bar_before_first. }
  assert (Hsync4 : Player.syncData s4 = Some (first :: rest))
    by (cbn; rewrite Hsd1; exact Hsync).
  destruct (updateCursor_selected s4 (first :: rest) first Hsync4)
    as (Hbar & _ & Htick).
  { rewrite Hscan. reflexivity. }
  split; [exact Hbar |].
  intros barTicks Hlookup. rewrite Htick, Hscan.
  cbn [s4 Player.barTickMap Player.set_currentBar Player.set_currentTime
       Player.set_pausedAt].
  rewrite Htm1, Hlookup.
  cbn [s4 Player.currentTime Player.notationOffset
       Player.set_currentBar Player.set_currentTime Player.set_pausedAt add].
  rewrite player_bar_progress_before_start by (rewrite Hno1; lra).
  apply interpolate_tick_start.
Qed.

(** C6: when the audio source ends while the player plays, a looping
    player seeks to time 0 and plays on from there (stored position and
    time shown are 0, a fresh source runs, the cursor is the one resolved
    at time 0); a player that does not loop stops: nothing plays, the
    stored position and the time shown are 0, the bar indicator reads 1,
    and with markers loaded (times are not negative) the current bar is the
    first marker's, bar 1 for markers recorded in the editor, and the
    renderer cursor is on the first tick of that bar. *)
Theorem end_of_media (s : Player.state) (now : Q) :
  transport_ok s -> Player.isPlaying s = true ->
  let s' := Player.onended now s in
  (Player.isLooping s = true ->
   Player.isPlaying s' = true /\
   Player.isLooping s' = true /\
   Player.pausedAt s' = Num 0 /\
   Player.currentTime s' = Num 0 /\
   Player.audioSource s' = Some (Player.playbackRate s) /\
   Player.animationFrame s' = true /\
   same (Player.playbackPosition now s') (Num 0) /\
   cursor_of s' =
     cursor_of (Player.updateCursor (Player.set_currentTime (Num 0) s))) /\
  (Player.isLooping s = false ->
   Player.isPlaying s' = false /\
   Player.audioSource s' = None /\
   Player.animationFrame s' = false /\
   Player.pausedAt s' = Num 0 /\
   Player.currentTime s' = Num 0 /\
   Player.currentBarText s' = 1 /\
   forall first rest,
     Player.syncData s = Some (first :: rest) -> (0 <= time first)%Q ->
     Player.currentBar s' = bar first /\
     forall barTicks,
       Player.barTickMap s !! bar first = Some barTicks ->
       Player.tickPosition s' = of_Z (start barTicks)).
Proof.
  intros Hok Eplay s'. subst s'. unfold Player.onended. rewrite Eplay.
  split; intros Eloop; rewrite Eloop.
  - destruct (seekTo_playing s now 0 Hok Eplay)
      as (Hpa & Hct & _ & _ & _ & _ & Hcur & Hbuf & Hlp & Hr).
    destruct Hok as (Hdur & Hrate & _).
    rewrite (clamp_seek_zero _ Hdur) in Hpa, Hct, Hcur.
    set (s2 := Player.seekTo now (Num 0) s) in *.
    destruct (play_started now s2 Hbuf) as (Hpl' & Hsrc' & Haf' & Hpa' & Hct' & Hlp').
    split; [exact Hpl' |].
    split; [rewrite Hlp', Hlp; exact Eloop |].
    split; [rewrite Hpa'; exact Hpa |].
    split; [rewrite Hct'; exact Hct |].
    split; [rewrite Hsrc', Hr; reflexivity |].
    split; [exact Haf' |].
    split; [| rewrite play_cursor; exact Hcur].
    apply (same_Num_trans _ (0 + (now - now) * Player.playbackRate s2));
      [| ring].
    apply play_position; [exact Hbuf | rewrite Hr; exact Hrate | exact Hpa].
  - exact (stop_playing s now Hok Eplay).
Qed.

Lemma end_of_media_witness :
  let s := playing_player four_bars 8 100 in
  let looping := Player.toggleLoop s in
  transport_ok s /\ Player.isPlaying s = true /\
  (Player.isPlaying (Player.onended 108 looping) = true /\
   Player.pausedAt (Player.onended 108 looping) = Num 0) /\
  (Player.isPlaying (Player.onended 108 s) = false /\
   Player.pausedAt (Player.onended 108 s) = Num 0 /\
   cursor_of (Player.onended 108 s) = (1, 1, of_Z 0)).
Proof.
  cbn zeta.
  assert (Hok : transport_ok (playing_player four_bars 8 100)).
  { unfold transport_ok; cbn. repeat split; lra. }
  split; [exact Hok |]. split; [reflexivity |].
  destruct (end_of_media _ 108 (toggleLoop_transport_ok _ Hok) eq_refl)
    as [Hloop _].
  destruct (end_of_media _ 108 Hok eq_refl) as [_ Hstop].
  destruct (Hloop eq_refl) as (Hpl & _ & Hpa & _).
  destruct (Hstop eq_refl) as (Hpl' & _ & _ & Hpa' & _ & Htext & Hcursor).
  destruct (Hcursor (Marker 1 0) _ eq_refl) as [Hbar Htick]; [cbn; lra |].
  split; [split; [exact Hpl | exact Hpa] |].
  split; [exact Hpl' |]. split; [exact Hpa' |].
  unfold cursor_of. rewrite Hbar, Htext, (Htick (TickRange 0 3840) eq_refl).
  reflexivity.
Defined.

(** ** The recording session *)

(** Reads the fields of a constructed editor state. *)
Ltac editor_fields :=
  cbn [Editor.wavesurfer Editor.score Editor.alphaTab Editor.beatMarkers
       Editor.currentBarToMark Editor.totalBars Editor.barTickMap
       Editor.playbackSpeed Editor.lastSyncedBar Editor.lastTick
       Editor.tickPosition Editor.autoSaveTimeout
       Editor.set_wavesurfer Editor.set_beatMarkers
       Editor.set_currentBarToMark Editor.set_playbackSpeed
       Editor.set_lastSyncedBar Editor.set_lastTick Editor.set_tickPosition
       Editor.set_autoSaveTimeout negb andb orb] in *.

(** Scrolling and arming the auto-save timer change the renderer cursor
    and the timer, nothing else. *)
Lemma scrollToBar_frame (barNumber : Z) (s : Editor.state) :
  exists tick, Editor.scrollToBar barNumber s = Editor.set_tickPosition tick s.
Proof.
  destruct s as [ws sco at_ ms cbm tb tm ps lsb lt_ tp ast].
  unfold Editor.scrollToBar; editor_fields.
  destruct at_; cbn [negb]; [| now exists tp].
  destruct (tm !! barNumber) as [barTicks |]; [| now exists tp].
  now exists (of_Z (start barTicks)).
Qed.

Lemma scheduleAutoSave_frame (s : Editor.state) :
  exists timer, Editor.scheduleAutoSave s = Editor.set_autoSaveTimeout timer s.
Proof.
  destruct s as [ws sco at_ ms cbm tb tm ps lsb lt_ tp ast].
  unfold Editor.scheduleAutoSave; editor_fields.
  destruct (_ || _); [now exists ast | now exists true].
Qed.

(** A tap that is let through appends the marker of the next bar, moves
    on to the bar after it, and may scroll and arm the timer. *)
Lemma recordBeatMarker_enabled (currentTime : Q) (s : Editor.state) :
  is_Some (Editor.wavesurfer s) -> Editor.score s = true ->
  Editor.currentBarToMark s <= Editor.totalBars s ->
  exists tick timer,
    Editor.recordBeatMarker currentTime s =
    Editor.set_autoSaveTimeout timer
      (Editor.set_tickPosition tick
         (Editor.set_currentBarToMark (Editor.currentBarToMark s + 1)
            (Editor.set_beatMarkers
               (Editor.beatMarkers s ++
                  [Marker (Editor.currentBarToMark s) currentTime]) s))).
Proof.
  intros Hws Hscore Hnext. unfold Editor.recordBeatMarker.
  rewrite (bool_decide_eq_true_2 _ Hws), Hscore. cbn [negb orb].
  assert (E : (Editor.totalBars s <? Editor.currentBarToMark s) = false)
    by (apply Z.ltb_ge; exact Hnext).
  rewrite E. cbn zeta.
  match goal with
  | |- context [Editor.scrollToBar ?b ?x] =>
      destruct (scrollToBar_frame b x) as [tick ->]
  end.
  match goal with
  | |- context [Editor.scheduleAutoSave ?x] =>
      destruct (scheduleAutoSave_frame x) as [timer ->]
  end.
  now exists tick, timer.
Qed.

(** A tap that is not let through does nothing at all. *)
Lemma recordBeatMarker_complete (currentTime : Q) (s : Editor.state) :
  Editor.totalBars s < Editor.currentBarToMark s ->
  Editor.recordBeatMarker currentTime s = s.
Proof.
  intros Hdone. unfold Editor.recordBeatMarker.
  destruct (_ || _); [reflexivity |].
  apply Z.ltb_lt in Hdone. now rewrite Hdone.
Qed.

Lemma undoLastMarker_empty (s : Editor.state) :
  Editor.beatMarkers s = [] -> Editor.undoLastMarker s = s.
Proof. intros Hempty. unfold Editor.undoLastMarker. now rewrite Hempty. Qed.

Lemma undoLastMarker_nonempty (s : Editor.state) (ms : list marker)
    (m : marker) :
  Editor.beatMarkers s = ms ++ [m] ->
  exists timer,
    Editor.undoLastMarker s =
    Editor.set_autoSaveTimeout timer
      (Editor.set_currentBarToMark (Editor.currentBarToMark s - 1)
         (Editor.set_beatMarkers ms s)).
Proof.
  intros Hms. unfold Editor.undoLastMarker. rewrite Hms.
  rewrite length_app, Nat.add_1_r. cbn [Nat.eqb]. rewrite removelast_last.
  cbn zeta.
  match goal with
  | |- context [Editor.scheduleAutoSave ?x] =>
      destruct (scheduleAutoSave_frame x) as [timer ->]
  end.
  now exists timer.
Qed.

(** A tap that is not let through (no waveform engine, no score, or no
    bar left to mark) does nothing at all. *)
Lemma recordBeatMarker_refused (currentTime : Q) (s : Editor.state) :
  Editor.wavesurfer s = None \/ Editor.score s = false \/
  Editor.totalBars s < Editor.currentBarToMark s ->
  Editor.recordBeatMarker currentTime s = s.
Proof.
  intros [Hws | [Hscore | Hdone]].
  - unfold Editor.recordBeatMarker. rewrite Hws.
    rewrite bool_decide_eq_false_2 by (intros [x Hx]; discriminate Hx).
    reflexivity.
  - unfold Editor.recordBeatMarker. rewrite Hscore.
    now rewrite orb_true_r.
  - now apply recordBeatMarker_complete.
Qed.

(** C7 as stated fails.  A session that has marked all four bars of its
    score refuses the tap (the key [T] still reaches [recordBeatMarker]),
    and the undo that follows takes away the marker of bar 4, which was
    there before the tap: the marker list and the counter are not the
    prior ones. *)
Lemma tap_then_undo_counterexample :
  ~ (forall (s : Editor.state) (currentTime : Q),
       Editor.beatMarkers
         (Editor.undoLastMarker (Editor.recordBeatMarker currentTime s))
         = Editor.beatMarkers s /\
       Editor.currentBarToMark
         (Editor.undoLastMarker (Editor.recordBeatMarker currentTime s))
         = Editor.currentBarToMark s) /\
  Editor.beatMarkers
    (Editor.taps [0; 2; 41 # 10; 6]%Q (loaded_editor [])) = four_bars /\
  Editor.recordBeatMarker 7
    (Editor.taps [0; 2; 41 # 10; 6]%Q (loaded_editor []))
  = Editor.taps [0; 2; 41 # 10; 6]%Q (loaded_editor []) /\
  Editor.beatMarkers
    (Editor.undoLastMarker
       (Editor.recordBeatMarker 7
          (Editor.taps [0; 2; 41 # 10; 6]%Q (loaded_editor []))))
  = [Marker 1 0; Marker 2 2; Marker 3 (41 # 10)] /\
  Editor.currentBarToMark
    (Editor.undoLastMarker
       (Editor.recordBeatMarker 7
          (Editor.taps [0; 2; 41 # 10; 6]%Q (loaded_editor [])))) = 4.
Proof.
  split;
    [| repeat match goal with |- _ /\ _ => split end; vm_compute; reflexivity].
  intros Hclaim.
  destruct (Hclaim (Editor.taps [0; 2; 41 # 10; 6]%Q (loaded_editor [])) 7%Q)
    as [Hms _].
  vm_compute in Hms. discriminate Hms.
Qed.

(** C7, amended: in a state where the tap is let through (waveform engine
    and score loaded, a bar left to mark) the tap appends the marker of the
    current bar at the current audio time and moves the counter on by one,
    and undoing it at once gives back the state before the tap, with the
    same marker list and the same counter; only the renderer cursor (the
    tap scrolled to the next bar) and the auto-save timer may differ.  In
    every other state the tap changes nothing, so that the undo after it
    is the undo of the state before: it takes away the last marker that
    was there.  Undo on an empty marker list changes nothing. *)
Theorem tap_then_undo (s : Editor.state) (currentTime : Q) :
  let tapped := Editor.recordBeatMarker currentTime s in
  let undone := Editor.undoLastMarker tapped in
  (is_Some (Editor.wavesurfer s) -> Editor.score s = true ->
   Editor.currentBarToMark s <= Editor.totalBars s ->
   (Editor.beatMarkers tapped =
      Editor.beatMarkers s ++ [Marker (Editor.currentBarToMark s) currentTime] /\
    Editor.currentBarToMark tapped = Editor.currentBarToMark s + 1) /\
   (Editor.beatMarkers undone = Editor.beatMarkers s /\
    Editor.currentBarToMark undone = Editor.currentBarToMark s /\
    exists tick timer,
      undone = Editor.set_autoSaveTimeout timer (Editor.set_tickPosition tick s))) /\
  (Editor.wavesurfer s = None \/ Editor.score s = false \/
   Editor.totalBars s < Editor.currentBarToMark s ->
   tapped = s /\ undone = Editor.undoLastMarker s /\
   forall ms m, Editor.beatMarkers s = ms ++ [m] ->
     Editor.beatMarkers undone = ms /\
     Editor.currentBarToMark undone = Editor.currentBarToMark s - 1) /\
  (forall s0, Editor.beatMarkers s0 = [] -> Editor.undoLastMarker s0 = s0).
Proof.
  intros tapped undone.
  split; [| split; [| exact undoLastMarker_empty]].
  - intros Hws Hscore Hnext.
    destruct (recordBeatMarker_enabled currentTime s Hws Hscore Hnext)
      as (tick & timer & Htap).
    assert (Hms : Editor.beatMarkers tapped =
              Editor.beatMarkers s ++
                [Marker (Editor.currentBarToMark s) currentTime])
      by (unfold tapped; rewrite Htap; reflexivity).
    assert (Hcount : Editor.currentBarToMark tapped
                     = Editor.currentBarToMark s + 1)
      by (unfold tapped; rewrite Htap; reflexivity).
    destruct (undoLastMarker_nonempty tapped _ _ Hms) as (timer' & Hundo).
    assert (Hback : undone =
              Editor.set_autoSaveTimeout timer' (Editor.set_tickPosition tick s)).
    { unfold undone. rewrite Hundo, Hcount. unfold tapped. rewrite Htap.
      destruct s as [ws sco at_ ms cbm tb tm ps lsb lt_ tp ast]. editor_fields.
      unfold Editor.set_autoSaveTimeout, Editor.set_currentBarToMark,
        Editor.set_beatMarkers; editor_fields.
      f_equal. lia. }
    split; [split; assumption |].
    rewrite Hback. split; [reflexivity |]. split; [reflexivity |].
    now exists tick, timer'.
  - intros Hrefused.
    assert (Htap : tapped = s)
      by (unfold tapped; now apply recordBeatMarker_refused).
    split; [exact Htap |].
    assert (Hundone : undone = Editor.undoLastMarker s)
      by (unfold undone; now rewrite Htap).
    split; [exact Hundone |].
    intros ms m Hms. rewrite Hundone.
    destruct (undoLastMarker_nonempty s ms m Hms) as (timer & ->).
    split; reflexivity.
Qed.

Lemma tap_then_undo_witness :
  let s := loaded_editor [Marker 1 0; Marker 2 2] in
  let undone := Editor.undoLastMarker (Editor.recordBeatMarker (41 # 10) s) in
  (is_Some (Editor.wavesurfer s) /\ Editor.score s = true /\
   Editor.currentBarToMark s <= Editor.totalBars s) /\
  Editor.beatMarkers (Editor.recordBeatMarker (41 # 10) s) =
    [Marker 1 0; Marker 2 2; Marker 3 (41 # 10)] /\
  Editor.beatMarkers undone = [Marker 1 0; Marker 2 2] /\
  Editor.currentBarToMark undone = 3.
Proof.
  cbn zeta.
  assert (Hws : is_Some (Editor.wavesurfer (loaded_editor [Marker 1 0; Marker 2 2])))
    by (now exists 1%Q).
  assert (Hnext : Editor.currentBarToMark (loaded_editor [Marker 1 0; Marker 2 2])
                  <= Editor.totalBars (loaded_editor [Marker 1 0; Marker 2 2]))
    by (vm_compute; discriminate).
  split; [split; [exact Hws | split; [reflexivity | exact Hnext]] |].
  destruct (tap_then_undo (loaded_editor [Marker 1 0; Marker 2 2]) (41 # 10))
    as (Hlet & _ & _).
  destruct (Hlet Hws eq_refl Hnext) as ([Htap _] & (Hms & Hcount & _)).
  split; [exact Htap |]. split; [exact Hms | exact Hcount].
Defined.

(** C8: once every bar is marked (the next bar to mark lies beyond the
    last bar) a tap changes nothing, however often it is repeated: the
    marker list, its length and the counter stay as they are until an
    undo or a clear makes room. *)
Theorem tap_when_complete (s : Editor.state) (times : list Q) :
  Editor.totalBars s < Editor.currentBarToMark s ->
  Editor.taps times s = s /\
  length (Editor.beatMarkers (Editor.taps times s)) =
    length (Editor.beatMarkers s) /\
  Editor.currentBarToMark (Editor.taps times s) = Editor.currentBarToMark s.
Proof.
  intros Hdone.
  assert (Hsame : Editor.taps times s = s).
  { unfold Editor.taps, Editor.run.
    induction times as [| t times IH]; [reflexivity |].
    cbn [map fold_left Editor.step].
    rewrite recordBeatMarker_complete by exact Hdone. exact IH. }
  rewrite Hsame. auto.
Qed.

Lemma tap_when_complete_witness :
  let s := loaded_editor four_bars in
  Editor.totalBars s < Editor.currentBarToMark s /\
  Editor.taps [7; (15 # 2); 8]%Q s = s.
Proof.
  cbn zeta.
  assert (Hdone : Editor.totalBars (loaded_editor four_bars)
                  < Editor.currentBarToMark (loaded_editor four_bars))
    by (vm_compute; reflexivity).
  split; [exact Hdone |].
  exact (proj1 (tap_when_complete _ [7; (15 # 2); 8]%Q Hdone)).
Defined.

(** An undo in a complete session makes room for the next tap. *)
Lemma undo_makes_room (s : Editor.state) (ms : list marker) (m : marker) :
  Editor.beatMarkers s = ms ++ [m] ->
  Editor.currentBarToMark s = Editor.totalBars s + 1 ->
  Editor.currentBarToMark (Editor.undoLastMarker s)
  <= Editor.totalBars (Editor.undoLastMarker s).
Proof.
  intros Hms Hfull.
  destruct (undoLastMarker_nonempty s ms m Hms) as (timer & ->).
  cbn. lia.
Qed.

(** The numbering is kept by each operation of the session. *)
Lemma numbered_from_one_append (s : Editor.state) (t : Q) (tick : jsnum)
    (timer : bool) :
  numbered_from_one s ->
  numbered_from_one
    (Editor.set_autoSaveTimeout timer
       (Editor.set_tickPosition tick
          (Editor.set_currentBarToMark (Editor.currentBarToMark s + 1)
             (Editor.set_beatMarkers
                (Editor.beatMarkers s ++ [Marker (Editor.currentBarToMark s) t])
                s)))).
Proof.
  intros [Hbars Hnext]. unfold numbered_from_one; editor_fields.
  rewrite map_app, length_app, Hbars. cbn [map length bar].
  rewrite Nat.add_1_r, seq_S, map_app. cbn [map].
  split; [| lia].
  f_equal. f_equal. lia.
Qed.

Lemma numbered_from_one_remove (s : Editor.state) (ms : list marker)
    (m : marker) (timer : bool) :
  Editor.beatMarkers s = ms ++ [m] ->
  numbered_from_one s ->
  numbered_from_one
    (Editor.set_autoSaveTimeout timer
       (Editor.set_currentBarToMark (Editor.currentBarToMark s - 1)
          (Editor.set_beatMarkers ms s))).
Proof.
  intros Hms [Hbars Hnext]. unfold numbered_from_one; editor_fields.
  rewrite Hms in Hbars, Hnext.
  rewrite map_app, length_app, Nat.add_1_r, seq_S, map_app in Hbars.
  rewrite length_app, Nat.add_1_r in Hnext.
  apply app_inj_tail in Hbars as [Hbars _].
  split; [exact Hbars | lia].
Qed.

Lemma step_numbered_from_one (s : Editor.state) (o : Editor.op) :
  numbered_from_one s -> numbered_from_one (Editor.step s o).
Proof.
  intros Hinv. destruct o as [t | | confirmed]; cbn [Editor.step].
  - destruct (bool_decide (is_Some (Editor.wavesurfer s))) eqn:Ews.
    + apply bool_decide_eq_true in Ews.
      destruct (Editor.score s) eqn:Escore.
      * destruct (Z.le_gt_cases (Editor.currentBarToMark s) (Editor.totalBars s))
          as [Hroom | Hdone].
        -- destruct (recordBeatMarker_enabled t s Ews Escore Hroom)
             as (tick & timer & ->).
           now apply numbered_from_one_append.
        -- now rewrite recordBeatMarker_complete.
      * unfold Editor.recordBeatMarker. rewrite Escore.
        now rewrite orb_true_r.
    + unfold Editor.recordBeatMarker. now rewrite Ews.
  - destruct (Editor.beatMarkers s) as [| m0 ms0] eqn:Ems using rev_ind.
    + now rewrite undoLastMarker_empty.
    + destruct (undoLastMarker_nonempty s _ _ Ems) as (timer & ->).
      now apply (numbered_from_one_remove s ms0 m0).
  - unfold Editor.clearAllMarkers.
    destruct (length (Editor.beatMarkers s) =? 0)%nat; [exact Hinv |].
    destruct confirmed; cbn [negb]; [| exact Hinv].
    cbn zeta.
    match goal with
    | |- context [Editor.scheduleAutoSave ?x] =>
        destruct (scheduleAutoSave_frame x) as [timer ->]
    end.
    unfold numbered_from_one; editor_fields. split; reflexivity.
Qed.

(** Numbered markers have strictly increasing bars. *)
Lemma numbered_bars_increasing (k : nat) (ms : list marker) :
  map bar ms = map Z.of_nat (seq k (length ms)) -> bars_increasing ms.
Proof.
  revert k. induction ms as [| m rest IH]; intros k Hbars; [exact I |].
  cbn in Hbars. injection Hbars as Hm Hrest.
  split; [| exact (IH (S k) Hrest)].
  destruct rest as [| next rest']; [exact I |].
  cbn in Hrest. injection Hrest as Hnext _. lia.
Qed.

(** The times, though, are whatever the audio position was at each tap:
    after a seek backwards a later bar gets an earlier time. *)
Example taps_after_seeking_back :
  Editor.beatMarkers (Editor.taps [5; 1]%Q (loaded_editor [])) =
    [Marker 1 5; Marker 2 1] /\
  ~ times_nondecreasing [Marker 1 5; Marker 2 1].
Proof.
  split; [reflexivity |]. cbn. intros [H _]. lra.
Qed.

(** C10: from a state without markers whose next bar to mark is 1, every
    finite sequence of taps, undos and clears (confirmed or not) leaves
    markers whose bar numbers are exactly 1, 2, ..., count in insertion
    order, with the next bar to mark equal to the count plus one. *)
Theorem session_numbers_bars (s : Editor.state) (ops : list Editor.op) :
  Editor.beatMarkers s = [] -> Editor.currentBarToMark s = 1 ->
  let s' := Editor.run ops s in
  map bar (Editor.beatMarkers s') =
    map Z.of_nat (seq 1 (length (Editor.beatMarkers s'))) /\
  Editor.currentBarToMark s' = Z.of_nat (length (Editor.beatMarkers s')) + 1.
Proof.
  intros Hempty Hone.
  assert (Hstart : numbered_from_one s).
  { unfold numbered_from_one. rewrite Hempty, Hone. split; reflexivity. }
  clear Hempty Hone. cbn zeta. fold (numbered_from_one (Editor.run ops s)).
  revert s Hstart. unfold Editor.run.
  induction ops as [| o ops IH]; intros s Hinv; [exact Hinv |].
  cbn [fold_left]. apply IH, step_numbered_from_one, Hinv.
Qed.

Lemma session_numbers_bars_witness :
  let s := loaded_editor [] in
  let ops :=
    [Editor.Tap 0; Editor.Tap 2; Editor.Undo; Editor.Tap (21 # 10);
     Editor.Clear false; Editor.Tap (41 # 10)]%Q in
  (Editor.beatMarkers s = [] /\ Editor.currentBarToMark s = 1) /\
  Editor.beatMarkers (Editor.run ops s) =
    [Marker 1 0; Marker 2 (21 # 10); Marker 3 (41 # 10)] /\
  (map bar (Editor.beatMarkers (Editor.run ops s)) =
     map Z.of_nat (seq 1 (length (Editor.beatMarkers (Editor.run ops s)))) /\
   Editor.currentBarToMark (Editor.run ops s) =
     Z.of_nat (length (Editor.beatMarkers (Editor.run ops s))) + 1).
Proof.
  cbn zeta. split; [split; reflexivity |]. split; [reflexivity |].
  apply session_numbers_bars; reflexivity.
Defined.

(** ** Tempo *)

(** C9 as stated fails: neither slider handler rejects a rate.  With the
    slider at 0 or at a negative value the player stores that rate and
    writes it to the running audio source, and the editor hands it to the
    waveform engine. *)
Lemma nonpositive_rate_is_applied :
  ~ (forall (value : Z) (s : Player.state),
       value <= 0 ->
       Player.audioSource (Player.tempoSliderInput value s) =
       Player.audioSource s) /\
  ~ (forall (value : Z) (s : Editor.state),
       value <= 0 ->
       Editor.wavesurfer (Editor.speedSliderInput value s) =
       Editor.wavesurfer s) /\
  Player.audioSource (playing_player four_bars 8 100) = Some 1%Q /\
  Player.audioSource
    (Player.tempoSliderInput 0 (playing_player four_bars 8 100)) =
    Some (0 / 100)%Q /\
  Player.playbackRate
    (Player.tempoSliderInput (-50) (playing_player four_bars 8 100)) =
    (inject_Z (-50) / 100)%Q /\
  Editor.wavesurfer (Editor.speedSliderInput (-50) (loaded_editor four_bars)) =
    Some (inject_Z (-50) / 100)%Q.
Proof.
  split; [| split; [| repeat split]].
  - intros Hclaim.
    specialize (Hclaim 0 (playing_player four_bars 8 100) (Z.le_refl 0)).
    discriminate Hclaim.
  - intros Hclaim.
    specialize (Hclaim (-50) (loaded_editor four_bars)).
    cbn in Hclaim. specialize (Hclaim ltac:(lia)). discriminate Hclaim.
Qed.

(** C9, amended: for every slider value, positive or not, the handler
    stores the value divided by 100 as the playback rate and, when there is
    an audio source (player) or a waveform engine (editor), applies it to
    the engine at once; no rate is turned down, so a value that is not
    positive leaves a rate that is not positive. *)
Theorem slider_sets_rate (value : Z) :
  let rate := (inject_Z value / 100)%Q in
  (forall s : Player.state,
     let s' := Player.tempoSliderInput value s in
     Player.playbackRate s' = rate /\
     Player.audioSource s' =
       match Player.audioSource s with
       | Some _ => Some rate
       | None => None
       end /\
     (value <= 0 -> (Player.playbackRate s' <= 0)%Q)) /\
  (forall s : Editor.state,
     let s' := Editor.speedSliderInput value s in
     Editor.playbackSpeed s' = rate /\
     Editor.wavesurfer s' =
       match Editor.wavesurfer s with
       | Some _ => Some rate
       | None => None
       end /\
     (value <= 0 -> (Editor.playbackSpeed s' <= 0)%Q)).
Proof.
  intros rate.
  assert (Hneg : value <= 0 -> (rate <= 0)%Q).
  { intros Hv. unfold rate. apply Qle_shift_div_r; [reflexivity |].
    rewrite Qmult_0_l. replace 0%Q with (inject_Z 0) by reflexivity.
    now rewrite <- Zle_Qle. }
  split; intros s s'; subst s'.
  - unfold Player.tempoSliderInput; player_fields.
    destruct (Player.audioSource s) eqn:E; cbn; rewrite ?E;
      (split; [reflexivity | split; [reflexivity | exact Hneg]]).
  - unfold Editor.speedSliderInput; editor_fields.
    destruct (Editor.wavesurfer s) eqn:E; cbn; rewrite ?E;
      (split; [reflexivity | split; [reflexivity | exact Hneg]]).
Qed.

(** Loading markers, audio of a sensible length and a score keeps the
    player in a state the transport theorems apply to. *)
Lemma loading_transport_ok (markers : option (list marker)) (duration : Q)
    (masterBars : list tick_range) (s : Player.state) :
  (0 <= duration)%Q -> transport_ok s ->
  transport_ok
    (Player.buildBarTickMap masterBars
       (Player.onAudioDecoded duration (Player.loadSyncFile markers s))).
Proof.
  intros Hd (_ & Hrate & Hoff & _). unfold transport_ok; cbn. auto.
Qed.

(** The player starts out in a state the transport theorems apply to. *)
Lemma new_SyncedPlayer_transport_ok : transport_ok Player.new_SyncedPlayer.
Proof. unfold transport_ok; cbn. repeat split; (lra || discriminate). Qed.

(** With the tempo slider at 0 the rate is applied all the same, and the
    next [play()] divides the stored position by it: the start time, the
    time shown and the renderer cursor all become NaN. *)
Example zero_rate_poisons_the_clock :
  let s := Player.play 100
             (Player.tempoSliderInput 0 (loaded_player four_bars 8 0)) in
  Player.audioSource s = Some (0 / 100)%Q /\
  Player.startedAt s = NaN /\
  Player.currentTime (Player.update 101 s) = NaN /\
  Player.tickPosition (Player.update 101 s) = NaN.
Proof. cbn zeta. repeat split; vm_compute; reflexivity. Qed.

(** * Further properties of the player *)

(** ** Bar stepping *)

(** The first element [List.find] accepts, with what it passed over. *)
Lemma find_first {A : Type} (f : A -> bool) (l : list A) (x : A) :
  List.find f l = Some x <->
  exists l1 l2, l = l1 ++ x :: l2 /\ Forall (fun y => f y = false) l1 /\ f x = true.
Proof.
  split.
  - induction l as [| y l IH]; [discriminate |]. cbn.
    destruct (f y) eqn:Ey.
    + intros [= ->]. exists [], l. repeat split; [constructor | exact Ey].
    + intros Hfind. destruct (IH Hfind) as (l1 & l2 & -> & Hall & Hx).
      exists (y :: l1), l2. repeat split; [constructor; assumption | exact Hx].
  - intros (l1 & l2 & -> & Hall & Hx).
    induction Hall as [| y l1 Hy _ IH]; cbn; [now rewrite Hx | now rewrite Hy].
Qed.


(** What [seekTo] leaves, playing or not. *)
Lemma seekTo_result (s : Player.state) (now time : Q) :
  transport_ok s ->
  let target := clamp_seek time (Player.duration s) in
  let s' := Player.seekTo now (Num time) s in
  Player.currentTime s' = Num target /\
  Player.pausedAt s' = Num target /\
  Player.isPlaying s' = Player.isPlaying s /\
  cursor_of s' =
    cursor_of (Player.updateCursor (Player.set_currentTime (Num target) s)).
Proof.
  intros Hok target s'. destruct (Player.isPlaying s) eqn:Eplay.
  - destruct (seekTo_playing s now time Hok Eplay)
      as (Hpa & Hct & Hpl & _ & _ & _ & Hcur & _).
    repeat split; assumption.
  - destruct (seekTo_idle s now time Eplay) as (Hpa & Hct & Hpl & Hcur).
    repeat split; assumption.
Qed.







(** X3: stepping to a marker shows the bar before it.  [nextBar] stores
    the marker's own time, and [updateCursor] resolves at that time plus
    the notation offset, which is negative: in a list with non-decreasing
    times, when the marker stepped to is [later] and the one before it,
    [earlier], lies at least the offset behind, the bar shown after the
    step is [earlier]'s. *)
Theorem nextBar_shows_earlier_bar
    (s : Player.state) (before after : list marker) (earlier later : marker)
    (now c : Q) :
  transport_ok s ->
  Player.syncData s = Some (before ++ earlier :: later :: after) ->
  times_nondecreasing (before ++ earlier :: later :: after) ->
  Player.currentTime s = Num c ->
  (time earlier <= c + (1 # 10))%Q -> (c + (1 # 10) < time later)%Q ->
  (0 <= time later)%Q -> (time later <= Player.duration s)%Q ->
  (time earlier <= time later + Player.notationOffset s)%Q ->
  Player.currentTime (Player.nextBar now s) = Num (time later) /\
  Player.currentBar (Player.nextBar now s) = bar earlier.
Proof.
  intros Hok Hsync Hsorted Htime Hearlier Hlater H0 Hdur Hgap.
  set (markers := before ++ earlier :: later :: after) in *.
  assert (Hfind :
    List.find (fun m => gt (Num (time m)) (add (Player.currentTime s) (Num (1 # 10))))
      markers = Some later).
  { apply find_first. exists (before ++ [earlier]), after.
    rewrite Htime. cbn [add]. repeat split.
    - unfold markers. now rewrite <- app_assoc.
    - apply Forall_app. split.
      + eapply Forall_impl; [exact (times_nondecreasing_before _ _ _ Hsorted) |].
        intros x Hx. cbn beta in *. rewrite gt_Num, negb_false_iff.
        apply Qle_bool_iff. lra.
      + constructor; [| constructor].
        rewrite gt_Num, negb_false_iff. now apply Qle_bool_iff.
    - rewrite gt_Num, negb_true_iff. now apply Qle_bool_false. }
  unfold Player.nextBar. rewrite Hsync, Hfind.
  destruct (seekTo_result s now (time later) Hok) as (Hct & _ & _ & Hcur).
  rewrite (clamp_seek_inside _ _ H0 Hdur) in Hct, Hcur.
  split; [exact Hct |].
  change (Player.currentBar (Player.seekTo now (Num (time later)) s))
    with (fst (fst (cursor_of (Player.seekTo now (Num (time later)) s)))).
  rewrite Hcur. cbn [cursor_of fst].
  set (s1 := Player.set_currentTime (Num (time later)) s).
  destruct Hok as (_ & _ & Hoff & _).
  apply (updateCursor_selected s1 markers earlier Hsync).
  cbn [s1 Player.currentTime Player.notationOffset Player.duration
       Player.set_currentTime add].
  unfold markers. rewrite player_find_bar_between; [| assumption | lra | lra].
  cbn [Player.currentBarIndex].
  rewrite nth_error_app2 by lia. now rewrite Nat.sub_diag.
Qed.

Lemma nextBar_shows_earlier_bar_witness :
  let s := loaded_player four_bars 8 (21 # 10) in
  transport_ok s /\
  Player.currentTime (Player.nextBar 0 s) = Num (41 # 10) /\
  Player.currentBar (Player.nextBar 0 s) = 2.
Proof.
  cbn zeta.
  assert (Hok : transport_ok (loaded_player four_bars 8 (21 # 10))).
  { unfold transport_ok; cbn. repeat split; (lra || discriminate). }
  split; [exact Hok |].
  apply (nextBar_shows_earlier_bar _ [Marker 1 0] [Marker 4 6]
           (Marker 2 2) (Marker 3 (41 # 10)) 0 (21 # 10) Hok eq_refl);
    cbn; (lra || reflexivity).
Defined.

(** ** Pausing, resuming, frames and tempo *)

(** X4: pausing a playing player and resuming it later continues where it
    was paused: however long the pause, the position the resumed source
    has run to after [d] more seconds is the position the original source
    would have had [d] seconds after the pause; the symbolic position is
    not touched by the two toggles. *)
Theorem pause_resume_continues (s : Player.state) (a t1 t2 d : Q) :
  transport_ok s -> Player.isPlaying s = true ->
  Player.startedAt s = Num a ->
  let paused := Player.togglePlayPause t1 s in
  let resumed := Player.togglePlayPause t2 paused in
  Player.isPlaying paused = false /\
  Player.pausedAt paused = Player.playbackPosition t1 s /\
  Player.isPlaying resumed = true /\
  same (Player.playbackPosition (t2 + d) resumed)
       (Player.playbackPosition (t1 + d) s) /\
  cursor_of resumed = cursor_of s.
Proof.
  intros (Hdur & Hrate & Hoff & Hbuf) Eplay Hstart paused resumed.
  specialize (Hbuf Eplay).
  destruct (pause_playing t1 s Eplay)
    as (Hpl & _ & _ & Hpa & Hb & _ & _ & Hr & _ & _ & _ & Hcur).
  assert (Hpaused : paused = Player.pause t1 s)
    by (unfold paused, Player.togglePlayPause; now rewrite Eplay).
  assert (Hresumed : resumed = Player.play t2 paused)
    by (unfold resumed, Player.togglePlayPause; now rewrite Hpaused, Hpl).
  rewrite <- Hpaused in Hpl, Hpa, Hb, Hr, Hcur.
  assert (Hbuf' : Player.audioBuffer paused = true) by (now rewrite Hb).
  destruct (play_started t2 paused Hbuf') as (Hpl' & _).
  split; [exact Hpl |]. split; [exact Hpa |].
  rewrite Hresumed. split; [exact Hpl' |].
  split; [| now rewrite play_cursor].
  unfold Player.playbackPosition in Hpa |- *. rewrite Hstart in Hpa |- *.
  cbn [sub neg add mul] in Hpa |- *.
  eapply same_Num_trans.
  - apply (play_position t2 (t2 + d) paused
             ((t1 + - a) * Player.playbackRate s) Hbuf');
      [now rewrite Hr | exact Hpa].
  - rewrite Hr. ring.
Qed.

Lemma pause_resume_continues_witness :
  let s := playing_player four_bars 8 100 in
  transport_ok s /\
  same (Player.playbackPosition (250 + 1)
          (Player.togglePlayPause 250 (Player.togglePlayPause 103 s)))
       (Player.playbackPosition (103 + 1) s).
Proof.
  cbn zeta.
  assert (Hok : transport_ok (playing_player four_bars 8 100)).
  { unfold transport_ok; cbn. repeat split; lra. }
  split; [exact Hok |].
  exact (proj1 (proj2 (proj2 (proj2
    (pause_resume_continues _ (100 - 0 / 1) 103 250 1 Hok eq_refl eq_refl))))).
Defined.

(** X5: a frame of the update loop shows the position of the source,
    capped at the duration of the audio, re-resolves the cursor at that
    time and schedules the next frame.  It never pauses or stops the player
    and never writes the stored position, also when the position has run
    past the end.  When nothing plays, the frame does nothing. *)
Theorem update_shows_capped_position (s : Player.state) (a now : Q) :
  transport_ok s -> Player.startedAt s = Num a ->
  let position := ((now - a) * Player.playbackRate s)%Q in
  let shown := if Qle_bool (Player.duration s) position
               then Player.duration s else position in
  let s' := Player.update now s in
  (Player.isPlaying s = true ->
   Player.currentTime s' = Num shown /\
   (shown <= Player.duration s)%Q /\
   Player.isPlaying s' = true /\
   Player.animationFrame s' = true /\
   Player.pausedAt s' = Player.pausedAt s /\
   cursor_of s' =
     cursor_of (Player.updateCursor (Player.set_currentTime (Num shown) s))) /\
  (Player.isPlaying s = false -> s' = s).
Proof.
  intros Hok Hstart position shown s'. subst s'. unfold Player.update.
  split; intros Eplay; rewrite Eplay; cbn [negb]; [| reflexivity].
  rewrite Hstart. cbn [sub neg add mul]. player_fields.
  change (now + - a)%Q with (now - a)%Q. fold position.
  rewrite ge_Num. fold shown.
  set (s2 := if Qle_bool (Player.duration s) position then _ else _).
  assert (Hs2 : s2 = Player.set_currentTime (Num shown) s).
  { unfold s2, shown. now destruct (Qle_bool (Player.duration s) position). }
  rewrite Hs2.
  destruct (updateCursor_keeps (Player.set_currentTime (Num shown) s))
    as (_ & _ & Hpl & _ & Hct & _ & Hpa & _).
  split; [exact Hct |].
  split.
  { unfold shown. destruct (Qle_bool (Player.duration s) position) eqn:E;
      [lra | apply Qle_bool_false in E; lra]. }
  split; [rewrite Hpl; exact Eplay |].
  split; [reflexivity |].
  split; [exact Hpa |].
  destruct (updateCursor_frame (Player.set_currentTime (Num shown) s))
    as (b & text & tick & ->). reflexivity.
Qed.

Lemma update_shows_capped_position_witness :
  let s := playing_player four_bars 8 100 in
  transport_ok s /\
  Player.currentTime (Player.update 103 s) = Num ((103 - (100 - 0 / 1)) * 1) /\
  Player.currentTime (Player.update 120 s) = Num 8 /\
  Player.isPlaying (Player.update 120 s) = true.
Proof.
  cbn zeta.
  assert (Hok : transport_ok (playing_player four_bars 8 100)).
  { unfold transport_ok; cbn. repeat split; lra. }
  split; [exact Hok |].
  destruct (update_shows_capped_position _ (100 - 0 / 1) 103 Hok eq_refl)
    as [Hmid _].
  destruct (update_shows_capped_position _ (100 - 0 / 1) 120 Hok eq_refl)
    as [Hend _].
  destruct (Hmid eq_refl) as (Hct & _).
  destruct (Hend eq_refl) as (Hct' & _ & Hpl & _).
  split; [exact Hct |]. split; [exact Hct' | exact Hpl].
Defined.

(** X6: the tempo slider writes the new rate but leaves the start time
    of the running source as it is, so the position the player computes
    from then on is the old position scaled by the ratio of the new rate to
    the old one: it jumps whenever the tempo is changed away from the
    start of the audio. *)
Theorem tempo_change_rescales_position (s : Player.state) (a now : Q)
    (value : Z) :
  (0 < Player.playbackRate s)%Q -> Player.startedAt s = Num a ->
  let before := ((now - a) * Player.playbackRate s)%Q in
  let s' := Player.tempoSliderInput value s in
  Player.playbackPosition now s = Num before /\
  Player.startedAt s' = Num a /\
  same (Player.playbackPosition now s')
       (Num (before * ((inject_Z value / 100) / Player.playbackRate s))).
Proof.
  intros Hrate Hstart before s'. subst s'.
  unfold Player.playbackPosition, Player.tempoSliderInput. player_fields.
  rewrite Hstart.
  destruct (Player.audioSource s); player_fields; rewrite Hstart;
    cbn [sub neg add mul same];
    (split; [reflexivity | split; [reflexivity |]]);
    unfold before; field; lra.
Qed.

Lemma tempo_change_rescales_position_witness :
  let s := playing_player four_bars 8 100 in
  (0 < Player.playbackRate s)%Q /\
  same (Player.playbackPosition 104 s) (Num 4) /\
  same (Player.playbackPosition 104 (Player.tempoSliderInput 50 s)) (Num 2).
Proof.
  cbn zeta.
  assert (Hrate : (0 < Player.playbackRate (playing_player four_bars 8 100))%Q)
    by (cbn; lra).
  split; [exact Hrate |].
  destruct (tempo_change_rescales_position _ (100 - 0 / 1) 104 50 Hrate eq_refl)
    as (Hbefore & _ & Hafter).
  split.
  - rewrite Hbefore. reflexivity.
  - eapply same_Num_trans; [exact Hafter | reflexivity].
Defined.

(** ** What the transport keeps *)

Lemma updateCursor_consistent (s : Player.state) :
  transport_consistent s -> transport_consistent (Player.updateCursor s).
Proof.
  destruct (updateCursor_frame s) as (b & text & tick & ->).
  unfold transport_consistent; cbn. tauto.
Qed.

Lemma play_consistent (now : Q) (s : Player.state) :
  transport_consistent s -> transport_consistent (Player.play now s).
Proof.
  intros Hc. unfold Player.play.
  destruct (Player.audioBuffer s); cbn [negb]; [| exact Hc].
  unfold transport_consistent; cbn. auto.
Qed.

Lemma pause_consistent (now : Q) (s : Player.state) :
  transport_consistent s -> transport_consistent (Player.pause now s).
Proof.
  intros Hc. unfold Player.pause.
  destruct (Player.isPlaying s) eqn:E; cbn [negb]; [| exact Hc].
  player_fields. destruct (Player.audioSource s) eqn:Esrc;
    unfold transport_consistent; cbn; rewrite ?Esrc; auto.
Qed.

Lemma seekTo_consistent (now : Q) (time : jsnum) (s : Player.state) :
  transport_consistent s -> transport_consistent (Player.seekTo now time s).
Proof.
  intros Hc. unfold Player.seekTo.
  assert (Hmid : forall s1 v,
            transport_consistent s1 ->
            transport_consistent
              (Player.updateCursor
                 (Player.set_currentTime (Player.pausedAt (Player.set_pausedAt v s1))
                    (Player.set_pausedAt v s1)))).
  { intros s1 v H1. apply updateCursor_consistent.
    unfold transport_consistent in *; cbn. exact H1. }
  destruct (Player.isPlaying s).
  - apply play_consistent, Hmid, pause_consistent, Hc.
  - apply Hmid, Hc.
Qed.

Lemma stop_consistent (now : Q) (s : Player.state) :
  transport_consistent s -> transport_consistent (Player.stop now s).
Proof.
  intros Hc. unfold Player.stop.
  apply pause_consistent with (now := now) in Hc.
  set (s4 := Player.set_currentBar _ _).
  assert (H4 : transport_consistent s4)
    by (unfold transport_consistent in *; cbn; exact Hc).
  apply updateCursor_consistent in H4.
  unfold transport_consistent in *; cbn. exact H4.
Qed.

Lemma update_consistent (now : Q) (s : Player.state) :
  transport_consistent s -> transport_consistent (Player.update now s).
Proof.
  intros Hc. unfold Player.update.
  destruct (Player.isPlaying s) eqn:E; cbn [negb]; [| exact Hc].
  set (s2 := if ge _ _ then _ else _).
  assert (H2 : transport_consistent s2 /\ Player.isPlaying s2 = true).
  { unfold s2. destruct (ge _ _); unfold transport_consistent in *; cbn; auto. }
  destruct H2 as [H2 Hpl]. apply updateCursor_consistent in H2.
  destruct (updateCursor_keeps s2) as (_ & _ & Hpl' & _).
  unfold transport_consistent in *; cbn.
  destruct H2 as [_ Hsrc]. split; [| exact Hsrc].
  now rewrite Hpl', Hpl.
Qed.

Lemma handle_keeps_invariant (s : Player.state) (e : Player.event) :
  positive_tempo e ->
  transport_ok s /\ transport_consistent s ->
  transport_ok (Player.handle s e) /\ transport_consistent (Player.handle s e).
Proof.
  intros Hpos [Hok Hc].
  destruct e as [now | now | now t | now p | now | now | | value | now | now];
    cbn [Player.handle].
  - unfold Player.togglePlayPause. destruct (Player.isPlaying s).
    + split; [now apply pause_transport_ok | now apply pause_consistent].
    + split; [now apply play_transport_ok | now apply play_consistent].
  - split; [now apply stop_transport_ok | now apply stop_consistent].
  - split; [now apply seekTo_transport_ok | now apply seekTo_consistent].
  - unfold Player.progressBarClick. destruct (Qeq_bool _ _); [now split |].
    cbn [mul].
    split; [now apply seekTo_transport_ok | now apply seekTo_consistent].
  - unfold Player.previousBar. destruct (Player.syncData s); [| now split].
    split; [now apply seekTo_transport_ok | now apply seekTo_consistent].
  - unfold Player.nextBar. destruct (Player.syncData s); [| now split].
    destruct (List.find _ _); [| now split].
    split; [now apply seekTo_transport_ok | now apply seekTo_consistent].
  - split; [now apply toggleLoop_transport_ok |].
    unfold transport_consistent in *; cbn. exact Hc.
  - split; [now apply tempoSliderInput_transport_ok |].
    unfold Player.tempoSliderInput. player_fields.
    destruct (Player.audioSource s) eqn:Esrc;
      unfold transport_consistent in *; cbn; rewrite ?Esrc in *; exact Hc.
  - split; [now apply update_transport_ok | now apply update_consistent].
  - unfold Player.onended. destruct (Player.isPlaying s); [| now split].
    destruct (Player.isLooping s).
    + split; [now apply play_transport_ok, seekTo_transport_ok
             | now apply play_consistent, seekTo_consistent].
    + split; [now apply stop_transport_ok | now apply stop_consistent].
Qed.

(** X7: over every sequence of transport events (play/pause toggles,
    stops, seeks, progress-bar clicks, bar steps, loop toggles, frames,
    ends of the source,
    and tempo changes to positive values) the player keeps its transport
    fields in order: the field [audioSource] holds a source exactly while
    [isPlaying] is set, the update loop is scheduled exactly while it is
    set, it is not set without a decoded buffer, and the rate stays
    positive.  This is about the fields of the player, not about what
    sounds: a source the field has let go of without stopping it is not
    counted (the end of a looped source leaves one, see
    [Player.onended_traced]). *)
Theorem transport_stays_consistent
    (events : list Player.event) (s : Player.state) :
  Forall positive_tempo events ->
  transport_ok s -> transport_consistent s ->
  let s' := Player.handle_all events s in
  transport_ok s' /\ transport_consistent s'.
Proof.
  intros Hpos Hok Hc. cbn zeta. unfold Player.handle_all.
  assert (Hinv : transport_ok s /\ transport_consistent s) by now split.
  clear Hok Hc. revert s Hinv.
  induction Hpos as [| e events He _ IH]; intros s Hinv; [exact Hinv |].
  cbn [fold_left]. apply IH, handle_keeps_invariant; assumption.
Qed.

Lemma transport_stays_consistent_witness :
  let s := loaded_player four_bars 8 0 in
  let events :=
    [Player.TogglePlayPause 100; Player.Frame 101; Player.Tempo 50;
     Player.NextBar 102; Player.ToggleLoop; Player.Ended 110;
     Player.ProgressClick 111 (1 # 2); Player.PreviousBar 112;
     Player.Stop 113] in
  (Forall positive_tempo events /\ transport_ok s /\ transport_consistent s) /\
  transport_ok (Player.handle_all events s) /\
  transport_consistent (Player.handle_all events s).
Proof.
  cbn zeta.
  assert (Hpos : Forall positive_tempo
            [Player.TogglePlayPause 100; Player.Frame 101; Player.Tempo 50;
             Player.NextBar 102; Player.ToggleLoop; Player.Ended 110;
             Player.ProgressClick 111 (1 # 2); Player.PreviousBar 112;
             Player.Stop 113]).
  { repeat constructor. }
  assert (Hok : transport_ok (loaded_player four_bars 8 0)).
  { unfold transport_ok; cbn. repeat split; (lra || discriminate). }
  assert (Hc : transport_consistent (loaded_player four_bars 8 0)).
  { unfold transport_consistent; cbn. split; reflexivity. }
  split; [split; [exact Hpos | split; [exact Hok | exact Hc]] |].
  exact (transport_stays_consistent _ _ Hpos Hok Hc).
Defined.

(** ** The cursor stays inside the bar *)

(** The index the player's scan ends on is the one it started with or the
    index of a marker it has seen. *)
Lemma player_scan_index (adjustedTime : jsnum) (duration : Q)
    (markers : list marker) (i : nat) (acc : Player.scan) :
  let sc := Player.scan_markers adjustedTime duration i markers acc in
  sc = acc \/
  (i <= Player.currentBarIndex sc < i + length markers)%nat.
Proof.
  revert i acc. induction markers as [| m rest IH]; intros i acc;
    cbn zeta; cbn [Player.scan_markers length]; [now left |].
  destruct (ge adjustedTime (Num (time m))) eqn:Hge; [| now left].
  right.
  destruct (IH (S i) (Player.Scan i (time m)
                        match rest with
                        | next :: _ => time next
                        | [] => duration
                        end)) as [-> | Hrange]; cbn; lia.
Qed.

Lemma player_find_bar_index (adjustedTime : jsnum) (duration : Q)
    (markers : list marker) :
  markers <> [] ->
  (Player.currentBarIndex (Player.find_bar adjustedTime duration markers)
   < length markers)%nat.
Proof.
  intros Hne. unfold Player.find_bar.
  destruct (player_scan_index adjustedTime duration markers 0
              (Player.Scan 0 0%Q duration)) as [-> | Hrange]; [| cbn in *; lia].
  destruct markers; [contradiction | cbn; lia].
Qed.

(** X8: whatever the marker list (sorted or not) and whatever finite time
    is shown, [updateCursor] shows the bar of one of the markers, and when
    the tick map knows that bar it puts the renderer cursor on a whole
    tick inside the bar's range (the renderer's ranges run forwards). *)
Theorem cursor_stays_inside_bar
    (s : Player.state) (markers : list marker) (c : Q) :
  Player.syncData s = Some markers -> markers <> [] ->
  Player.currentTime s = Num c ->
  (forall b r, Player.barTickMap s !! b = Some r -> start r <= end_ r) ->
  let s' := Player.updateCursor s in
  exists m,
    In m markers /\
    Player.currentBar s' = bar m /\
    forall r, Player.barTickMap s !! bar m = Some r ->
      exists tick : Z,
        Player.tickPosition s' = of_Z tick /\ start r <= tick <= end_ r.
Proof.
  intros Hsync Hne Htime Hranges s'. subst s'.
  set (adjustedTime := add (Player.currentTime s) (Num (Player.notationOffset s))).
  set (sc := Player.find_bar adjustedTime (Player.duration s) markers).
  destruct (nth_error markers (Player.currentBarIndex sc)) as [m |] eqn:Hnth.
  2:{ apply nth_error_None in Hnth.
      pose proof (player_find_bar_index adjustedTime (Player.duration s)
                    markers Hne). fold sc in H. lia. }
  exists m. split; [eapply nth_error_In; exact Hnth |].
  destruct (updateCursor_selected s markers m Hsync Hnth) as (Hbar & _ & Htick).
  split; [exact Hbar |].
  intros r Hr. rewrite Htick, Hr.
  apply interpolate_tick_in_range; [| exact (Hranges _ _ Hr)].
  unfold adjustedTime. rewrite Htime. cbn [add].
  apply player_bar_progress_unit.
Qed.

Lemma cursor_stays_inside_bar_witness :
  let s := loaded_player [Marker 1 5; Marker 2 5; Marker 3 1] 10 (515 # 100) in
  exists m,
    In m [Marker 1 5; Marker 2 5; Marker 3 1] /\
    Player.currentBar (Player.updateCursor s) = bar m /\
    forall r, Player.barTickMap s !! bar m = Some r ->
      exists tick : Z,
        Player.tickPosition (Player.updateCursor s) = of_Z tick /\
        start r <= tick <= end_ r.
Proof.
  cbn zeta.
  apply (cursor_stays_inside_bar
           (loaded_player [Marker 1 5; Marker 2 5; Marker 3 1] 10 (515 # 100))
           [Marker 1 5; Marker 2 5; Marker 3 1] (515 # 100));
    [reflexivity | discriminate | reflexivity |].
  intros b r Hr. unfold loaded_player in Hr. cbn in Hr.
  unfold four_bar_ticks in Hr. cbn in Hr.
  repeat (apply lookup_insert_Some in Hr as [[_ <-] | [_ Hr]]; [cbn; lia |]).
  rewrite lookup_empty in Hr. discriminate.
Defined.

(** ** The time shown stays inside the audio *)






Lemma pause_duration (now : Q) (s : Player.state) :
  Player.duration (Player.pause now s) = Player.duration s.
Proof.
  unfold Player.pause. destruct (Player.isPlaying s); cbn [negb]; [| reflexivity].
  player_fields. destruct (Player.audioSource s); reflexivity.
Qed.







Lemma progressPercent_in_range (s : Player.state) (c : Q) :
  Player.currentTime s = Num c -> (0 <= c)%Q -> (c <= Player.duration s)%Q ->
  exists percent,
    Player.progressPercent s = Num percent /\
    (0 <= percent)%Q /\ (percent <= 100)%Q /\
    ((0 < Player.duration s)%Q -> (percent == c / Player.duration s * 100)%Q).
Proof.
  intros Hc H0 H1. unfold Player.progressPercent. rewrite Hc, gt_Num.
  destruct (Qle_bool (Player.duration s) 0) eqn:E; cbn [negb].
  - apply Qle_bool_iff in E. exists 0%Q. repeat split; try lra.
  - apply Qle_bool_false in E. rewrite div_Num by lra. cbn [mul].
    eexists. split; [reflexivity |].
    assert (0 <= c / Player.duration s)%Q by (apply Qle_shift_div_l; lra).
    assert (c / Player.duration s <= 1)%Q by (apply Qle_shift_div_r; lra).
    repeat split; try lra.
Qed.



Lemma seekTo_duration (now : Q) (time : jsnum) (s : Player.state) :
  Player.duration (Player.seekTo now time s) = Player.duration s.
Proof.
  unfold Player.seekTo.
  set (s1 := if Player.isPlaying s then Player.pause now s else s).
  assert (H1 : Player.duration s1 = Player.duration s).
  { unfold s1. destruct (Player.isPlaying s); [apply pause_duration | reflexivity]. }
  set (s3 := Player.set_currentTime _ _).
  assert (H3 : Player.duration (Player.updateCursor s3) = Player.duration s).
  { destruct (updateCursor_frame s3) as (b & text & tick & ->). cbn. exact H1. }
  destruct (Player.isPlaying s); [| exact H3].
  unfold Player.play. destruct (Player.audioBuffer _); cbn [negb]; exact H3.
Qed.

(** X10: a click on the progress bar at the fraction [p] of its width
    seeks to [p] times the duration, and [updateProgress] then draws the
    fill at [100 p] percent; playing or pausing is not changed. *)
Theorem progress_click_round_trip (now p : Q) (s : Player.state) :
  transport_ok s -> (0 < Player.duration s)%Q -> (0 <= p)%Q -> (p <= 1)%Q ->
  let s' := Player.progressBarClick now (Num p) s in
  Player.currentTime s' = Num (p * Player.duration s) /\
  same (Player.progressPercent s') (Num (p * 100)) /\
  Player.isPlaying s' = Player.isPlaying s.
Proof.
  intros Hok Hd Hp0 Hp1 s'. unfold s', Player.progressBarClick.
  destruct (Qeq_bool (Player.duration s) 0) eqn:E;
    [apply Qeq_bool_iff in E; lra |].
  cbn [mul].
  destruct (seekTo_result s now (p * Player.duration s) Hok)
    as (Hc & _ & Hpl & _).
  assert (Hin : clamp_seek (p * Player.duration s) (Player.duration s)
                = (p * Player.duration s)%Q).
  { apply clamp_seek_inside; [apply Qmult_le_0_compat; lra | nra]. }
  rewrite Hin in Hc. split; [exact Hc |]. split; [| exact Hpl].
  destruct (progressPercent_in_range _ _ Hc) as (percent & Hper & _ & _ & Heq).
  - apply Qmult_le_0_compat; lra.
  - rewrite seekTo_duration. nra.
  - rewrite Hper. cbn [same]. rewrite Heq by (rewrite seekTo_duration; exact Hd).
    rewrite seekTo_duration. field. lra.
Qed.

Lemma progress_click_round_trip_witness :
  let s := playing_player four_bars 8 100 in
  Player.currentTime (Player.progressBarClick 103 (Num (1 # 4)) s)
    = Num ((1 # 4) * Player.duration s) /\
  same (Player.progressPercent (Player.progressBarClick 103 (Num (1 # 4)) s))
       (Num ((1 # 4) * 100)) /\
  Player.isPlaying (Player.progressBarClick 103 (Num (1 # 4)) s)
    = Player.isPlaying s.
Proof.
  cbn zeta. apply progress_click_round_trip.
  - unfold transport_ok; cbn. repeat split; (lra || reflexivity).
  - cbn. lra.
  - lra.
  - lra.
Defined.

(** * The tick map and the exported page *)

Lemma tick_map_from_lookup (masterBars : list tick_range) (index k : Z) :
  tick_map_from index masterBars !! k =
    if index <? k then nth_error masterBars (Z.to_nat (k - index - 1))
    else None.
Proof.
  revert index. induction masterBars as [| barInfo rest IH]; intros index;
    cbn [tick_map_from].
  - rewrite lookup_empty. destruct (index <? k); [| reflexivity].
    now destruct (Z.to_nat _).
  - destruct (decide (k = index + 1)) as [-> | Hne].
    + rewrite lookup_insert_eq.
      replace (index <? index + 1) with true by (symmetry; apply Z.ltb_lt; lia).
      replace (index + 1 - index - 1) with 0 by lia. cbn.
      now destruct barInfo.
    + rewrite lookup_insert_ne by congruence. rewrite IH.
      destruct (index + 1 <? k) eqn:E1.
      * apply Z.ltb_lt in E1.
        replace (index <? k) with true by (symmetry; apply Z.ltb_lt; lia).
        replace (Z.to_nat (k - index - 1))
          with (S (Z.to_nat (k - (index + 1) - 1))) by lia.
        reflexivity.
      * apply Z.ltb_ge in E1. destruct (index <? k) eqn:E2; [| reflexivity].
        apply Z.ltb_lt in E2. lia.
Qed.

(** X11: [buildBarTickMap] files the master bar at index [i] under the
    key [i + 1] and nothing under any other key, in the editor and in the
    player alike. *)
Theorem tick_map_lookup (masterBars : list tick_range) (k : Z)
    (e : Editor.state) (p : Player.state) :
  Editor.barTickMap (Editor.buildBarTickMap masterBars e) !! k =
    (if 0 <? k then nth_error masterBars (Z.to_nat (k - 1)) else None) /\
  Player.barTickMap (Player.buildBarTickMap masterBars p) !! k =
    Editor.barTickMap (Editor.buildBarTickMap masterBars e) !! k.
Proof.
  cbn. rewrite tick_map_from_lookup.
  replace (k - 0 - 1) with (k - 1) by lia. split; reflexivity.
Qed.

Lemma scan_bars_sorted (t : Q) (markers : list marker) :
  forall acc : Editor.scan,
  times_nondecreasing markers ->
  Standalone.scan_bars (Num t) markers (Editor.currentBar acc) =
  Editor.currentBar (Editor.scan_markers t markers acc).
Proof.
  induction markers as [| m rest IH]; intros acc Hsorted; [reflexivity |].
  destruct m as [b tm]. cbn [Standalone.scan_bars Editor.scan_markers time bar].
  rewrite ge_Num.
  destruct (Qle_bool tm t) eqn:E.
  - rewrite <- IH by (eapply times_nondecreasing_tail; exact Hsorted).
    reflexivity.
  - apply Qle_bool_false in E.
    pose proof (times_nondecreasing_head _ _ Hsorted) as Hlater.
    cbn [time] in Hlater. clear IH Hsorted.
    induction Hlater as [| x rest' Hx _ IH']; [reflexivity |].
    destruct x as [bx tx]. cbn [Standalone.scan_bars time] in *.
    rewrite ge_Num.
    replace (Qle_bool tx t) with false; [exact IH' |].
    symmetry. apply Qle_bool_false. lra.
Qed.

(** X12: on markers whose times never go down, the loop of the exported
    page, which has no [break], finds the bar the editor's
    [highlightCurrentBar] finds. *)
Theorem page_resolves_like_editor (t : Q) (markers : list marker) :
  times_nondecreasing markers ->
  Standalone.scan_bars (Num t) markers 0 =
  Editor.currentBar (Editor.find_bar t markers).
Proof.
  intros Hsorted. unfold Editor.find_bar.
  now rewrite <- scan_bars_sorted.
Qed.

Lemma page_resolves_like_editor_witness :
  Standalone.scan_bars (Num (45 # 10)) four_bars 0 =
  Editor.currentBar (Editor.find_bar (45 # 10) four_bars).
Proof.
  apply page_resolves_like_editor. cbn. repeat split; lra.
Defined.

(** On markers whose times go down the page and the editor part: the
    editor stops at the first marker it has not reached, the page goes on
    to the end. *)
Example page_differs_on_unsorted_markers :
  let markers := [Marker 1 0; Marker 2 5; Marker 3 1] in
  Standalone.scan_bars (Num 2) markers 0 = 3 /\
  Editor.currentBar (Editor.find_bar 2 markers) = 1.
Proof. split; reflexivity. Qed.

Lemma page_updateCursor_tick (time : jsnum) (s : Standalone.state) :
  Standalone.tickPosition (Standalone.updateCursor time s) =
    let bar := Standalone.scan_bars time (Standalone.markers s) 0 in
    if 0 <? bar then
      match nth_error (Standalone.barTickMap s) (Z.to_nat (bar - 1)) with
      | Some barTicks => of_Z (start barTicks)
      | None => Standalone.tickPosition s
      end
    else Standalone.tickPosition s.
Proof.
  unfold Standalone.updateCursor. cbn zeta.
  destruct (0 <? _); [| reflexivity].
  now destruct (nth_error _ _).
Qed.

(** X13: the exported page indexes its tick array from 0 and the editor
    its tick map from 1; for the bar the page resolves, its [updateCursor]
    puts the renderer cursor where the editor's [scrollToBar] puts it: at
    the start of that bar, and nowhere new when the score has no such
    bar. *)
Theorem page_cursor_like_scrollToBar
    (time : jsnum) (masterBars : list tick_range)
    (s : Standalone.state) (e : Editor.state) :
  Editor.alphaTab e = true ->
  Editor.tickPosition e = Standalone.tickPosition s ->
  let bar := Standalone.scan_bars time (Standalone.markers s) 0 in
  Standalone.tickPosition
    (Standalone.updateCursor time (Standalone.onRenderFinished masterBars s)) =
  Editor.tickPosition
    (Editor.scrollToBar bar (Editor.buildBarTickMap masterBars e)).
Proof.
  intros Halpha Htick bar. rewrite page_updateCursor_tick.
  cbn zeta. cbn [Standalone.onRenderFinished Standalone.set_barTickMap
                 Standalone.markers Standalone.barTickMap
                 Standalone.tickPosition].
  fold bar. unfold Editor.scrollToBar.
  cbn [Editor.buildBarTickMap Editor.alphaTab Editor.barTickMap].
  rewrite Halpha. cbn [negb].
  rewrite tick_map_from_lookup. replace (bar - 0 - 1) with (bar - 1) by lia.
  destruct (0 <? bar); [| now rewrite <- Htick].
  rewrite nth_error_map.
  destruct (nth_error masterBars _) as [r |]; cbn; [reflexivity | now rewrite <- Htick].
Qed.

Lemma page_cursor_like_scrollToBar_witness :
  let s := Standalone.new_page four_bars in
  let e := loaded_editor four_bars in
  Standalone.tickPosition
    (Standalone.updateCursor (Num 5)
       (Standalone.onRenderFinished four_bar_ticks s)) =
  Editor.tickPosition
    (Editor.scrollToBar
       (Standalone.scan_bars (Num 5) (Standalone.markers s) 0)
       (Editor.buildBarTickMap four_bar_ticks e)).
Proof.
  cbn zeta.
  apply (page_cursor_like_scrollToBar (Num 5) four_bar_ticks
           (Standalone.new_page four_bars) (loaded_editor four_bars));
    reflexivity.
Defined.

(** Reads the fields of a constructed page state. *)
Ltac page_fields :=
  cbn [Standalone.markers Standalone.barTickMap Standalone.source
       Standalone.isPlaying Standalone.startedAt Standalone.pausedAt
       Standalone.duration Standalone.progressFill Standalone.tickPosition
       Standalone.set_barTickMap Standalone.set_source
       Standalone.set_isPlaying Standalone.set_startedAt
       Standalone.set_pausedAt Standalone.set_duration
       Standalone.set_progressFill Standalone.set_tickPosition negb] in *.

Lemma page_updateCursor_frame (time : jsnum) (s : Standalone.state) :
  Standalone.updateCursor time s =
  Standalone.set_tickPosition
    (Standalone.tickPosition (Standalone.updateCursor time s)) s.
Proof.
  unfold Standalone.updateCursor. cbn zeta.
  destruct (0 <? _); [| now destruct s].
  destruct (nth_error _ _); [reflexivity | now destruct s].
Qed.

Lemma scan_bars_ext (t t' : Q) (markers : list marker) (bar : Z) :
  (t == t')%Q ->
  Standalone.scan_bars (Num t) markers bar =
  Standalone.scan_bars (Num t') markers bar.
Proof.
  intros Heq. revert bar.
  induction markers as [| [b tm] rest IH]; intros bar; [reflexivity |].
  cbn [Standalone.scan_bars]. rewrite !ge_Num.
  replace (Qle_bool tm t') with (Qle_bool tm t); [apply IH |].
  destruct (Qle_bool tm t) eqn:E; symmetry.
  - apply Qle_bool_iff. apply Qle_bool_iff in E. lra.
  - apply Qle_bool_false. apply Qle_bool_false in E. lra.
Qed.

Lemma page_updateCursor_ext (t t' : Q) (s s' : Standalone.state) :
  (t == t')%Q ->
  Standalone.markers s = Standalone.markers s' ->
  Standalone.barTickMap s = Standalone.barTickMap s' ->
  Standalone.tickPosition s = Standalone.tickPosition s' ->
  Standalone.tickPosition (Standalone.updateCursor (Num t) s) =
  Standalone.tickPosition (Standalone.updateCursor (Num t') s').
Proof.
  intros Heq Hm Hb Ht. rewrite !page_updateCursor_tick. cbn zeta.
  rewrite Hm, Hb, Ht. now rewrite (scan_bars_ext t t').
Qed.

(** X14: when a frame of the exported page finds the audio at its end it
    pauses and rewinds the resume offset to 0, leaving the cursor and the
    progress fill where the last frame put them; the next press of play
    starts over from the beginning. *)
Theorem page_rewinds_at_end (now a : Q) (s : Standalone.state) :
  Standalone.isPlaying s = true -> Standalone.startedAt s = Num a ->
  (Standalone.duration s <= now - a)%Q ->
  let s' := Standalone.update now s in
  Standalone.isPlaying s' = false /\
  Standalone.pausedAt s' = Num 0 /\
  Standalone.tickPosition s' = Standalone.tickPosition s /\
  Standalone.progressFill s' = Standalone.progressFill s /\
  forall now2 : Q,
    (0 < Standalone.duration s)%Q ->
    let s'' := Standalone.togglePlay now2 s' in
    Standalone.isPlaying s'' = true /\
    same (Standalone.startedAt s'') (Num now2) /\
    same (Standalone.progressFill s'') (Num 0) /\
    Standalone.tickPosition s'' =
      Standalone.tickPosition (Standalone.updateCursor (Num 0) s).
Proof.
  intros Hpl Hst Hend s'.
  assert (Hs' : s' =
            Standalone.set_pausedAt (Num 0) (Standalone.pause now s)).
  { unfold s', Standalone.update. rewrite Hpl, Hst, sub_Num, ge_Num. cbn [negb].
    replace (Qle_bool (Standalone.duration s) (now - a)) with true;
      [reflexivity |].
    symmetry. apply Qle_bool_iff. exact Hend. }
  rewrite Hs'. unfold Standalone.pause. page_fields.
  do 4 (split; [reflexivity |]).
  intros now2 Hd.
  unfold Standalone.togglePlay. page_fields.
  unfold Standalone.play. page_fields.
  unfold Standalone.update. page_fields.
  rewrite !sub_Num, !ge_Num.
  replace (Qle_bool (Standalone.duration s) (now2 - (now2 - 0))) with false
    by (symmetry; apply Qle_bool_false; lra).
  rewrite page_updateCursor_frame. page_fields.
  split; [reflexivity |]. split; [cbn [same]; lra |].
  split.
  - rewrite div_Num by lra. cbn [mul same]. field. lra.
  - apply page_updateCursor_ext; try reflexivity. lra.
Qed.

Lemma page_rewinds_at_end_witness :
  let s :=
    Standalone.play 100
      (Standalone.onAudioDecoded 8
         (Standalone.onRenderFinished four_bar_ticks
            (Standalone.new_page four_bars))) in
  let s' := Standalone.update 108 s in
  Standalone.isPlaying s' = false /\
  Standalone.pausedAt s' = Num 0 /\
  Standalone.tickPosition s' = Standalone.tickPosition s /\
  Standalone.progressFill s' = Standalone.progressFill s /\
  forall now2 : Q,
    (0 < Standalone.duration s)%Q ->
    let s'' := Standalone.togglePlay now2 s' in
    Standalone.isPlaying s'' = true /\
    same (Standalone.startedAt s'') (Num now2) /\
    same (Standalone.progressFill s'') (Num 0) /\
    Standalone.tickPosition s'' =
      Standalone.tickPosition (Standalone.updateCursor (Num 0) s).
Proof.
  cbn zeta. apply (page_rewinds_at_end 108 (100 - 0)).
  - reflexivity.
  - reflexivity.
  - change (8 <= 108 - (100 - 0))%Q. lra.
Defined.

(** X15: the exported page does not clamp a seek.  A seek to or past the
    end leaves the page stopped with the cursor on the bar of the target
    time; a playing page has its resume offset rewound to 0, an idle page
    keeps the target as offset and its next press of play stops at once
    and rewinds. *)
Theorem page_seek_is_not_clamped (now t : Q) (s : Standalone.state) :
  (Standalone.duration s <= t)%Q ->
  let s' := Standalone.seekTo now (Num t) s in
  Standalone.isPlaying s' = false /\
  Standalone.pausedAt s' =
    (if Standalone.isPlaying s then Num 0 else Num t) /\
  Standalone.tickPosition s' =
    Standalone.tickPosition (Standalone.updateCursor (Num t) s) /\
  (Standalone.isPlaying s = false ->
   forall now2 : Q,
     Standalone.isPlaying (Standalone.togglePlay now2 s') = false /\
     Standalone.pausedAt (Standalone.togglePlay now2 s') = Num 0).
Proof.
  intros Hend s'. subst s'. unfold Standalone.seekTo. cbn zeta.
  destruct (Standalone.isPlaying s) eqn:Hpl.
  - unfold Standalone.play. page_fields.
    unfold Standalone.update. page_fields.
    rewrite !sub_Num, ge_Num.
    replace (Qle_bool (Standalone.duration s) (now - (now - t))) with true
      by (symmetry; apply Qle_bool_iff; lra).
    unfold Standalone.pause. page_fields.
    rewrite page_updateCursor_frame. page_fields.
    do 2 (split; [reflexivity |]). split; [| discriminate].
    now apply page_updateCursor_ext.
  - rewrite page_updateCursor_frame. page_fields.
    split; [exact Hpl |]. split; [reflexivity |].
    split; [now apply page_updateCursor_ext |].
    intros _ now2. unfold Standalone.togglePlay. page_fields. rewrite Hpl.
    unfold Standalone.play. page_fields.
    unfold Standalone.update. page_fields.
    rewrite !sub_Num, ge_Num.
    replace (Qle_bool (Standalone.duration s) (now2 - (now2 - t))) with true
      by (symmetry; apply Qle_bool_iff; lra).
    unfold Standalone.pause. page_fields. split; reflexivity.
Qed.

Lemma page_seek_is_not_clamped_witness :
  let s :=
    Standalone.play 100
      (Standalone.onAudioDecoded 8
         (Standalone.onRenderFinished four_bar_ticks
            (Standalone.new_page four_bars))) in
  let s' := Standalone.seekTo 103 (Num 9) s in
  Standalone.isPlaying s' = false /\
  Standalone.pausedAt s' =
    (if Standalone.isPlaying s then Num 0 else Num 9) /\
  Standalone.tickPosition s' =
    Standalone.tickPosition (Standalone.updateCursor (Num 9) s) /\
  (Standalone.isPlaying s = false ->
   forall now2 : Q,
     Standalone.isPlaying (Standalone.togglePlay now2 s') = false /\
     Standalone.pausedAt (Standalone.togglePlay now2 s') = Num 0).
Proof.
  cbn zeta. apply page_seek_is_not_clamped. change (8 <= 9)%Q. lra.
Defined.

(** * Further properties of the editor *)

Lemma scheduleAutoSave_markers (s : Editor.state) :
  Editor.beatMarkers (Editor.scheduleAutoSave s) = Editor.beatMarkers s /\
  Editor.currentBarToMark (Editor.scheduleAutoSave s) = Editor.currentBarToMark s /\
  Editor.totalBars (Editor.scheduleAutoSave s) = Editor.totalBars s /\
  Editor.score (Editor.scheduleAutoSave s) = Editor.score s.
Proof.
  destruct (scheduleAutoSave_frame s) as (timer & ->). now cbn.
Qed.

Lemma recordBeatMarker_cases (currentTime : Q) (s : Editor.state) :
  Editor.recordBeatMarker currentTime s = s \/
  (Editor.currentBarToMark s <= Editor.totalBars s /\
   Editor.beatMarkers (Editor.recordBeatMarker currentTime s) =
     Editor.beatMarkers s ++ [Marker (Editor.currentBarToMark s) currentTime] /\
   Editor.currentBarToMark (Editor.recordBeatMarker currentTime s) =
     Editor.currentBarToMark s + 1 /\
   Editor.totalBars (Editor.recordBeatMarker currentTime s) = Editor.totalBars s).
Proof.
  destruct (Editor.wavesurfer s) as [rate |] eqn:Hws.
  2:{ left. unfold Editor.recordBeatMarker. now rewrite Hws. }
  destruct (Editor.score s) eqn:Hscore.
  2:{ left. unfold Editor.recordBeatMarker. rewrite Hscore.
      now rewrite orb_true_r. }
  destruct (Z.ltb_spec (Editor.totalBars s) (Editor.currentBarToMark s)) as [Hlt | Hle].
  - left. now apply recordBeatMarker_complete.
  - right. split; [exact Hle |].
    destruct (recordBeatMarker_enabled currentTime s) as (tick & timer & ->);
      [rewrite Hws; eauto | exact Hscore | exact Hle |].
    now cbn.
Qed.

Lemma undoLastMarker_cases (s : Editor.state) :
  Editor.undoLastMarker s = s \/
  (Editor.beatMarkers s <> [] /\
   Editor.beatMarkers (Editor.undoLastMarker s) = removelast (Editor.beatMarkers s) /\
   Editor.currentBarToMark (Editor.undoLastMarker s) = Editor.currentBarToMark s - 1 /\
   Editor.totalBars (Editor.undoLastMarker s) = Editor.totalBars s).
Proof.
  unfold Editor.undoLastMarker.
  destruct (Editor.beatMarkers s) as [| m ms] eqn:Hms; [now left |].
  right. cbn [length Nat.eqb]. split; [discriminate |].
  set (s2 := Editor.set_currentBarToMark _ _).
  destruct (scheduleAutoSave_markers s2) as (-> & -> & -> & _).
  unfold s2. editor_fields. repeat split; reflexivity.
Qed.

Lemma clearAllMarkers_cases (confirmed : bool) (s : Editor.state) :
  Editor.clearAllMarkers confirmed s = s \/
  (Editor.beatMarkers (Editor.clearAllMarkers confirmed s) = [] /\
   Editor.currentBarToMark (Editor.clearAllMarkers confirmed s) = 1 /\
   Editor.totalBars (Editor.clearAllMarkers confirmed s) = Editor.totalBars s).
Proof.
  unfold Editor.clearAllMarkers.
  destruct (length (Editor.beatMarkers s) =? 0)%nat; [now left |].
  destruct confirmed; cbn [negb]; [| now left].
  right. set (s2 := Editor.set_currentBarToMark _ _).
  destruct (scheduleAutoSave_markers s2) as (-> & -> & -> & _).
  now cbn.
Qed.

Lemma removelast_length {A : Type} (l : list A) :
  l <> [] -> S (length (removelast l)) = length l.
Proof.
  intros Hne. destruct (exists_last Hne) as (l' & x & ->).
  rewrite removelast_last, length_app. cbn. lia.
Qed.

Lemma step_counter (s : Editor.state) (o : Editor.op) :
  counter_follows_markers s -> counter_follows_markers (Editor.step s o).
Proof.
  unfold counter_follows_markers. intros Hinv.
  destruct o as [t | | confirmed]; cbn [Editor.step].
  - destruct (recordBeatMarker_cases t s) as [-> | (_ & -> & -> & _)];
      [exact Hinv |].
    rewrite length_app. cbn [length]. lia.
  - destruct (undoLastMarker_cases s) as [-> | (Hne & -> & -> & _)];
      [exact Hinv |].
    pose proof (removelast_length _ Hne). lia.
  - destruct (clearAllMarkers_cases confirmed s) as [-> | (-> & -> & _)];
      [exact Hinv | reflexivity].
Qed.

Lemma act_counter (s : Editor.state) (a : Editor.action) :
  counter_follows_markers s -> counter_follows_markers (Editor.act s a).
Proof.
  intros Hinv. destruct a as [o | markers | markers | masterBars];
    cbn [Editor.act].
  - now apply step_counter.
  - destruct markers; [reflexivity | exact Hinv].
  - reflexivity.
  - unfold Editor.onScoreLoaded. cbn zeta.
    destruct (_ || _); [reflexivity | exact Hinv].
Qed.

(** X16: whatever happens to the markers of an editor (taps, undos,
    clears, a sync file or a library project being loaded, a score being
    loaded, in any order), the next bar to mark stays the count of the
    markers plus one.  The bar numbers the loaded markers carry play no
    part in it. *)
Theorem counter_counts_markers
    (actions : list Editor.action) (s : Editor.state) :
  counter_follows_markers s ->
  counter_follows_markers (Editor.act_all actions s).
Proof.
  unfold Editor.act_all. revert s.
  induction actions as [| a actions IH]; intros s Hinv; [exact Hinv |].
  cbn [fold_left]. apply IH, act_counter, Hinv.
Qed.

Lemma counter_counts_markers_witness :
  counter_follows_markers
    (Editor.act_all
       [Editor.LoadSync (Some [Marker 5 1; Marker 9 2]);
        Editor.ScoreLoaded 4; Editor.Record (Editor.Tap 3);
        Editor.Record Editor.Undo; Editor.OpenProject None;
        Editor.ScoreLoaded 2; Editor.Record (Editor.Tap 1)]
       Editor.new_SyncEditor).
Proof.
  apply counter_counts_markers. reflexivity.
Defined.

(** Markers loaded from a file keep their own bar numbers; the next tap
    is numbered by the count. *)
Example tap_after_loading_numbers_by_count :
  let s :=
    Editor.act_all
      [Editor.LoadSync (Some [Marker 5 1; Marker 9 2]); Editor.ScoreLoaded 4;
       Editor.Record (Editor.Tap 3)]
      Editor.new_SyncEditor in
  Editor.beatMarkers s = [Marker 5 1; Marker 9 2; Marker 3 3].
Proof. reflexivity. Qed.

Lemma step_fits (s : Editor.state) (o : Editor.op) :
  counter_follows_markers s ->
  Z.of_nat (length (Editor.beatMarkers s)) <= Editor.totalBars s ->
  Z.of_nat (length (Editor.beatMarkers (Editor.step s o)))
    <= Editor.totalBars (Editor.step s o) /\
  Editor.totalBars (Editor.step s o) = Editor.totalBars s.
Proof.
  unfold counter_follows_markers. intros Hinv Hfit.
  destruct o as [t | | confirmed]; cbn [Editor.step].
  - destruct (recordBeatMarker_cases t s) as [-> | (Hroom & -> & _ & ->)];
      [now split |].
    rewrite length_app. cbn [length]. split; [lia | reflexivity].
  - destruct (undoLastMarker_cases s) as [-> | (Hne & -> & _ & ->)];
      [now split |].
    pose proof (removelast_length _ Hne). split; [lia | reflexivity].
  - destruct (clearAllMarkers_cases confirmed s) as [-> | (-> & _ & ->)];
      [now split |].
    cbn [length]. split; [lia | reflexivity].
Qed.

Lemma run_fits (ops : list Editor.op) (s : Editor.state) :
  counter_follows_markers s ->
  Z.of_nat (length (Editor.beatMarkers s)) <= Editor.totalBars s ->
  Z.of_nat (length (Editor.beatMarkers (Editor.run ops s)))
    <= Editor.totalBars (Editor.run ops s) /\
  Editor.totalBars (Editor.run ops s) = Editor.totalBars s.
Proof.
  unfold Editor.run. revert s.
  induction ops as [| o ops IH]; intros s Hinv Hfit; [now split |].
  cbn [fold_left].
  destruct (step_fits s o Hinv Hfit) as [Hfit' Htotal].
  destruct (IH (Editor.step s o)) as [Hfit'' Htotal''];
    [now apply step_counter | exact Hfit' |].
  split; [exact Hfit'' | congruence].
Qed.

Lemma onScoreLoaded_fits (masterBars : nat) (s : Editor.state) :
  Z.of_nat (length (Editor.beatMarkers (Editor.onScoreLoaded masterBars s)))
    <= Z.of_nat masterBars /\
  Editor.totalBars (Editor.onScoreLoaded masterBars s) = Z.of_nat masterBars.
Proof.
  unfold Editor.onScoreLoaded. cbn zeta. editor_fields.
  change (Editor.beatMarkers
            (Editor.set_totalBars (Z.of_nat masterBars) (Editor.set_score true s)))
    with (Editor.beatMarkers s).
  change (Editor.totalBars
            (Editor.set_totalBars (Z.of_nat masterBars) (Editor.set_score true s)))
    with (Z.of_nat masterBars).
  destruct (length (Editor.beatMarkers s) =? 0)%nat eqn:E0; cbn [orb].
  - cbn. lia.
  - destruct (Z.ltb_spec (Z.of_nat masterBars)
                (Z.of_nat (length (Editor.beatMarkers s)))) as [Hlt | Hle].
    + cbn. lia.
    + cbn. lia.
Qed.

(** X17: once a score is loaded, the operations of a recording session
    keep the markers within the score: whatever came before the score,
    after any taps, undos and clears there are at most as many markers as
    the score has bars, and the sync progress [updateSyncStats] computes is
    between 0 and 100 percent. *)
Theorem markers_fit_the_score
    (before : list Editor.action) (masterBars : nat) (ops : list Editor.op)
    (s0 : Editor.state) :
  counter_follows_markers s0 ->
  let s :=
    Editor.run ops (Editor.onScoreLoaded masterBars (Editor.act_all before s0)) in
  Editor.totalBars s = Z.of_nat masterBars /\
  (length (Editor.beatMarkers s) <= masterBars)%nat /\
  exists percent : Q,
    Editor.syncPercent s = Num percent /\
    (0 <= percent)%Q /\ (percent <= 100)%Q.
Proof.
  intros Hinv s. subst s.
  set (s1 := Editor.onScoreLoaded masterBars (Editor.act_all before s0)).
  assert (Hinv1 : counter_follows_markers s1).
  { apply (act_counter _ (Editor.ScoreLoaded masterBars)).
    now apply counter_counts_markers. }
  destruct (onScoreLoaded_fits masterBars (Editor.act_all before s0))
    as [Hfit1 Htotal1]. fold s1 in Hfit1, Htotal1.
  destruct (run_fits ops s1 Hinv1) as [Hfit Htotal]; [lia |].
  set (s := Editor.run ops s1) in *.
  assert (Htot : Editor.totalBars s = Z.of_nat masterBars) by congruence.
  split; [exact Htot |]. split; [lia |].
  unfold Editor.syncPercent. rewrite Htot in *.
  destruct (Z.ltb_spec 0 (Z.of_nat masterBars)) as [Hpos | Hzero].
  - unfold of_Z. rewrite div_Num.
    2:{ intros H0. unfold Qeq in H0. cbn in H0. lia. }
    cbn [mul]. eexists. split; [reflexivity |].
    assert (0 < inject_Z (Z.of_nat masterBars))%Q
      by (change 0%Q with (inject_Z 0); rewrite <- Zlt_Qlt; lia).
    assert (0 <= inject_Z (Z.of_nat (length (Editor.beatMarkers s))))%Q
      by (change 0%Q with (inject_Z 0); rewrite <- Zle_Qle; lia).
    assert (inject_Z (Z.of_nat (length (Editor.beatMarkers s)))
            <= inject_Z (Z.of_nat masterBars))%Q
      by (rewrite <- Zle_Qle; lia).
    set (n := inject_Z (Z.of_nat (length (Editor.beatMarkers s)))) in *.
    set (d := inject_Z (Z.of_nat masterBars)) in *.
    assert (0 <= n / d)%Q by (apply Qle_shift_div_l; lra).
    assert (n / d <= 1)%Q by (apply Qle_shift_div_r; lra).
    split; lra.
  - exists 0%Q. repeat split; lra.
Qed.

Lemma markers_fit_the_score_witness :
  let s :=
    Editor.run [Editor.Tap 1; Editor.Tap 2; Editor.Tap 3; Editor.Undo]
      (Editor.onScoreLoaded 2
         (Editor.act_all
            [Editor.LoadSync (Some [Marker 1 0; Marker 2 1; Marker 3 2])]
            Editor.new_SyncEditor)) in
  Editor.totalBars s = Z.of_nat 2 /\
  (length (Editor.beatMarkers s) <= 2)%nat /\
  exists percent : Q,
    Editor.syncPercent s = Num percent /\
    (0 <= percent)%Q /\ (percent <= 100)%Q.
Proof.
  cbn zeta.
  apply (markers_fit_the_score
           [Editor.LoadSync (Some [Marker 1 0; Marker 2 1; Marker 3 2])] 2
           [Editor.Tap 1; Editor.Tap 2; Editor.Tap 3; Editor.Undo]
           Editor.new_SyncEditor).
  reflexivity.
Defined.

(** A sync file loaded after the score may bring more markers than the
    score has bars; the sync progress then runs past 100 percent. *)
Example sync_file_overfills_progress :
  same
    (Editor.syncPercent
       (Editor.act_all
          [Editor.ScoreLoaded 2;
           Editor.LoadSync (Some [Marker 1 0; Marker 2 1; Marker 3 2])]
          Editor.new_SyncEditor))
    (Num 150).
Proof. vm_compute. reflexivity. Qed.

(** X18: [rewind] and [forward] hand [seekTo] a fraction of the audio:
    with the play head inside an audio of positive length the fractions
    lie in the unit interval, on either side of the play head, and stand
    for five seconds back and ahead, cut off at the two ends.  While no
    audio is loaded (time and duration both 0) they hand it NaN. *)
Theorem seek_steps_stay_in_audio
    (currentTime duration : Q) (s : Editor.state) :
  is_Some (Editor.wavesurfer s) ->
  ((0 <= currentTime)%Q -> (currentTime <= duration)%Q -> (0 < duration)%Q ->
   exists back ahead : Q,
     Editor.rewind currentTime duration s = Some (Num back) /\
     Editor.forward currentTime duration s = Some (Num ahead) /\
     (0 <= back)%Q /\ (back <= currentTime / duration)%Q /\
     (currentTime / duration <= ahead)%Q /\ (ahead <= 1)%Q /\
     (back * duration == Qmax 0 (currentTime - 5))%Q /\
     (ahead * duration == Qmin duration (currentTime + 5))%Q) /\
  Editor.rewind 0 0 s = Some NaN /\
  Editor.forward 0 0 s = Some NaN.
Proof.
  intros [rate Hws]. unfold Editor.rewind, Editor.forward. rewrite Hws.
  split; [| split; reflexivity].
  intros H0 H1 Hd. cbn zeta. rewrite sub_Num. cbn [add].
  assert (Hback : exists newTime,
            Math_max (Num 0) (Num (currentTime - 5)) = Num newTime /\
            (newTime == Qmax 0 (currentTime - 5))%Q /\
            (0 <= newTime)%Q /\ (newTime <= currentTime)%Q).
  { destruct (Q.max_spec 0 (currentTime - 5)) as [[Hlt Hmax] | [Hle Hmax]].
    - exists (currentTime - 5)%Q. cbn.
      replace (Qle_bool 0 (currentTime - 5)) with true
        by (symmetry; apply Qle_bool_iff; lra).
      repeat split; lra.
    - exists (if Qle_bool 0 (currentTime - 5) then currentTime - 5 else 0)%Q.
      cbn. destruct (Qle_bool 0 (currentTime - 5)) eqn:E.
      + apply Qle_bool_iff in E. repeat split; lra.
      + repeat split; lra. }
  assert (Hahead : exists newTime,
            Math_min (Num duration) (Num (currentTime + 5)) = Num newTime /\
            (newTime == Qmin duration (currentTime + 5))%Q /\
            (currentTime <= newTime)%Q /\ (newTime <= duration)%Q).
  { destruct (Q.min_spec duration (currentTime + 5)) as [[Hlt Hmin] | [Hle Hmin]].
    - exists duration. cbn.
      replace (Qle_bool duration (currentTime + 5)) with true
        by (symmetry; apply Qle_bool_iff; lra).
      repeat split; lra.
    - exists (if Qle_bool duration (currentTime + 5) then duration
              else currentTime + 5)%Q.
      cbn. destruct (Qle_bool duration (currentTime + 5)) eqn:E.
      + apply Qle_bool_iff in E. repeat split; lra.
      + repeat split; lra. }
  destruct Hback as (tb & -> & Hb1 & Hb2 & Hb3).
  destruct Hahead as (ta & -> & Ha1 & Ha2 & Ha3).
  rewrite !div_Num by lra.
  exists (tb / duration)%Q, (ta / duration)%Q.
  split; [reflexivity |]. split; [reflexivity |].
  assert (Hinv : (0 < / duration)%Q) by (apply Qinv_lt_0_compat; exact Hd).
  unfold Qdiv.
  repeat split.
  - apply Qmult_le_0_compat; lra.
  - apply Qmult_le_compat_r; lra.
  - apply Qmult_le_compat_r; lra.
  - apply Qle_shift_div_r; lra.
  - rewrite <- Hb1. field. lra.
  - rewrite <- Ha1. field. lra.
Qed.

Lemma seek_steps_stay_in_audio_witness :
  ((0 <= 3)%Q -> (3 <= 10)%Q -> (0 < 10)%Q ->
   exists back ahead : Q,
     Editor.rewind 3 10 Editor.new_SyncEditor = Some (Num back) /\
     Editor.forward 3 10 Editor.new_SyncEditor = Some (Num ahead) /\
     (0 <= back)%Q /\ (back <= 3 / 10)%Q /\
     (3 / 10 <= ahead)%Q /\ (ahead <= 1)%Q /\
     (back * 10 == Qmax 0 (3 - 5))%Q /\
     (ahead * 10 == Qmin 10 (3 + 5))%Q) /\
  Editor.rewind 0 0 Editor.new_SyncEditor = Some NaN /\
  Editor.forward 0 0 Editor.new_SyncEditor = Some NaN.
Proof.
  apply seek_steps_stay_in_audio. cbn. eauto.
Defined.

(** X19: the [seeking] handler forces a re-sync: when the time sought
    lies in a bar the score knows, the handler records that bar as synced
    and leaves the renderer cursor on a whole tick inside that bar's range,
    whether or not the jitter filter lets the interpolated tick through. *)
Theorem seeking_puts_cursor_in_bar
    (t : Q) (s : Editor.state) (r : tick_range) :
  Editor.alphaTab s = true ->
  let b := Editor.currentBar (Editor.find_bar t (Editor.beatMarkers s)) in
  0 < b -> Editor.barTickMap s !! b = Some r -> start r <= end_ r ->
  let s' := Editor.onSeeking t s in
  Editor.lastSyncedBar s' = b /\
  exists tick : Z,
    Editor.tickPosition s' = of_Z tick /\ start r <= tick <= end_ r.
Proof.
  intros Halpha b Hb Hr Hrange s'. subst s'.
  unfold Editor.onSeeking, Editor.highlightCurrentBar.
  cbn zeta. editor_fields.
  change (Editor.beatMarkers (Editor.set_lastSyncedBar 0 s))
    with (Editor.beatMarkers s).
  set (sc := Editor.find_bar t (Editor.beatMarkers s)).
  fold sc in b. fold b.
  replace (0 <? b) with true by (symmetry; apply Z.ltb_lt; exact Hb).
  replace (b =? 0) with false by (symmetry; apply Z.eqb_neq; lia).
  cbn [negb andb].
  set (s0 := Editor.set_lastSyncedBar b (Editor.set_lastSyncedBar 0 s)).
  assert (Hs1 : Editor.scrollToBar b s0 =
                Editor.set_tickPosition (of_Z (start r)) s0).
  { unfold Editor.scrollToBar.
    change (Editor.alphaTab s0) with (Editor.alphaTab s).
    change (Editor.barTickMap s0) with (Editor.barTickMap s).
    now rewrite Halpha, Hr. }
  rewrite Hs1.
  change (Editor.barTickMap (Editor.set_tickPosition (of_Z (start r)) s0))
    with (Editor.barTickMap s).
  rewrite Hr.
  destruct (interpolate_tick_in_range r (Editor.bar_progress t sc)
              (editor_bar_progress_unit t sc) Hrange) as (tick & Htick & Hin).
  destruct (_ || _).
  - cbn zeta.
    change (Editor.alphaTab (Editor.set_tickPosition (of_Z (start r)) s0))
      with (Editor.alphaTab s).
    rewrite Halpha. cbn. split; [reflexivity |].
    exists tick. split; [exact Htick | exact Hin].
  - cbn. split; [reflexivity |]. exists (start r). split; [reflexivity | lia].
Qed.

Lemma seeking_puts_cursor_in_bar_witness :
  let s := Editor.recordBeatMarker 1 (loaded_editor [Marker 1 0]) in
  Editor.lastSyncedBar (Editor.onSeeking (1 # 2) s)
    = Editor.currentBar (Editor.find_bar (1 # 2) (Editor.beatMarkers s)) /\
  exists tick : Z,
    Editor.tickPosition (Editor.onSeeking (1 # 2) s) = of_Z tick /\
    start (TickRange 0 3840) <= tick <= end_ (TickRange 0 3840).
Proof.
  cbn zeta.
  apply (seeking_puts_cursor_in_bar (1 # 2)
           (Editor.recordBeatMarker 1 (loaded_editor [Marker 1 0]))
           (TickRange 0 3840)).
  - reflexivity.
  - vm_compute. reflexivity.
  - vm_compute. reflexivity.
  - cbn. lia.
Defined.

(** Without the reset of the [seeking] handler the cursor can stay in
    another bar: after a tap has scrolled to the next bar to mark, a frame
    whose bar is the one already synced and whose tick the jitter filter
    drops leaves it there. *)
Example frame_leaves_cursor_in_next_bar :
  let s :=
    Editor.highlightCurrentBar (1 # 100)
      (Editor.set_lastTick (Num 50)
         (Editor.set_lastSyncedBar 1
            (Editor.recordBeatMarker 0 (loaded_editor [])))) in
  Editor.currentBar (Editor.find_bar (1 # 100) (Editor.beatMarkers s)) = 1 /\
  Editor.tickPosition s = of_Z 3840.
Proof. vm_compute. split; reflexivity. Qed.

(** * The library *)

Lemma string_or_nonempty (x : option string) (d : string) :
  d <> EmptyString -> Library.string_or x d <> EmptyString.
Proof.
  intros Hd. unfold Library.string_or. destruct x as [s |]; [| exact Hd].
  destruct (String.eqb_spec s EmptyString); assumption.
Qed.

Lemma string_or_given (s d : string) :
  s <> EmptyString -> Library.string_or (Some s) d = s.
Proof.
  intros Hs. unfold Library.string_or.
  destruct (String.eqb_spec s EmptyString); [contradiction | reflexivity].
Qed.

Lemma has_data_nonempty (s : string) :
  s <> EmptyString -> EditorLibrary.has_data (Some s) = true.
Proof.
  intros Hs. unfold EditorLibrary.has_data.
  destruct (String.eqb_spec s EmptyString); [contradiction | reflexivity].
Qed.

(** What the editor's [saveToLibrary()] does when it saves. *)
Lemma editor_save_result (freshId createdNow updatedNow : string)
    (f : EditorLibrary.files) (db : gmap string Library.project) (s : EditorLibrary.session) :
  Editor.score (EditorLibrary.core s) = true ->
  is_Some (Editor.wavesurfer (EditorLibrary.core s)) ->
  Editor.beatMarkers (EditorLibrary.core s) <> [] ->
  let pid := Library.string_or (EditorLibrary.projectId s) freshId in
  let r := EditorLibrary.saveToLibrary freshId createdNow updatedNow f db s in
  exists p,
    fst r = <[pid := p]> db /\
    EditorLibrary.projectId (snd r) = Some pid /\
    Editor.beatMarkers (EditorLibrary.core (snd r))
      = Editor.beatMarkers (EditorLibrary.core s) /\
    Library.id p = pid /\
    Library.markers p = Editor.beatMarkers (EditorLibrary.core s) /\
    Library.totalBars p = Editor.totalBars (EditorLibrary.core s) /\
    Library.gpFileData p = EditorLibrary.gpBase64 f /\
    Library.audioFileData p = EditorLibrary.audioBase64 f /\
    Library.createdAt p = createdNow /\
    Library.updatedAt p = updatedNow.
Proof.
  intros Hscore Hws Hms pid r. subst r.
  unfold EditorLibrary.saveToLibrary.
  rewrite Hscore. rewrite bool_decide_eq_true_2 by exact Hws. cbn [negb orb].
  destruct (Editor.beatMarkers (EditorLibrary.core s)) as [| m ms] eqn:E;
    [contradiction |].
  cbn [length Nat.eqb].
  unfold Library.saveToLibrary. cbn zeta.
  cbn [fst snd EditorLibrary.projectId EditorLibrary.core
       EditorLibrary.projectData_of Library.id Library.markers
       Library.totalBars Library.gpFileData Library.audioFileData
       Library.createdAt Library.updatedAt Library.data_id
       Library.data_markers Library.data_totalBars Library.data_gpFileData
       Library.data_audioFileData Library.data_createdAt Library.string_or].
  fold (Library.string_or (EditorLibrary.projectId s) freshId). fold pid.
  eexists. split; [reflexivity |]. split; [reflexivity |].
  assert (Hcore : forall c,
            c = (if Editor.autoSaveTimeout (EditorLibrary.core s)
                 then Editor.set_autoSaveTimeout false (EditorLibrary.core s)
                 else EditorLibrary.core s) ->
            Editor.beatMarkers c = m :: ms /\
            Editor.totalBars c = Editor.totalBars (EditorLibrary.core s)).
  { intros c ->. destruct (Editor.autoSaveTimeout _); cbn; rewrite ?E; auto. }
  destruct (Hcore _ eq_refl) as [Hb Ht].
  cbn [Library.id Library.markers Library.totalBars Library.gpFileData
       Library.audioFileData Library.createdAt Library.updatedAt].
  rewrite Hb, Ht. repeat split; reflexivity.
Qed.

(** X20: a project reopens where it was saved.  When the editor saves a
    session that has a score, audio and markers, it gets a project id;
    a fresh editor opened with that id has the same markers and the next
    bar to mark after them, and when the score arrives the markers stay if
    the score has room for them and are all dropped otherwise; a player
    opened with that id resolves against the same markers. *)
Theorem project_reopens_where_it_was_saved
    (freshId createdNow updatedNow : string) (f : EditorLibrary.files)
    (db : gmap string Library.project) (s : EditorLibrary.session) (masterBars : nat) :
  Editor.score (EditorLibrary.core s) = true ->
  is_Some (Editor.wavesurfer (EditorLibrary.core s)) ->
  Editor.beatMarkers (EditorLibrary.core s) <> [] ->
  freshId <> EmptyString ->
  let ms := Editor.beatMarkers (EditorLibrary.core s) in
  let r := EditorLibrary.saveToLibrary freshId createdNow updatedNow f db s in
  exists pid,
    EditorLibrary.projectId (snd r) = Some pid /\
    let reopened :=
      EditorLibrary.checkForOpenProject (Some pid) (fst r)
        EditorLibrary.new_session in
    EditorLibrary.projectId reopened = Some pid /\
    Editor.beatMarkers (EditorLibrary.core reopened) = ms /\
    Editor.currentBarToMark (EditorLibrary.core reopened)
      = Z.of_nat (length ms) + 1 /\
    Editor.beatMarkers
      (Editor.onScoreLoaded masterBars (EditorLibrary.core reopened))
      = (if (length ms <=? masterBars)%nat then ms else []) /\
    Player.syncData
      (Player.checkForLibraryProject (Some pid) (fst r) Player.new_SyncedPlayer)
      = Some ms.
Proof.
  intros Hscore Hws Hms Hfresh ms r.
  destruct (editor_save_result freshId createdNow updatedNow f db s
              Hscore Hws Hms)
    as (p & Hdb & Hpid & _ & Hid & Hmarkers & _).
  fold r in Hdb, Hpid.
  set (pid := Library.string_or (EditorLibrary.projectId s) freshId) in *.
  assert (Hne : pid <> EmptyString) by now apply string_or_nonempty.
  exists pid. split; [exact Hpid |].
  assert (Hload : Library.loadProject pid (fst r) = Some p).
  { unfold Library.loadProject. rewrite Hdb. apply lookup_insert_eq. }
  unfold EditorLibrary.checkForOpenProject, Player.checkForLibraryProject.
  rewrite has_data_nonempty by exact Hne. cbn [negb].
  change (default EmptyString (Some pid)) with pid.
  rewrite Hload. cbn zeta.
  set (core1 := Editor.openProject _ _).
  assert (H1 : Editor.beatMarkers core1 = ms /\
               Editor.currentBarToMark core1 = Z.of_nat (length ms) + 1).
  { unfold core1, Editor.openProject. cbn. now rewrite Hmarkers. }
  destruct H1 as [Hb1 Hc1].
  set (core2 := if _ && _ then _ else core1).
  assert (H2 : Editor.beatMarkers core2 = ms /\
               Editor.currentBarToMark core2 = Z.of_nat (length ms) + 1).
  { unfold core2. destruct (_ && _); [cbn |]; auto. }
  destruct H2 as [Hb2 Hc2].
  set (core3 := if EditorLibrary.has_data _ then _ else core2).
  assert (H3 : Editor.beatMarkers core3 = ms /\
               Editor.currentBarToMark core3 = Z.of_nat (length ms) + 1).
  { unfold core3.
    destruct (EditorLibrary.has_data (Library.audioFileData p)); [| auto].
    destruct (Editor.wavesurfer core2); [auto |].
    cbn [Editor.set_wavesurfer Editor.beatMarkers Editor.currentBarToMark].
    auto. }
  destruct H3 as [Hb3 Hc3].
  cbn [EditorLibrary.projectId EditorLibrary.core].
  split; [now rewrite Hid |]. split; [exact Hb3 |]. split; [exact Hc3 |].
  split.
  - unfold Editor.onScoreLoaded. cbn zeta.
    change (Editor.beatMarkers (Editor.set_totalBars _ (Editor.set_score true core3)))
      with (Editor.beatMarkers core3).
    change (Editor.totalBars (Editor.set_totalBars (Z.of_nat masterBars)
                                (Editor.set_score true core3)))
      with (Z.of_nat masterBars).
    rewrite Hb3.
    assert (Hlen : length ms <> 0%nat).
    { unfold ms. destruct (Editor.beatMarkers _); [contradiction | discriminate]. }
    replace (length ms =? 0)%nat with false
      by (symmetry; apply Nat.eqb_neq; exact Hlen).
    cbn [orb].
    destruct (Nat.leb_spec (length ms) masterBars) as [Hle | Hgt].
    + replace (Z.of_nat masterBars <? Z.of_nat (length ms)) with false
        by (symmetry; apply Z.ltb_ge; lia).
      cbn. exact Hb3.
    + replace (Z.of_nat masterBars <? Z.of_nat (length ms)) with true
        by (symmetry; apply Z.ltb_lt; lia).
      reflexivity.
  - cbn. now rewrite Hmarkers.
Qed.

Lemma project_reopens_where_it_was_saved_witness :
  let ms := Editor.beatMarkers (EditorLibrary.core four_bar_session) in
  let r :=
    EditorLibrary.saveToLibrary "k1" "2024-01-01" "2024-01-01"
      four_bar_files ∅ four_bar_session in
  exists pid,
    EditorLibrary.projectId (snd r) = Some pid /\
    let reopened :=
      EditorLibrary.checkForOpenProject (Some pid) (fst r)
        EditorLibrary.new_session in
    EditorLibrary.projectId reopened = Some pid /\
    Editor.beatMarkers (EditorLibrary.core reopened) = ms /\
    Editor.currentBarToMark (EditorLibrary.core reopened)
      = Z.of_nat (length ms) + 1 /\
    Editor.beatMarkers
      (Editor.onScoreLoaded 4 (EditorLibrary.core reopened))
      = (if (length ms <=? 4)%nat then ms else []) /\
    Player.syncData
      (Player.checkForLibraryProject (Some pid) (fst r) Player.new_SyncedPlayer)
      = Some ms.
Proof.
  apply (project_reopens_where_it_was_saved "k1" "2024-01-01" "2024-01-01"
           four_bar_files ∅ four_bar_session 4).
  - reflexivity.
  - cbn. eauto.
  - discriminate.
  - discriminate.
Defined.

(** X21: a session that comes from the library saves in place.  The save
    replaces the project stored under the session's id and touches no
    other: the store keeps its keys.  The editor hands over no creation
    date, so the stored one becomes the time of this save.  An auto-save
    that finds both files stores what the manual save stores. *)
Theorem editor_saves_in_place
    (freshId createdNow updatedNow : string) (f : EditorLibrary.files)
    (db : gmap string Library.project) (s : EditorLibrary.session)
    (pid : string) (old : Library.project) :
  Editor.score (EditorLibrary.core s) = true ->
  is_Some (Editor.wavesurfer (EditorLibrary.core s)) ->
  Editor.beatMarkers (EditorLibrary.core s) <> [] ->
  EditorLibrary.projectId s = Some pid -> pid <> EmptyString ->
  db !! pid = Some old ->
  let r := EditorLibrary.saveToLibrary freshId createdNow updatedNow f db s in
  dom (fst r) = dom db /\
  EditorLibrary.projectId (snd r) = Some pid /\
  (forall other, other <> pid -> fst r !! other = db !! other) /\
  (exists p,
     fst r !! pid = Some p /\
     Library.markers p = Editor.beatMarkers (EditorLibrary.core s) /\
     Library.createdAt p = createdNow /\
     Library.updatedAt p = updatedNow) /\
  (EditorLibrary.isSaving s = false ->
   EditorLibrary.has_data (EditorLibrary.gpBase64 f) = true ->
   EditorLibrary.has_data (EditorLibrary.audioBase64 f) = true ->
   fst (EditorLibrary.autoSave freshId createdNow updatedNow f db s) = fst r).
Proof.
  intros Hscore Hws Hms Hpid Hne Hold r.
  destruct (editor_save_result freshId createdNow updatedNow f db s
              Hscore Hws Hms)
    as (p & Hdb & Hpid' & _ & Hid & Hmarkers & _ & _ & _ & Hc & Hu).
  fold r in Hdb, Hpid'.
  rewrite Hpid, string_or_given in Hdb, Hpid', Hid by exact Hne.
  split.
  - rewrite Hdb. apply dom_insert_lookup_L. eauto.
  - split; [exact Hpid' |]. split.
    + intros other Hother. rewrite Hdb. now apply lookup_insert_ne.
    + split.
      * exists p. split; [rewrite Hdb; apply lookup_insert_eq | auto].
      * intros Hsaving Hgp Haudio.
        unfold r, EditorLibrary.autoSave, EditorLibrary.saveToLibrary.
        rewrite Hsaving, Hscore, Hgp, Haudio.
        rewrite bool_decide_eq_true_2 by exact Hws. cbn [negb orb].
        destruct (Editor.beatMarkers (EditorLibrary.core s)) as [| m ms] eqn:E;
          [contradiction |].
        cbn [length Nat.eqb]. unfold Library.saveToLibrary. cbn [fst].
        unfold EditorLibrary.projectData_of.
        cbn [EditorLibrary.core EditorLibrary.projectId Library.data_id
             Library.data_title Library.data_artist Library.data_gpFileName
             Library.data_audioFileName Library.data_gpFileData
             Library.data_audioFileData Library.data_markers
             Library.data_totalBars Library.data_audioDuration
             Library.data_createdAt Library.id].
        destruct (Editor.autoSaveTimeout (EditorLibrary.core s));
          cbn; rewrite ?E; reflexivity.
Qed.

Lemma editor_saves_in_place_witness :
  let saved :=
    EditorLibrary.saveToLibrary "k1" "2024-01-01" "2024-01-01"
      four_bar_files ∅ four_bar_session in
  let s := snd saved in
  let db := fst saved in
  let r :=
    EditorLibrary.saveToLibrary "k2" "2024-02-02" "2024-02-02"
      four_bar_files db s in
  dom (fst r) = dom db /\
  EditorLibrary.projectId (snd r) = Some "k1" /\
  (forall other, other <> "k1" -> fst r !! other = db !! other) /\
  (exists p,
     fst r !! "k1" = Some p /\
     Library.markers p = Editor.beatMarkers (EditorLibrary.core s) /\
     Library.createdAt p = "2024-02-02" /\
     Library.updatedAt p = "2024-02-02") /\
  (EditorLibrary.isSaving s = false ->
   EditorLibrary.has_data (EditorLibrary.gpBase64 four_bar_files) = true ->
   EditorLibrary.has_data (EditorLibrary.audioBase64 four_bar_files) = true ->
   fst (EditorLibrary.autoSave "k2" "2024-02-02" "2024-02-02"
          four_bar_files db s) = fst r).
Proof.
  cbn zeta.
  eapply (editor_saves_in_place "k2" "2024-02-02" "2024-02-02").
  - reflexivity.
  - cbn. eauto.
  - discriminate.
  - reflexivity.
  - discriminate.
  - vm_compute. reflexivity.
Defined.

(** ** The library page *)

Lemma mirrors_count_aux (l : list Library.project) :
  forall db : gmap string Library.project,
  NoDup (map Library.id l) ->
  (forall k p, db !! k = Some p <-> In p l /\ Library.id p = k) ->
  length l = size db.
Proof.
  induction l as [| a l IH]; intros db Hnodup Hiff.
  - replace db with (∅ : gmap string Library.project);
      [symmetry; apply (map_size_empty (M := gmap string)) |].
    symmetry. apply map_empty. intros k.
    destruct (db !! k) as [p |] eqn:E; [| reflexivity].
    apply Hiff in E as [[] _].
  - cbn [map] in Hnodup. apply NoDup_cons in Hnodup as [Hnotin Hnodup].
    assert (Ha : db !! Library.id a = Some a)
      by (apply Hiff; split; [now left | reflexivity]).
    assert (Hsize : size db = S (size (delete (Library.id a) db))).
    { rewrite map_size_delete, Ha. cbn.
      assert (size db <> 0%nat); [| lia].
      apply map_size_non_empty_iff. intros ->. now rewrite lookup_empty in Ha. }
    cbn [length]. rewrite Hsize. f_equal.
    apply IH; [exact Hnodup |].
    intros k p. rewrite lookup_delete_Some, Hiff. cbn [In]. split.
    + intros (Hne & [-> | Hin] & Hk); [congruence | auto].
    + intros (Hin & Hk). split; [| auto].
      intros Heq. apply Hnotin. apply list_elem_of_In, in_map_iff.
      exists p. split; [congruence | exact Hin].
Qed.

Lemma mirrors_count (s : Library.state) :
  mirrors s -> Library.totalProjects s = size (Library.db s).
Proof.
  intros [Hnodup Hiff]. now apply mirrors_count_aux.
Qed.

Lemma NoDup_map_filter {A B : Type} (f : A -> B) (g : A -> bool) (l : list A) :
  NoDup (map f l) -> NoDup (map f (List.filter g l)).
Proof.
  induction l as [| a l IH]; intros Hnodup; [exact Hnodup |].
  cbn [map] in Hnodup. apply NoDup_cons in Hnodup as [Hnotin Hnodup].
  cbn [List.filter]. destruct (g a); [| now apply IH].
  cbn [map]. apply NoDup_cons. split; [| now apply IH].
  intros Hin. apply Hnotin.
  apply list_elem_of_In, in_map_iff in Hin as (x & Hx & Hin).
  apply filter_In in Hin as [Hin _].
  apply list_elem_of_In, in_map_iff. eauto.
Qed.

Lemma deleteProject_mirrors (projectId : string) (s : Library.state) :
  mirrors s -> mirrors (Library.deleteProject projectId s).
Proof.
  intros [Hnodup Hiff]. unfold Library.deleteProject, mirrors.
  cbn [Library.db Library.projects]. split; [now apply NoDup_map_filter |].
  intros k p. rewrite lookup_delete_Some, Hiff, filter_In. split.
  - intros (Hne & Hin & Hk). repeat split; try assumption.
    apply negb_true_iff, String.eqb_neq. congruence.
  - intros ((Hin & Hneq) & Hk). repeat split; try assumption.
    apply negb_true_iff, String.eqb_neq in Hneq. congruence.
Qed.

Lemma duplicateProject_mirrors
    (freshId createdNow updatedNow savedNow projectId : string)
    (s : Library.state) :
  Library.db s !! freshId = None ->
  mirrors s ->
  mirrors (Library.duplicateProject freshId createdNow updatedNow savedNow
             projectId s).
Proof.
  intros Hfresh [Hnodup Hiff]. unfold Library.duplicateProject, Library.getProject.
  destruct (Library.db s !! projectId) as [p |]; [| now split].
  cbn. unfold mirrors. cbn [Library.db Library.projects]. split.
  - rewrite map_app. cbn [map Library.id Library.set_updatedAt].
    apply NoDup_app. split; [exact Hnodup |]. split; [| apply NoDup_singleton].
    intros x Hx Hx'. apply list_elem_of_singleton in Hx'. subst x.
    apply list_elem_of_In, in_map_iff in Hx as (q & Hq & Hin).
    assert (Library.db s !! freshId = Some q) by (apply Hiff; auto).
    congruence.
  - intros k q. rewrite lookup_insert_Some, Hiff, in_app_iff. cbn [In]. split.
    + intros [[<- <-] | (Hne & Hin & Hk)]; [split; [right; left |]; reflexivity |].
      auto.
    + intros ([Hin | [<- | []]] & Hk).
      * right. split; [| auto]. intros <-.
        assert (Library.db s !! Library.id q = Some q) by (apply Hiff; auto).
        congruence.
      * left. cbn in Hk. auto.
Qed.

(** X22: the library page keeps its list in step with the object store:
    over any deletions and duplications, as long as the identifiers made
    for the copies are new to the store, every stored project is listed
    once under its own id and nothing else is listed, and the project
    count [updateStats] shows is the size of the store. *)
Theorem library_page_mirrors_store
    (actions : list library_action) (s : Library.state) :
  mirrors s -> fresh_ids s actions ->
  let s' := fold_left library_step actions s in
  mirrors s' /\ Library.totalProjects s' = size (Library.db s').
Proof.
  intros Hm Hfresh. cbn zeta.
  assert (Hgoal : mirrors (fold_left library_step actions s)).
  { revert s Hm Hfresh.
    induction actions as [| a actions IH]; intros s Hm Hfresh; [exact Hm |].
    cbn [fold_left]. destruct Hfresh as [Ha Hrest]. apply IH; [| exact Hrest].
    destruct a as [pid | freshId c u sv pid]; cbn [library_step].
    - now apply deleteProject_mirrors.
    - now apply duplicateProject_mirrors. }
  split; [exact Hgoal | now apply mirrors_count].
Qed.

Lemma library_with_mirrors (p : Library.project) : mirrors (library_with p).
Proof.
  unfold library_with, mirrors. cbn [Library.db Library.projects]. split.
  - cbn [map]. apply NoDup_singleton.
  - intros k q. rewrite lookup_insert_Some, lookup_empty. cbn [In]. split.
    + intros [[<- <-] | [_ Hnone]]; [auto | discriminate].
    + intros ([<- | []] & <-). left. auto.
Qed.

Lemma library_page_mirrors_store_witness :
  let actions :=
    [Duplicate "k2" "2024-03-01" "2024-03-01" "2024-03-01" "k1";
     Duplicate "k3" "2024-03-02" "2024-03-02" "2024-03-02" "k2";
     Delete "k1"; Delete "k9"] in
  let s' := fold_left library_step actions (library_with four_bar_project) in
  mirrors s' /\ Library.totalProjects s' = size (Library.db s').
Proof.
  cbn zeta. apply library_page_mirrors_store.
  - apply library_with_mirrors.
  - vm_compute. auto.
Defined.

(** * Text *)

Lemma string_append_cons (x : ascii) (s t : string) :
  (String x s ++ t)%string = String x (s ++ t)%string.
Proof. reflexivity. Qed.

Lemma string_append_assoc (s t u : string) :
  ((s ++ t) ++ u = s ++ (t ++ u))%string.
Proof.
  induction s as [| x s IH]; [reflexivity |].
  rewrite !string_append_cons. now f_equal.
Qed.

Lemma replace_all_append (c : ascii) (replacement s t : string) :
  Text.replace_all c replacement (s ++ t)
  = (Text.replace_all c replacement s ++ Text.replace_all c replacement t)%string.
Proof.
  induction s as [| x s IH]; [reflexivity |].
  rewrite string_append_cons.
  cbn [Text.replace_all]. rewrite IH.
  destruct (Ascii.eqb x c); [| reflexivity].
  now rewrite string_append_assoc.
Qed.

Lemma escapeHtml_one_pass (s : string) :
  Text.escapeHtml (Some s) = escaped_in_one_pass s.
Proof.
  unfold Text.escapeHtml.
  induction s as [| c s IH]; [reflexivity |].
  cbn [escaped_in_one_pass]. rewrite <- IH. clear IH.
  unfold escaped_char.
  cbn [Text.replace_all].
  destruct (Ascii.eqb_spec c "&") as [-> | Hamp].
  { rewrite !replace_all_append. reflexivity. }
  cbn [Text.replace_all].
  destruct (Ascii.eqb_spec c "<") as [-> | Hlt].
  { rewrite !replace_all_append. reflexivity. }
  cbn [Text.replace_all].
  destruct (Ascii.eqb_spec c ">") as [-> | Hgt].
  { rewrite !replace_all_append. reflexivity. }
  cbn [Text.replace_all].
  destruct (Ascii.eqb_spec c Text.quote) as [-> | Hq]; reflexivity.
Qed.

Lemma occurs_append (c : ascii) (s t : string) :
  occurs c (s ++ t) <-> occurs c s \/ occurs c t.
Proof.
  induction s as [| x s IH]; [cbn; tauto |].
  rewrite string_append_cons. cbn [occurs]. rewrite IH. tauto.
Qed.

Lemma escaped_char_safe (x c : ascii) :
  occurs c (escaped_char x) ->
  c <> "<"%char /\ c <> ">"%char /\ c <> Text.quote.
Proof.
  unfold escaped_char.
  destruct (Ascii.eqb_spec x "&") as [-> | Hamp].
  { cbn. intros H. repeat destruct H as [<- | H]; try easy. }
  destruct (Ascii.eqb_spec x "<") as [-> | Hlt].
  { cbn. intros H. repeat destruct H as [<- | H]; try easy. }
  destruct (Ascii.eqb_spec x ">") as [-> | Hgt].
  { cbn. intros H. repeat destruct H as [<- | H]; try easy. }
  destruct (Ascii.eqb_spec x Text.quote) as [-> | Hq].
  { cbn. intros H. repeat destruct H as [<- | H]; try easy. }
  cbn. intros [<- | []]. auto.
Qed.

Lemma escaped_in_one_pass_injective (s t : string) :
  escaped_in_one_pass s = escaped_in_one_pass t -> s = t.
Proof.
  revert t. induction s as [| x s IH]; intros [| y t] Heq.
  - reflexivity.
  - exfalso. cbn in Heq. unfold escaped_char in Heq.
    repeat (destruct (Ascii.eqb _ _) in Heq; [discriminate Heq |]).
    discriminate Heq.
  - exfalso. cbn in Heq. unfold escaped_char in Heq.
    repeat (destruct (Ascii.eqb _ _) in Heq; [discriminate Heq |]).
    discriminate Heq.
  - cbn [escaped_in_one_pass] in Heq. unfold escaped_char in Heq.
    destruct (Ascii.eqb_spec x "&") as [-> | Hx1];
    [| destruct (Ascii.eqb_spec x "<") as [-> | Hx2];
       [| destruct (Ascii.eqb_spec x ">") as [-> | Hx3];
          [| destruct (Ascii.eqb_spec x Text.quote) as [-> | Hx4]]]];
    (destruct (Ascii.eqb_spec y "&") as [-> | Hy1];
     [| destruct (Ascii.eqb_spec y "<") as [-> | Hy2];
        [| destruct (Ascii.eqb_spec y ">") as [-> | Hy3];
           [| destruct (Ascii.eqb_spec y Text.quote) as [-> | Hy4]]]]);
    cbn [String.append] in Heq;
    try discriminate Heq;
    try (injection Heq as Heq; f_equal; now apply IH);
    try (injection Heq as Hc Heq; congruence).
    injection Heq as -> Heq. f_equal. now apply IH.
Qed.

(** X23: [escapeHtml] leaves no [<], [>] or double quote in its result;
    its four passes act as one pass that replaces every character once
    (the ampersands the later passes bring in are not escaped again); and
    it loses nothing: different strings have different results. *)
Theorem escapeHtml_is_safe_and_lossless (str : option string) :
  (forall c, occurs c (Text.escapeHtml str) ->
     c <> "<"%char /\ c <> ">"%char /\ c <> Text.quote) /\
  (forall s, str = Some s -> Text.escapeHtml str = escaped_in_one_pass s) /\
  (forall s t,
     Text.escapeHtml (Some s) = Text.escapeHtml (Some t) -> s = t).
Proof.
  split; [| split].
  - destruct str as [s |]; [| intros c []].
    rewrite escapeHtml_one_pass.
    induction s as [| x s IH]; intros c Hc; [destruct Hc |].
    cbn [escaped_in_one_pass] in Hc. apply occurs_append in Hc as [Hc | Hc].
    + now apply escaped_char_safe with x.
    + now apply IH.
  - intros s ->. apply escapeHtml_one_pass.
  - intros s t. rewrite !escapeHtml_one_pass.
    apply escaped_in_one_pass_injective.
Qed.

(** X24: the stem of a download's file name has one character for each
    character of the title, holds letters, digits and underscores only, is
    not changed by a second pass, and is the title itself when that holds
    letters and digits only. *)
Theorem fileStem_is_a_safe_name (title : string) :
  String.length (Text.fileStem title) = String.length title /\
  (forall c, occurs c (Text.fileStem title) ->
     Text.is_alphanumeric c = true \/ c = "_"%char) /\
  Text.fileStem (Text.fileStem title) = Text.fileStem title /\
  ((forall c, occurs c title -> Text.is_alphanumeric c = true) ->
   Text.fileStem title = title).
Proof.
  induction title as [| x title (IHlen & IHsafe & IHidem & IHfix)].
  - repeat split; try reflexivity. intros c [].
  - cbn [Text.fileStem String.length occurs]. split; [now rewrite IHlen |].
    split; [| split].
    + intros c [<- | Hc]; [| now apply IHsafe].
      destruct (Text.is_alphanumeric x) eqn:E; auto.
    + rewrite IHidem. f_equal.
      destruct (Text.is_alphanumeric x) eqn:E; [now rewrite E | reflexivity].
    + intros Hall. rewrite (Hall x) by now left.
      f_equal. apply IHfix. intros c Hc. apply Hall. now right.
Qed.

Lemma escapeHtml_is_safe_and_lossless_witness :
  (forall c, occurs c (Text.escapeHtml (Some "R&B <live>"%string)) ->
     c <> "<"%char /\ c <> ">"%char /\ c <> Text.quote) /\
  (forall s, Some "R&B <live>"%string = Some s ->
     Text.escapeHtml (Some "R&B <live>"%string) = escaped_in_one_pass s) /\
  (forall s t,
     Text.escapeHtml (Some s) = Text.escapeHtml (Some t) -> s = t).
Proof.
  apply (escapeHtml_is_safe_and_lossless (Some "R&B <live>"%string)).
Defined.

Lemma fileStem_is_a_safe_name_witness :
  String.length (Text.fileStem "Song #1 (live)")
  = String.length "Song #1 (live)" /\
  (forall c, occurs c (Text.fileStem "Song #1 (live)") ->
     Text.is_alphanumeric c = true \/ c = "_"%char) /\
  Text.fileStem (Text.fileStem "Song #1 (live)")
  = Text.fileStem "Song #1 (live)" /\
  ((forall c, occurs c "Song #1 (live)" -> Text.is_alphanumeric c = true) ->
   Text.fileStem "Song #1 (live)" = "Song #1 (live)"%string).
Proof.
  apply (fileStem_is_a_safe_name "Song #1 (live)").
Defined.

(** The escaped title of the page and the stem of its file name. *)
Example escaped_title :
  Text.escapeHtml (Some "R&B <live>"%string) = "R&amp;B &lt;live&gt;"%string /\
  Text.fileStem "R&B <live>" = "R_B__live_"%string.
Proof. split; reflexivity. Qed.

(** * Binary data *)

Lemma string_of_list_ascii_app (l1 l2 : list ascii) :
  String.string_of_list_ascii (l1 ++ l2)
  = (String.string_of_list_ascii l1 ++ String.string_of_list_ascii l2)%string.
Proof.
  induction l1 as [| x l1 IH]; [reflexivity |].
  cbn [app String.string_of_list_ascii]. rewrite string_append_cons. now f_equal.
Qed.

Lemma firstn_extend {A : Type} (l : list A) (i k : nat) :
  firstn i l ++ firstn k (skipn i l) = firstn (i + k) l.
Proof.
  revert l. induction i as [| i IH]; intros l; [reflexivity |].
  destruct l as [| x l]; [now destruct k |].
  cbn. f_equal. apply IH.
Qed.

(** The loop, started at [i] with the first [i] bytes converted, ends
    with all of them converted once it has fuel for the bytes left. *)
Lemma chunk_loop_complete (fuel : nat) :
  forall (i : nat) (bytes : list ascii),
  (length bytes - i <= fuel)%nat ->
  Binary.chunk_loop fuel i bytes (String.string_of_list_ascii (firstn i bytes))
  = String.string_of_list_ascii bytes.
Proof.
  assert (Hpos : (0 < Binary.chunkSize)%nat) by (unfold Binary.chunkSize; lia).
  induction fuel as [| fuel IH]; intros i bytes Hfuel; cbn [Binary.chunk_loop].
  - rewrite firstn_all2 by lia. reflexivity.
  - destruct (Nat.ltb_spec i (length bytes)) as [Hlt | Hge].
    + cbn zeta. unfold Binary.subarray.
      rewrite <- string_of_list_ascii_app, firstn_extend.
      destruct (Nat.le_ge_cases (i + Binary.chunkSize) (length bytes))
        as [Hin | Hout].
      * rewrite Nat.min_l by exact Hin.
        replace (i + (i + Binary.chunkSize - i))%nat
          with (i + Binary.chunkSize)%nat by lia.
        apply IH. lia.
      * rewrite Nat.min_r by exact Hout.
        replace (i + (length bytes - i))%nat with (length bytes) by lia.
        rewrite firstn_all.
        destruct fuel as [| fuel']; [reflexivity |].
        cbn [Binary.chunk_loop].
        destruct (Nat.ltb_spec (i + Binary.chunkSize) (length bytes));
          [lia | reflexivity].
    + rewrite firstn_all2 by lia. reflexivity.
Qed.

(** X25: the chunks do not show.  [arrayBufferToBase64] encodes the
    binary string of all the bytes in their order, whatever their number,
    and with a browser whose [atob] undoes its [btoa],
    [base64ToArrayBuffer] gives back the bytes [arrayBufferToBase64] was
    given. *)
Theorem base64_round_trip (btoa atob : string -> string)
    (bytes : list ascii) :
  (forall binary, atob (btoa binary) = binary) ->
  Binary.arrayBufferToBase64 btoa bytes = btoa (String.string_of_list_ascii bytes) /\
  Binary.base64ToArrayBuffer atob (Binary.arrayBufferToBase64 btoa bytes)
  = bytes.
Proof.
  intros Hplatform.
  assert (Hall : Binary.arrayBufferToBase64 btoa bytes
                 = btoa (String.string_of_list_ascii bytes)).
  { unfold Binary.arrayBufferToBase64. f_equal.
    apply (chunk_loop_complete (length bytes) 0 bytes). lia. }
  split; [exact Hall |].
  unfold Binary.base64ToArrayBuffer. rewrite Hall, Hplatform.
  apply String.list_ascii_of_string_of_list_ascii.
Qed.

Lemma base64_round_trip_witness :
  let bytes := ["G"; "P"; "0"; "1"; "255"; "000"]%char in
  Binary.arrayBufferToBase64 (fun s => s) bytes
  = String.string_of_list_ascii bytes /\
  Binary.base64ToArrayBuffer (fun s => s)
    (Binary.arrayBufferToBase64 (fun s => s) bytes)
  = bytes.
Proof.
  cbn zeta.
  apply (base64_round_trip (fun s => s) (fun s => s)). reflexivity.
Defined.

(** * Times as text *)

Lemma Qfloor_unique (q : Q) (z : Z) :
  (inject_Z z <= q)%Q -> (q < inject_Z (z + 1))%Q -> Qfloor q = z.
Proof.
  intros Hle Hlt.
  pose proof (Qfloor_le q) as Hfl. pose proof (Qlt_floor q) as Hfu.
  assert (z < Qfloor q + 1) by (rewrite Zlt_Qlt; lra).
  assert (Qfloor q < z + 1) by (rewrite Zlt_Qlt; lra).
  lia.
Qed.

Lemma Qfloor_div (x : Q) (n : Z) :
  0 < n -> Qfloor (x / inject_Z n) = Qfloor x / n.
Proof.
  intros Hn.
  assert (Hnq : (0 < inject_Z n)%Q)
    by (change 0%Q with (inject_Z 0); rewrite <- Zlt_Qlt; exact Hn).
  pose proof (Qfloor_le x) as Hfl. pose proof (Qlt_floor x) as Hfu.
  set (k := Qfloor x / n).
  assert (Hk : n * k <= Qfloor x < n * (k + 1)).
  { unfold k. pose proof (Z.mul_div_le (Qfloor x) n Hn).
    pose proof (Z.mul_succ_div_gt (Qfloor x) n Hn). lia. }
  apply Qfloor_unique.
  - apply Qle_shift_div_l; [exact Hnq |].
    rewrite <- inject_Z_mult.
    apply Qle_trans with (inject_Z (Qfloor x)); [| exact Hfl].
    rewrite <- Zle_Qle. lia.
  - apply Qlt_shift_div_r; [exact Hnq |].
    rewrite <- inject_Z_mult.
    apply Qlt_le_trans with (inject_Z (Qfloor x + 1)); [exact Hfu |].
    rewrite <- Zle_Qle. lia.
Qed.

Lemma Qfloor_minus_Z (x : Q) (z : Z) :
  Qfloor (x - inject_Z z) = Qfloor x - z.
Proof.
  pose proof (Qfloor_le x) as Hfl. pose proof (Qlt_floor x) as Hfu.
  apply Qfloor_unique.
  - unfold Z.sub. rewrite inject_Z_plus, inject_Z_opp. lra.
  - replace (Qfloor x - z + 1) with (Qfloor x + 1 - z) by lia.
    unfold Z.sub. rewrite inject_Z_plus, inject_Z_opp. lra.
Qed.

Lemma truncate_nonneg (q : Q) : (0 <= q)%Q -> Format.truncate q = Qfloor q.
Proof.
  intros Hq. unfold Format.truncate.
  now replace (Qle_bool 0 q) with true by (symmetry; apply Qle_bool_iff; exact Hq).
Qed.

Lemma remainder_nonneg (x : Q) (n : Z) :
  (0 <= x)%Q -> 0 < n ->
  (Format.remainder x (inject_Z n)
   == x - inject_Z (n * (Qfloor x / n)))%Q.
Proof.
  intros Hx Hn.
  assert (Hnq : (0 < inject_Z n)%Q)
    by (change 0%Q with (inject_Z 0); rewrite <- Zlt_Qlt; exact Hn).
  unfold Format.remainder.
  rewrite truncate_nonneg by (apply Qle_shift_div_l; lra).
  rewrite Qfloor_div by exact Hn. rewrite inject_Z_mult. reflexivity.
Qed.

(** X26: the texts show the time split by whole seconds: for a time that
    is not negative, minutes and seconds are the quotient and the
    remainder of the whole seconds by 60, the seconds between 0 and 59 on
    two digits, and the milliseconds of [formatTime] are the whole
    milliseconds modulo 1000, between 0 and 999 on three digits. *)
Theorem formatTime_splits_the_time (seconds : Q) :
  (0 <= seconds)%Q ->
  let whole := Qfloor seconds in
  Format.formatTimeShort seconds
  = (Format.toString (whole / 60) ++ ":"
     ++ Format.padStart 2 (Format.toString (whole mod 60)))%string /\
  Format.formatTime seconds
  = (Format.toString (whole / 60) ++ ":"
     ++ Format.padStart 2 (Format.toString (whole mod 60)) ++ "."
     ++ Format.padStart 3
          (Format.toString (Qfloor (seconds * 1000) mod 1000)))%string /\
  0 <= whole / 60 /\ 0 <= whole mod 60 <= 59 /\
  0 <= Qfloor (seconds * 1000) mod 1000 <= 999.
Proof.
  intros Hs whole.
  assert (Hmins : Qfloor (seconds / 60) = whole / 60).
  { change 60%Q with (inject_Z 60). now apply Qfloor_div. }
  assert (Hsecs : Qfloor (Format.remainder seconds 60) = whole mod 60).
  { change 60%Q with (inject_Z 60).
    rewrite (Qfloor_comp _ _ (remainder_nonneg seconds 60 Hs eq_refl)).
    rewrite Qfloor_minus_Z. fold whole. rewrite Z.mod_eq by lia. reflexivity. }
  assert (Hms : Qfloor (Format.remainder seconds 1 * 1000)
                = Qfloor (seconds * 1000) mod 1000).
  { assert (Heq : (Format.remainder seconds 1 * 1000
                   == seconds * 1000 - inject_Z (1000 * whole))%Q).
    { change 1%Q with (inject_Z 1).
      rewrite (remainder_nonneg seconds 1 Hs eq_refl).
      rewrite Z.div_1_r, Z.mul_1_l. fold whole.
      rewrite inject_Z_mult. change (inject_Z 1000) with 1000%Q. ring. }
    rewrite (Qfloor_comp _ _ Heq), Qfloor_minus_Z.
    assert (Hwhole : whole = Qfloor (seconds * 1000) / 1000).
    { unfold whole. rewrite <- Qfloor_div by lia. apply Qfloor_comp.
      change (inject_Z 1000) with 1000%Q. field. }
    rewrite Z.mod_eq by lia. now rewrite <- Hwhole. }
  assert (Hwhole0 : 0 <= whole).
  { unfold whole. change 0 with (Qfloor 0). now apply Qfloor_resp_le. }
  assert (Hk0 : 0 <= Qfloor (seconds * 1000)).
  { change 0 with (Qfloor 0). apply Qfloor_resp_le. lra. }
  unfold Format.formatTimeShort, Format.formatTime. cbn zeta.
  rewrite Hmins, Hsecs, Hms.
  split; [reflexivity |]. split; [reflexivity |].
  pose proof (Z.mod_pos_bound whole 60).
  pose proof (Z.mod_pos_bound (Qfloor (seconds * 1000)) 1000).
  pose proof (Z.div_pos whole 60).
  lia.
Qed.

Lemma formatTime_splits_the_time_witness :
  let whole := Qfloor (7525 # 100) in
  Format.formatTimeShort (7525 # 100)
  = (Format.toString (whole / 60) ++ ":"
     ++ Format.padStart 2 (Format.toString (whole mod 60)))%string /\
  Format.formatTime (7525 # 100)
  = (Format.toString (whole / 60) ++ ":"
     ++ Format.padStart 2 (Format.toString (whole mod 60)) ++ "."
     ++ Format.padStart 3
          (Format.toString (Qfloor ((7525 # 100) * 1000) mod 1000)))%string /\
  0 <= whole / 60 /\ 0 <= whole mod 60 <= 59 /\
  0 <= Qfloor ((7525 # 100) * 1000) mod 1000 <= 999.
Proof.
  apply formatTime_splits_the_time. lra.
Defined.

(** One minute, fifteen and a quarter seconds. *)
Example formatTime_example :
  Format.formatTime (7525 # 100) = "1:15.250"%string /\
  Format.formatTimeShort (7525 # 100) = "1:15"%string /\
  Format.formatTimeShort 5 = "0:05"%string.
Proof. vm_compute. repeat split. Qed.

(** * The timeline of the editor *)

(** The bar the editor's scan finds is the bar of the marker whose span
    holds the time. *)
Lemma editor_find_bar_shown (before after : list marker) (shown : marker)
    (t : Q) :
  Forall (fun x => (time x <= t)%Q) (before ++ [shown]) ->
  match after with
  | [] => True
  | next :: _ => (t < time next)%Q
  end ->
  Editor.currentBar (Editor.find_bar t (before ++ shown :: after)) = bar shown.
Proof.
  intros Hall Hnext. apply Forall_app in Hall as [Hbefore Hshown].
  apply Forall_cons in Hshown as [Hshown _].
  unfold Editor.find_bar. rewrite editor_scan_reached by assumption.
  destruct after as [| next after']; [reflexivity |].
  now rewrite editor_scan_stops.
Qed.

(** The [seeking] handler at a time that lies in bar [b]: the bar is
    synced, the cursor is on a whole tick of the bar, and the renderer and
    the tick map are the ones it found. *)
Lemma onSeeking_in_bar (t : Q) (s : Editor.state) (b : Z) (r : tick_range) :
  Editor.alphaTab s = true ->
  Editor.currentBar (Editor.find_bar t (Editor.beatMarkers s)) = b ->
  0 < b -> Editor.barTickMap s !! b = Some r -> start r <= end_ r ->
  Editor.lastSyncedBar (Editor.onSeeking t s) = b /\
  (exists tick : Z,
     Editor.tickPosition (Editor.onSeeking t s) = of_Z tick /\
     start r <= tick <= end_ r) /\
  Editor.alphaTab (Editor.onSeeking t s) = true /\
  Editor.barTickMap (Editor.onSeeking t s) = Editor.barTickMap s.
Proof.
  intros Halpha Hfound Hb Hr Hrange.
  unfold Editor.onSeeking, Editor.highlightCurrentBar.
  cbn zeta. editor_fields.
  change (Editor.beatMarkers (Editor.set_lastSyncedBar 0 s))
    with (Editor.beatMarkers s).
  set (sc := Editor.find_bar t (Editor.beatMarkers s)) in *.
  rewrite Hfound.
  replace (0 <? b) with true by (symmetry; apply Z.ltb_lt; exact Hb).
  replace (b =? 0) with false by (symmetry; apply Z.eqb_neq; lia).
  cbn [negb andb].
  set (s0 := Editor.set_lastSyncedBar b (Editor.set_lastSyncedBar 0 s)).
  assert (Hs1 : Editor.scrollToBar b s0 =
                Editor.set_tickPosition (of_Z (start r)) s0).
  { unfold Editor.scrollToBar.
    change (Editor.alphaTab s0) with (Editor.alphaTab s).
    change (Editor.barTickMap s0) with (Editor.barTickMap s).
    now rewrite Halpha, Hr. }
  rewrite Hs1.
  change (Editor.barTickMap (Editor.set_tickPosition (of_Z (start r)) s0))
    with (Editor.barTickMap s).
  rewrite Hr.
  destruct (interpolate_tick_in_range r (Editor.bar_progress t sc)
              (editor_bar_progress_unit t sc) Hrange) as (tick & Htick & Hin).
  destruct (_ || _).
  - cbn zeta.
    change (Editor.alphaTab (Editor.set_tickPosition (of_Z (start r)) s0))
      with (Editor.alphaTab s).
    rewrite Halpha. cbn.
    split; [reflexivity |]. split; [| split; [exact Halpha | reflexivity]].
    exists tick. split; [exact Htick | exact Hin].
  - cbn.
    split; [reflexivity |]. split; [| split; [exact Halpha | reflexivity]].
    exists (start r). split; [reflexivity | lia].
Qed.

(** X27: a click on the timeline entry of a bar hands the waveform engine
    the marker's time as a fraction of the duration and puts the renderer
    cursor on the first tick of the bar.  Which bar the editor then shows
    as synced is up to the time the engine reports to the [seeking]
    handler: it is the bar of the marker whose span holds that time, the
    clicked bar if the reported time is at the marker or after it (and
    before the next marker), the bar before it if the engine falls short
    of the marker's time.  When the handler runs within [seekTo], the
    click's own [scrollToBar] comes last and the cursor is at the start of
    the clicked bar; when it runs after the click handler, the cursor is
    on a whole tick of the bar that is synced. *)
Theorem timeline_click_then_seeking
    (s : Editor.state) (before after : list marker) (m : marker)
    (r : tick_range) (duration : Q) :
  Editor.beatMarkers s = before ++ m :: after ->
  Forall (fun x => bar x <> bar m) before ->
  is_Some (Editor.wavesurfer s) -> Editor.alphaTab s = true ->
  Editor.barTickMap s !! bar m = Some r ->
  let click := Editor.timelineClick (bar m) duration s in
  Editor.timelineMarker (bar m) s = Some m /\
  fst click = Some (div (Num (time m)) (Num duration)) /\
  (~ (duration == 0)%Q ->
   fst click = Some (Num (time m / duration)) /\
   (time m / duration * duration == time m)%Q) /\
  snd click = Editor.set_tickPosition (of_Z (start r)) s /\
  forall (reported : Q) (before' after' : list marker) (shown : marker)
         (r' : tick_range),
    Editor.beatMarkers s = before' ++ shown :: after' ->
    Forall (fun x => (time x <= reported)%Q) (before' ++ [shown]) ->
    match after' with
    | [] => True
    | next :: _ => (reported < time next)%Q
    end ->
    0 < bar shown -> Editor.barTickMap s !! bar shown = Some r' ->
    start r' <= end_ r' ->
    let within := Editor.scrollToBar (bar m) (Editor.onSeeking reported s) in
    let late := Editor.onSeeking reported (snd click) in
    Editor.lastSyncedBar within = bar shown /\
    Editor.tickPosition within = of_Z (start r) /\
    Editor.lastSyncedBar late = bar shown /\
    exists tick : Z,
      Editor.tickPosition late = of_Z tick /\ start r' <= tick <= end_ r'.
Proof.
  intros Hms Hfirst [rate Hws] Halpha Hr click.
  assert (Hfind : Editor.timelineMarker (bar m) s = Some m).
  { unfold Editor.timelineMarker. rewrite Hms. apply find_first.
    exists before, after.
    split; [reflexivity |]. split; [| apply Z.eqb_refl].
    eapply Forall_impl; [exact Hfirst |]. intros x Hx. now apply Z.eqb_neq. }
  assert (Hscroll : Editor.scrollToBar (bar m) s =
                    Editor.set_tickPosition (of_Z (start r)) s).
  { unfold Editor.scrollToBar. now rewrite Halpha, Hr. }
  assert (Hclick : click =
            (Some (div (Num (time m)) (Num duration)),
             Editor.set_tickPosition (of_Z (start r)) s)).
  { unfold click, Editor.timelineClick. now rewrite Hfind, Hws, Hscroll. }
  split; [exact Hfind |].
  split; [now rewrite Hclick |].
  split.
  { intros Hd. rewrite Hclick. cbn [fst]. rewrite div_Num by exact Hd.
    split; [reflexivity | field; exact Hd]. }
  split; [now rewrite Hclick |].
  intros reported before' after' shown r' Hms' Hall Hnext Hbar Hr' Hrange.
  cbn zeta. rewrite Hclick. cbn [snd].
  assert (Hfound : Editor.currentBar
                     (Editor.find_bar reported (Editor.beatMarkers s))
                   = bar shown).
  { rewrite Hms'. now apply editor_find_bar_shown. }
  destruct (onSeeking_in_bar reported s (bar shown) r' Halpha Hfound Hbar Hr'
              Hrange) as (Hsynced & _ & Halpha1 & Hmap1).
  destruct (onSeeking_in_bar reported
              (Editor.set_tickPosition (of_Z (start r)) s) (bar shown) r'
              Halpha Hfound Hbar Hr' Hrange) as (Hsynced' & Htick' & _).
  split; [| split; [| split; [exact Hsynced' | exact Htick']]].
  - destruct (scrollToBar_frame (bar m) (Editor.onSeeking reported s))
      as (tick & ->). exact Hsynced.
  - unfold Editor.scrollToBar. now rewrite Halpha1, Hmap1, Hr.
Qed.

Lemma timeline_click_then_seeking_witness :
  let s := loaded_editor four_bars in
  let click := Editor.timelineClick 3 8 s in
  same (default NaN (fst click)) (Num (41 # 80)) /\
  Editor.tickPosition (snd click) = of_Z 7680 /\
  Editor.lastSyncedBar (Editor.onSeeking (41 # 10) (snd click)) = 3 /\
  Editor.lastSyncedBar
    (Editor.scrollToBar 3 (Editor.onSeeking (409 # 100) s)) = 2 /\
  Editor.tickPosition
    (Editor.scrollToBar 3 (Editor.onSeeking (409 # 100) s)) = of_Z 7680 /\
  Editor.lastSyncedBar (Editor.onSeeking (409 # 100) (snd click)) = 2.
Proof.
  cbn zeta.
  assert (Hws : is_Some (Editor.wavesurfer (loaded_editor four_bars)))
    by (now exists 1%Q).
  destruct (timeline_click_then_seeking (loaded_editor four_bars)
              [Marker 1 0; Marker 2 2] [Marker 4 6] (Marker 3 (41 # 10))
              (TickRange 7680 11520) 8 eq_refl)
    as (_ & _ & Hfraction & Hcursor & Hseeking);
    [repeat constructor; discriminate | exact Hws | reflexivity
    | vm_compute; reflexivity |].
  destruct Hfraction as [Hfraction _]; [vm_compute; discriminate |].
  destruct (Hseeking (41 # 10)%Q [Marker 1 0; Marker 2 2] [Marker 4 6]
              (Marker 3 (41 # 10)) (TickRange 7680 11520) eq_refl)
    as (_ & _ & Hon & _);
    [repeat constructor; cbn; lra | cbn; lra | cbn; lia
    | vm_compute; reflexivity | cbn; lia |].
  destruct (Hseeking (409 # 100)%Q [Marker 1 0] [Marker 3 (41 # 10); Marker 4 6]
              (Marker 2 2) (TickRange 3840 7680) eq_refl)
    as (Hshort & Hshort_tick & Hshort_late & _);
    [repeat constructor; cbn; lra | cbn; lra | cbn; lia
    | vm_compute; reflexivity | cbn; lia |].
  cbn [bar] in Hfraction, Hcursor.
  split; [rewrite Hfraction; vm_compute; reflexivity |].
  split; [rewrite Hcursor; reflexivity |].
  split; [exact Hon |].
  split; [exact Hshort |]. split; [exact Hshort_tick | exact Hshort_late].
Defined.

(** * The progress bar of the page *)

(** X28: a click on the progress bar of the exported page, at a fraction
    [p] below 1 of its width, stores [p] times the duration as resume
    offset and resolves the cursor there; the progress fill follows only
    when the page plays (to [100 p] percent, with the source restarted at
    the target), an idle page keeps the fill it had. *)
Theorem page_click_moves_fill_only_when_playing
    (now p : Q) (s : Standalone.state) :
  (0 < Standalone.duration s)%Q -> (0 <= p)%Q -> (p < 1)%Q ->
  let target := (p * Standalone.duration s)%Q in
  let s' := Standalone.progressBarClick now (Num p) s in
  Standalone.isPlaying s' = Standalone.isPlaying s /\
  Standalone.pausedAt s' = Num target /\
  Standalone.tickPosition s' =
    Standalone.tickPosition (Standalone.updateCursor (Num target) s) /\
  (Standalone.isPlaying s = false ->
   Standalone.progressFill s' = Standalone.progressFill s) /\
  (Standalone.isPlaying s = true ->
   same (Standalone.progressFill s') (Num (p * 100)) /\
   same (Standalone.startedAt s') (Num (now - target))).
Proof.
  intros Hd Hp0 Hp1 target s'. subst s'.
  unfold Standalone.progressBarClick. cbn [mul]. fold target.
  assert (Htarget : (target < Standalone.duration s)%Q) by (unfold target; nra).
  unfold Standalone.seekTo. cbn zeta.
  destruct (Standalone.isPlaying s) eqn:Hpl.
  - unfold Standalone.play. page_fields.
    unfold Standalone.update. page_fields.
    rewrite !sub_Num, !ge_Num.
    replace (Qle_bool (Standalone.duration s) (now - (now - target)))
      with false by (symmetry; apply Qle_bool_false; lra).
    rewrite (page_updateCursor_frame (Num target)).
    rewrite (page_updateCursor_frame (Num (now - (now - target)))).
    page_fields.
    split; [reflexivity |]. split; [reflexivity |]. split.
    + rewrite !page_updateCursor_tick. cbn zeta. page_fields.
      rewrite (scan_bars_ext (now - (now - target)) target) by lra.
      set (bar := Standalone.scan_bars (Num target) (Standalone.markers s) 0).
      destruct (0 <? bar); [| reflexivity].
      now destruct (nth_error (Standalone.barTickMap s) (Z.to_nat (bar - 1))).
    + split; [discriminate |]. intros _.
      rewrite div_Num by lra. cbn [mul same]. split; [| lra].
      unfold target. field. lra.
  - rewrite (page_updateCursor_frame (Num target)). page_fields.
    split; [exact Hpl |]. split; [reflexivity |]. split.
    + now apply page_updateCursor_ext.
    + split; [reflexivity | discriminate].
Qed.

Lemma page_click_moves_fill_only_when_playing_witness :
  let s :=
    Standalone.onAudioDecoded 8
      (Standalone.onRenderFinished four_bar_ticks
         (Standalone.new_page four_bars)) in
  let target := ((1 # 2) * Standalone.duration s)%Q in
  let s' := Standalone.progressBarClick 100 (Num (1 # 2)) s in
  Standalone.isPlaying s' = Standalone.isPlaying s /\
  Standalone.pausedAt s' = Num target /\
  Standalone.tickPosition s' =
    Standalone.tickPosition (Standalone.updateCursor (Num target) s) /\
  (Standalone.isPlaying s = false ->
   Standalone.progressFill s' = Standalone.progressFill s) /\
  (Standalone.isPlaying s = true ->
   same (Standalone.progressFill s') (Num ((1 # 2) * 100)) /\
   same (Standalone.startedAt s') (Num (100 - target))).
Proof.
  cbn zeta. apply page_click_moves_fill_only_when_playing.
  - change (0 < 8)%Q. lra.
  - lra.
  - lra.
Defined.

(** * The calls on the audio graph *)

Lemma clamp_seek_at_zero (duration : Q) : clamp_seek 0 duration = 0%Q.
Proof.
  unfold clamp_seek.
  destruct (Qle_bool 0 duration) eqn:E; [reflexivity | now rewrite E].
Qed.

(** [play] keeps the buffer and the rate. *)
Lemma play_buffer_rate (now : Q) (s : Player.state) :
  Player.audioBuffer (Player.play now s) = Player.audioBuffer s /\
  Player.playbackRate (Player.play now s) = Player.playbackRate s.
Proof.
  unfold Player.play. destruct (Player.audioBuffer s) eqn:E; cbn [negb];
    split; (reflexivity || exact E).
Qed.

(** X29: the end of a looped source starts two sources and stops one.
    The handler runs [seekTo(0)], which stops the source the field
    [audioSource] holds (the one that has ended) and starts a source at
    [0] through its [play()]; then it runs [play()] again, which starts a
    second source at [0] and puts it into the field in place of the first,
    on which nothing calls [stop()].  A pause after that stops the source
    the field holds and no other. *)
Theorem looped_end_starts_two_sources (s : Player.state) (now later : Q) :
  Player.isPlaying s = true -> Player.isLooping s = true ->
  Player.audioBuffer s = true -> is_Some (Player.audioSource s) ->
  let ended := Player.onended_traced now s in
  snd ended = Player.onended now s /\
  fst ended =
    [Player.StopSource;
     Player.StartSource (Num 0) (Player.playbackRate s);
     Player.StartSource (Num 0) (Player.playbackRate s)] /\
  Player.isPlaying (snd ended) = true /\
  Player.audioSource (snd ended) = Some (Player.playbackRate s) /\
  fst (Player.pause_traced later (snd ended)) = [Player.StopSource] /\
  Player.isPlaying (Player.pause later (snd ended)) = false /\
  Player.audioSource (Player.pause later (snd ended)) = None.
Proof.
  intros Eplay Eloop Hbuffer [rate Hsrc]. cbn zeta.
  unfold Player.onended_traced, Player.onended. rewrite Eplay, Eloop.
  cbn [fst snd Player.play_traced].
  rewrite !seekTo_traced_state.
  destruct (seekTo_steps_playing s now 0 Eplay)
    as (Hsteps & Hcalls & Hbuf & Hrate & Hpa & _).
  rewrite clamp_seek_at_zero in Hsteps, Hcalls, Hbuf, Hrate, Hpa.
  set (moved := Player.updateCursor _) in *.
  rewrite Hcalls, Hsteps, Hsrc, Hbuffer.
  rewrite <- Hbuf in Hbuffer.
  destruct (play_buffer_rate now moved) as [Hb1 Hr1].
  destruct (play_keeps now moved) as [Hp1 _].
  assert (Hbuffer1 : Player.audioBuffer (Player.play now moved) = true)
    by (now rewrite Hb1).
  destruct (play_started now _ Hbuffer1) as (Hpl2 & Hsrc2 & _).
  rewrite Hbuffer1, Hp1, Hpa, Hr1, Hrate in *. cbn [negb app].
  split; [reflexivity |]. split; [reflexivity |].
  split; [exact Hpl2 |]. split; [exact Hsrc2 |].
  destruct (pause_playing later _ Hpl2) as (Hpl3 & Hsrc3 & _).
  split; [| split; [exact Hpl3 | exact Hsrc3]].
  unfold Player.pause_traced. cbn [fst]. now rewrite Hpl2, Hsrc2.
Qed.

Lemma looped_end_starts_two_sources_witness :
  let s := Player.toggleLoop (playing_player four_bars 8 100) in
  (Player.isPlaying s = true /\ Player.isLooping s = true /\
   Player.audioBuffer s = true /\ is_Some (Player.audioSource s)) /\
  fst (Player.onended_traced 108 s) =
    [Player.StopSource; Player.StartSource (Num 0) 1;
     Player.StartSource (Num 0) 1] /\
  fst (Player.pause_traced 109 (snd (Player.onended_traced 108 s))) =
    [Player.StopSource] /\
  Player.isPlaying (Player.pause 109 (snd (Player.onended_traced 108 s)))
    = false.
Proof.
  cbn zeta.
  assert (Hsrc : is_Some
            (Player.audioSource
               (Player.toggleLoop (playing_player four_bars 8 100))))
    by (now exists 1%Q).
  split; [split; [reflexivity | split; [reflexivity | split;
    [reflexivity | exact Hsrc]]] |].
  destruct (looped_end_starts_two_sources
              (Player.toggleLoop (playing_player four_bars 8 100)) 108 109
              eq_refl eq_refl eq_refl Hsrc)
    as (_ & Hcalls & _ & _ & Hstop & Hidle & _).
  split; [exact Hcalls |]. split; [exact Hstop | exact Hidle].
Defined.
